(** * data_transfer: a shallow embedding of [src/data_transfer/__init__.py]

    The module moves values from a "source" nested dictionary into a deep
    copy of a "target" nested dictionary.  Python dictionaries and lists are
    mutable objects that can be reached through several references, and the
    module writes through such references, so the embedding keeps an explicit
    object store: a value is an atom or a reference, and every container
    lives in the heap. *)

From Stdlib Require Import ZArith String Ascii List Lia Bool.
From stdpp Require Import base tactics option list numbers strings gmap.

Local Open Scope string_scope.
Local Open Scope list_scope.

(** ** Values, objects, heaps *)

Abbreviation loc := nat (only parsing).

(** A Python value of the modelled universe: [None], an [int], a [str], or a
    reference to a container object. *)
Inductive val :=
| VNone
| VInt (z : Z)
| VStr (s : string)
| VRef (l : loc).

(** Container objects.  Dictionaries keep their insertion order and have
    string keys (the "Nested Mapping" of the data model); [OBox v] is an
    instance of a user class whose only attribute is [value]. *)
Inductive obj :=
| ODict (items : list (string * val))
| OList (xs : list val)
| OTuple (xs : list val)
| OBox (v : val).

(** The heap is the sequence of all objects allocated so far; a location is
    an index into it and allocation appends. *)
Abbreviation heap := (list obj).

#[global] Instance val_eq_dec : EqDecision val.
Proof. solve_decision. Defined.

#[global] Instance obj_eq_dec : EqDecision obj.
Proof. solve_decision. Defined.

(** Exceptions the module can raise.  [NameError] carries the key list that
    the message of line 133 prints. *)
Inductive exn :=
| TypeError
| KeyError
| IndexError
| NameError (key_list : val).

#[global] Instance exn_eq_dec : EqDecision exn.
Proof. solve_decision. Defined.

(** The outcome of running a piece of code: a result, a raised exception, or
    [Abort] when the model has no behaviour to offer (the recursion budget is
    used up, or a dictionary would receive a key that is not a string). *)
Inductive outcome (A : Type) :=
| Ok (a : A)
| Raise (e : exn)
| Abort.
Arguments Ok {A} a.
Arguments Raise {A} e.
Arguments Abort {A}.

#[global] Instance outcome_bind : MBind outcome := fun A B f m =>
  match m with
  | Ok a => f a
  | Raise e => Raise e
  | Abort => Abort
  end.

#[global] Instance outcome_ret : MRet outcome := fun A a => Ok a.

(** Sequencing over a list, left to right, stopping at the first outcome that
    is not [Ok]. *)
Fixpoint mapM_o {A B} (f : A -> outcome B) (xs : list A) : outcome (list B) :=
  match xs with
  | [] => Ok []
  | x :: xs' => y ← f x; ys ← mapM_o f xs'; Ok (y :: ys)
  end.

(** A loop whose body only updates a state. *)
Fixpoint foldM_o {S A} (f : S -> A -> outcome S) (s : S) (xs : list A) : outcome S :=
  match xs with
  | [] => Ok s
  | x :: xs' => s1 ← f s x; foldM_o f s1 xs'
  end.

(** ** Primitive operations of the language *)

Definition deref (h : heap) (v : val) : option obj :=
  match v with
  | VRef l => h !! l
  | _ => None
  end.

(** [isinstance(v, dict)], [isinstance(v, list)], [isinstance(v, tuple)]. *)
Definition is_dict (h : heap) (v : val) : bool :=
  match deref h v with Some (ODict _) => true | _ => false end.

Definition is_list (h : heap) (v : val) : bool :=
  match deref h v with Some (OList _) => true | _ => false end.

Definition is_tuple (h : heap) (v : val) : bool :=
  match deref h v with Some (OTuple _) => true | _ => false end.

(** Allocation of a new object. *)
Definition alloc (h : heap) (o : obj) : val * heap := (VRef (length h), h ++ [o]).

(** Dictionary access on the item list. *)
Fixpoint dict_get (k : string) (items : list (string * val)) : option val :=
  match items with
  | [] => None
  | (k', v) :: rest => if String.eqb k' k then Some v else dict_get k rest
  end.

Definition dict_mem (k : string) (items : list (string * val)) : bool :=
  match dict_get k items with Some _ => true | None => false end.

(** [d[k] = v]: an existing key keeps its position, a new key goes last. *)
Fixpoint dict_set (k : string) (v : val) (items : list (string * val))
  : list (string * val) :=
  match items with
  | [] => [(k, v)]
  | (k', v') :: rest =>
      if String.eqb k' k then (k', v) :: rest else (k', v') :: dict_set k v rest
  end.

(** [del d[k]]. *)
Fixpoint dict_del (k : string) (items : list (string * val)) : list (string * val) :=
  match items with
  | [] => []
  | (k', v') :: rest =>
      if String.eqb k' k then rest else (k', v') :: dict_del k rest
  end.

(** Python sequence indexing: a negative index counts from the end. *)
Definition norm_index (n : nat) (i : Z) : option nat :=
  let k := if (i <? 0)%Z then (i + Z.of_nat n)%Z else i in
  if ((0 <=? k) && (k <? Z.of_nat n))%Z then Some (Z.to_nat k) else None.

Definition seq_get {A} (xs : list A) (i : Z) : option A :=
  match norm_index (length xs) i with
  | Some k => xs !! k
  | None => None
  end.

Definition str_get (s : string) (i : Z) : option string :=
  match norm_index (String.length s) i with
  | Some k => match String.get k s with
              | Some c => Some (String c EmptyString)
              | None => None
              end
  | None => None
  end.

(** [t in s] on strings: substring test. *)
Fixpoint is_substring (t s : string) : bool :=
  if String.prefix t s then true
  else match s with
       | EmptyString => false
       | String _ s' => is_substring t s'
       end.

(** [hash(v)] succeeds: lists and dictionaries are unhashable, a tuple is
    hashable when its elements are, instances hash by identity. *)
Fixpoint hashable (fuel : nat) (h : heap) (v : val) : outcome bool :=
  match v with
  | VRef l =>
      match h !! l with
      | Some (OList _) | Some (ODict _) => Ok false
      | Some (OTuple xs) =>
          match fuel with
          | 0 => Abort
          | S n =>
              (fix all (xs : list val) : outcome bool :=
                 match xs with
                 | [] => Ok true
                 | x :: xs' => b ← hashable n h x; if b : bool then all xs' else Ok false
                 end) xs
          end
      | _ => Ok true
      end
  | _ => Ok true
  end.

(** Equality as the interpreter's containers test it: identical objects are
    equal, atoms compare by value, lists, tuples and dictionaries compare
    structurally, instances compare by identity. *)
Fixpoint py_eq (fuel : nat) (h : heap) (a b : val) : outcome bool :=
  match a, b with
  | VNone, VNone => Ok true
  | VInt x, VInt y => Ok (x =? y)%Z
  | VStr x, VStr y => Ok (String.eqb x y)
  | VRef la, VRef lb =>
      if (la =? lb)%nat then Ok true
      else
        let all2 := fun (n : nat) =>
          fix all2 (xs ys : list val) : outcome bool :=
            match xs, ys with
            | x :: xs', y :: ys' =>
                b ← py_eq n h x y; if b : bool then all2 xs' ys' else Ok false
            | _, _ => Ok true
            end in
        match h !! la, h !! lb with
        | Some (OList xs), Some (OList ys) =>
            if (length xs =? length ys)%nat then
              match fuel with 0 => Abort | S n => all2 n xs ys end
            else Ok false
        | Some (OTuple xs), Some (OTuple ys) =>
            match fuel with
            | 0 => Abort
            | S n => b ← all2 n xs ys;
                     if b : bool then Ok (length xs =? length ys)%nat else Ok false
            end
        | Some (ODict xs), Some (ODict ys) =>
            if (length xs =? length ys)%nat then
              match fuel with
              | 0 => Abort
              | S n =>
                  (fix all (xs : list (string * val)) : outcome bool :=
                     match xs with
                     | [] => Ok true
                     | (k, v) :: xs' =>
                         match dict_get k ys with
                         | None => Ok false
                         | Some v' =>
                             b ← py_eq n h v' v; if b : bool then all xs' else Ok false
                         end
                     end) xs
              end
            else Ok false
        | _, _ => Ok false
        end
  | _, _ => Ok false
  end.

(** [len(v)]. *)
Definition py_len (h : heap) (v : val) : outcome Z :=
  match v with
  | VStr s => Ok (Z.of_nat (String.length s))
  | VRef l =>
      match h !! l with
      | Some (ODict items) => Ok (Z.of_nat (length items))
      | Some (OList xs) | Some (OTuple xs) => Ok (Z.of_nat (length xs))
      | _ => Raise TypeError
      end
  | _ => Raise TypeError
  end.

(** [c[k]]. *)
Definition py_getitem (fuel : nat) (h : heap) (c k : val) : outcome val :=
  match c with
  | VStr s =>
      match k with
      | VInt i => match str_get s i with Some ch => Ok (VStr ch) | None => Raise IndexError end
      | _ => Raise TypeError
      end
  | VRef l =>
      match h !! l with
      | Some (ODict items) =>
          match k with
          | VStr s => match dict_get s items with Some v => Ok v | None => Raise KeyError end
          | _ => b ← hashable fuel h k; if b : bool then Raise KeyError else Raise TypeError
          end
      | Some (OList xs) | Some (OTuple xs) =>
          match k with
          | VInt i => match seq_get xs i with Some v => Ok v | None => Raise IndexError end
          | _ => Raise TypeError
          end
      | _ => Raise TypeError
      end
  | _ => Raise TypeError
  end.

(** [k in c]. *)
Definition py_contains (fuel : nat) (h : heap) (k c : val) : outcome bool :=
  match c with
  | VStr s =>
      match k with
      | VStr t => Ok (is_substring t s)
      | _ => Raise TypeError
      end
  | VRef l =>
      match h !! l with
      | Some (ODict items) =>
          match k with
          | VStr s => Ok (dict_mem s items)
          | _ => b ← hashable fuel h k; if b : bool then Ok false else Raise TypeError
          end
      | Some (OList xs) | Some (OTuple xs) =>
          (fix any (xs : list val) : outcome bool :=
             match xs with
             | [] => Ok false
             | x :: xs' => b ← py_eq fuel h x k; if b : bool then Ok true else any xs'
             end) xs
      | _ => Raise TypeError
      end
  | _ => Raise TypeError
  end.

(** [c[k] = v].  A dictionary is string-keyed in this model, so storing
    under another hashable key has no modelled behaviour.  The module never
    gets there: [set_dict_entry] only stores under a key that [in] has found,
    and in a dictionary [in] finds strings only ([py_contains_dict_true]). *)
Definition py_setitem (fuel : nat) (h : heap) (c k v : val) : outcome heap :=
  match c with
  | VRef l =>
      match h !! l with
      | Some (ODict items) =>
          match k with
          | VStr s => Ok (<[l := ODict (dict_set s v items)]> h)
          | _ => b ← hashable fuel h k; if b : bool then Abort else Raise TypeError
          end
      | Some (OList xs) =>
          match k with
          | VInt i =>
              match norm_index (length xs) i with
              | Some j => Ok (<[l := OList (<[j := v]> xs)]> h)
              | None => Raise IndexError
              end
          | _ => Raise TypeError
          end
      | _ => Raise TypeError
      end
  | _ => Raise TypeError
  end.

(** [value.value if hasattr(value, 'value') else value]. *)
Definition pure_value (h : heap) (value : val) : val :=
  match deref h value with
  | Some (OBox w) => w
  | _ => value
  end.

(** The elements a [for] loop over [v] visits, for the sequence types. *)
Definition elements (h : heap) (v : val) : list val :=
  match deref h v with
  | Some (OList xs) | Some (OTuple xs) => xs
  | _ => []
  end.

(** The integers of [range(n)]. *)
Definition py_range (n : Z) : list Z := map Z.of_nat (seq 0 (Z.to_nat n)).

(** ** Running code: state and exceptions *)

(** Machine state: the heap and what has been printed.  A diagnostic of
    [set_dict_entry] is recorded as the key list it names. *)
Record state := State { st_heap : heap; st_out : list val }.

(** A run ends with a value, or with an exception, in both cases in some
    state; or it has no modelled behaviour. *)
Inductive result (A : Type) :=
| Done (a : A) (s : state)
| Failed (e : exn) (s : state)
| Aborted.
Arguments Done {A} a s.
Arguments Failed {A} e s.
Arguments Aborted {A}.

Definition M (A : Type) : Type := state -> result A.

#[global] Instance M_ret : MRet M := fun A a s => Done a s.

#[global] Instance M_bind : MBind M := fun A B f m s =>
  match m s with
  | Done a s' => f a s'
  | Failed e s' => Failed e s'
  | Aborted => Aborted
  end.

Definition raise {A} (e : exn) : M A := fun s => Failed e s.

Definition abort {A} : M A := fun _ => Aborted.

(** An operation that only reads the heap. *)
Definition query {A} (f : heap -> outcome A) : M A := fun s =>
  match f (st_heap s) with
  | Ok a => Done a s
  | Raise e => Failed e s
  | Abort => Aborted
  end.

(** An operation that replaces the heap. *)
Definition update (f : heap -> outcome heap) : M unit := fun s =>
  match f (st_heap s) with
  | Ok h' => Done () (State h' (st_out s))
  | Raise e => Failed e s
  | Abort => Aborted
  end.

Definition new_loc (o : obj) : M loc := fun s =>
  Done (length (st_heap s)) (State (st_heap s ++ [o]) (st_out s)).

Definition new (o : obj) : M val := l ← new_loc o; mret (VRef l).

Definition print (v : val) : M unit := fun s =>
  Done () (State (st_heap s) (st_out s ++ [v])).

(** [for x in xs: body(x)]. *)
Fixpoint for_each {A} (xs : list A) (body : A -> M unit) : M unit :=
  match xs with
  | [] => mret ()
  | x :: xs' => body x;; for_each xs' body
  end.

(** A loop that carries local variables [a]. *)
Fixpoint for_fold {S A} (body : S -> A -> M S) (a : S) (xs : list A) : M S :=
  match xs with
  | [] => mret a
  | x :: xs' => a1 ← body a x; for_fold body a1 xs'
  end.

Definition getitem (fuel : nat) (c k : val) : M val :=
  query (fun h => py_getitem fuel h c k).

Definition contains (fuel : nat) (k c : val) : M bool :=
  query (fun h => py_contains fuel h k c).

Definition setitem (fuel : nat) (c k v : val) : M unit :=
  update (fun h => py_setitem fuel h c k v).

Definition len (v : val) : M Z := query (fun h => py_len h v).

(** [x[:-1]] on the sequence types. *)
Definition slice_init (x : val) : M val :=
  match x with
  | VStr s => mret (VStr (String.substring 0 (String.length s - 1) s))
  | _ =>
      o ← query (fun h => Ok (deref h x));
      match o with
      | Some (OList xs) => new (OList (removelast xs))
      | Some (OTuple xs) => new (OTuple (removelast xs))
      | _ => raise TypeError
      end
  end.

Definition isinstance (test : heap -> val -> bool) (v : val) : M bool :=
  query (fun h => Ok (test h v)).

(** ** The module's functions *)

(** [ensure_list], lines 13-30: a list or tuple is returned as it is, anything
    else is wrapped in a new list of [length] repetitions.  ([numpy] arrays are
    outside the modelled universe.) *)
Definition ensure_list (variable : val) (length : Z) : M val :=
  iterable ← isinstance (fun h v => is_list h v || is_tuple h v) variable;
  if iterable : bool then mret variable
  else new (OList (replicate (Z.to_nat length) variable)).

(** [del var[key]] on a dictionary. *)
Definition py_delitem (h : heap) (var : val) (key : string) : outcome heap :=
  match var with
  | VRef l =>
      match h !! l with
      | Some (ODict items) =>
          if dict_mem key items then Ok (<[l := ODict (dict_del key items)]> h)
          else Raise KeyError
      | _ => Raise TypeError
      end
  | _ => Raise TypeError
  end.

(** [remove_key], lines 33-56.  The keys are snapshotted by
    [list(var.keys())]; each turn of the loop reads the dictionary as it is
    then.  A list is never changed by this function, so iterating over its
    elements as they were at loop entry is what the interpreter does. *)
Fixpoint remove_key (fuel : nat) (key : string) (var : val) : M unit :=
  match fuel with
  | 0 => abort
  | S n =>
      o ← query (fun h => Ok (deref h var));
      match o with
      | Some (ODict items) =>
          for_each (map fst items)
                   (fun k => if String.eqb k key then update (fun h => py_delitem h var key)
                             else v ← getitem n var (VStr k); remove_key n key v)
      | Some (OList xs) | Some (OTuple xs) => for_each xs (remove_key n key)
      | _ => mret ()
      end
  end.

(** [gen_dict_extract], lines 59-91, as the list of what the generator yields
    when run to its end.  The function changes nothing, so the heap is only
    read. *)
Fixpoint gen_dict_extract (fuel : nat) (key : string) (h : heap) (var : val)
  : outcome (list val) :=
  match fuel with
  | 0 => Abort
  | S n =>
      match deref h var with
      | Some (ODict items) =>
          rs ← mapM_o (fun '(k, v) =>
                         inner ← (if is_dict h v then gen_dict_extract n key h v
                                  else if is_list h v then
                                         rs ← mapM_o (gen_dict_extract n key h) (elements h v);
                                         Ok (concat rs)
                                       else Ok []);
                         Ok ((if String.eqb k key then [var] else []) ++ inner))
                      items;
          Ok (concat rs)
      | Some (OList xs) | Some (OTuple xs) =>
          rs ← mapM_o (gen_dict_extract n key h) xs; Ok (concat rs)
      | _ => Ok []
      end
  end.

(** The walk of lines 121-122 and 154-155: index with all keys but the last.
    Nothing is written during the walk. *)
Definition walk_prefix (fuel : nat) (h : heap) (key_list root : val) : outcome val :=
  n ← py_len h key_list;
  foldM_o (fun sub_dict i =>
             k ← py_getitem fuel h key_list (VInt i);
             py_getitem fuel h sub_dict k)
          root (py_range (n - 1)).

(** [set_dict_entry], lines 97-137. *)
Definition set_dict_entry (fuel : nat) (value key_list target_dict : val)
           (mode : string) : M val :=
  is_d ← isinstance is_dict target_dict;
  if is_d : bool then
    sub_dict ← query (fun h => walk_prefix fuel h key_list target_dict);
    last ← getitem fuel key_list (VInt (-1));
    found ← contains fuel last sub_dict;
    if found : bool then
      pure ← query (fun h => Ok (pure_value h value));
      setitem fuel sub_dict last pure;;
      mret target_dict
    else if String.eqb mode "strict" then raise (NameError key_list)
    else print key_list;; mret target_dict
  else raise TypeError.

(** [get_dict_entry], lines 140-156. *)
Definition get_dict_entry (fuel : nat) (key_list source_dict : val) : M val :=
  is_d ← isinstance is_dict source_dict;
  if is_d : bool then
    sub_dict ← query (fun h => walk_prefix fuel h key_list source_dict);
    last ← getitem fuel key_list (VInt (-1));
    getitem fuel sub_dict last
  else raise TypeError.

(** [copy.deepcopy] is library code.  It is modelled after its documented
    contract: every compound object reachable from the argument is rebuilt as
    a new object, and the memo makes an object that is reached twice be copied
    once.  (The interpreter hands back a tuple itself when none of its
    elements needed a copy; a tuple cannot be written to, so this module
    cannot tell the difference.) *)
Abbreviation memo := (gmap loc loc).

Fixpoint copy_all {A B} (copy : memo -> A -> M (B * memo)) (m : memo) (xs : list A)
  : M (list B * memo) :=
  match xs with
  | [] => mret ([], m)
  | x :: xs' =>
      '(y, m1) ← copy m x;
      '(ys, m2) ← copy_all copy m1 xs';
      mret (y :: ys, m2)
  end.

Definition store (l : loc) (o : obj) : M unit :=
  update (fun h => Ok (<[l := o]> h)).

Fixpoint deepcopy_rec (fuel : nat) (m : memo) (x : val) : M (val * memo) :=
  match x with
  | VRef l =>
      match m !! l with
      | Some y => mret (VRef y, m)
      | None =>
          match fuel with
          | 0 => abort
          | S n =>
              o ← query (fun h => Ok (h !! l));
              match o with
              | Some (OList xs) =>
                  y ← new_loc (OList []);
                  '(ys, m') ← copy_all (deepcopy_rec n) (<[l := y]> m) xs;
                  store y (OList ys);;
                  mret (VRef y, m')
              | Some (ODict items) =>
                  y ← new_loc (ODict []);
                  '(ys, m') ← copy_all (fun m '(k, v) =>
                                          '(v', m') ← deepcopy_rec n m v; mret ((k, v'), m'))
                                       (<[l := y]> m) items;
                  store y (ODict ys);;
                  mret (VRef y, m')
              | Some (OBox v) =>
                  y ← new_loc (OBox VNone);
                  '(v', m') ← deepcopy_rec n (<[l := y]> m) v;
                  store y (OBox v');;
                  mret (VRef y, m')
              | Some (OTuple xs) =>
                  '(ys, m') ← copy_all (deepcopy_rec n) m xs;
                  match m' !! l with
                  | Some y' => mret (VRef y', m')
                  | None => y ← new_loc (OTuple ys); mret (VRef y, <[l := y]> m')
                  end
              | None => mret (x, m)
              end
          end
      end
  | _ => mret (x, m)
  end.

Definition deepcopy (fuel : nat) (x : val) : M val :=
  '(y, _) ← deepcopy_rec fuel ∅ x; mret y.

(** The loop of lines 237-246: the values a fan-out path gathers.  Nothing is
    written while they are gathered. *)
Definition fan_out_values (fuel : nat) (h : heap) (gui_values idx : val)
  : outcome (list val) :=
  mapM_o (fun j =>
            value ← match py_getitem fuel h gui_values j with
                    | Raise IndexError => py_getitem fuel h gui_values (VInt (-1))
                    | r => r
                    end;
            Ok (pure_value h value))
         (elements h idx).

(** The local variables of the loops of [dict_transfer]. *)
Record locals := Locals { sub_dict : val; name_lists : list val }.

(** One turn of the loop of lines 232-255.  The loop runs over [sim_names]
    by position and reads the element when its turn comes; no statement of
    the module changes the length of a list, so the positions are those of
    [range(len(sim_names))].  [value_list] is a new list that nothing else
    refers to while it is filled: it is allocated here with its elements. *)
Definition transfer_path (fuel : nat) (sim_names gui_values : val)
           (multi_variable : bool) (a : locals) (i : Z) : M locals :=
  sim_name_list ← getitem fuel sim_names (VInt i);
  last ← getitem fuel sim_name_list (VInt (-1));
  fan_out ← isinstance is_list last;
  if fan_out : bool then
    pure_name_list ← slice_init sim_name_list;
    value_list ← query (fun h => fan_out_values fuel h gui_values last);
    vl ← new (OList value_list);
    sub ← set_dict_entry fuel vl pure_name_list (sub_dict a) "moderate";
    mret (Locals sub (name_lists a ++ [pure_name_list]))
  else
    gui_value ← (if multi_variable then getitem fuel gui_values (VInt i)
                 else getitem fuel gui_values (VInt 0));
    sub ← set_dict_entry fuel gui_value sim_name_list (sub_dict a) "moderate";
    mret (Locals sub (name_lists a ++ [sim_name_list])).

(** One turn of the loop of lines 217-262, for one extracted entry. *)
Definition transfer_entry (fuel : nat) (target_name_key value_key : string)
           (target_dict_copy : val) (names : list val) (gui_entry : val)
  : M (list val) :=
  sim_names ← getitem fuel gui_entry (VStr target_name_key);
  sim_names ← ensure_list sim_names 1;
  first ← getitem fuel sim_names (VInt 0);
  multi_path ← isinstance is_list first;
  if multi_path : bool then
    raw ← getitem fuel gui_entry (VStr value_key);
    gui_values ← ensure_list raw 1;
    n1 ← len sim_names;
    n2 ← len gui_values;
    let multi_variable := (n1 =? n2)%Z in
    a ← for_fold (transfer_path fuel sim_names gui_values multi_variable)
                 (Locals target_dict_copy names) (py_range n1);
    mret (name_lists a)
  else
    let names := names ++ [sim_names] in
    has_value ← contains fuel (VStr value_key) gui_entry;
    if has_value : bool then
      value ← getitem fuel gui_entry (VStr value_key);
      set_dict_entry fuel value sim_names target_dict_copy "strict";;
      mret names
    else mret names.

(** [dict_transfer], lines 159-263. *)
Definition dict_transfer (fuel : nat) (source_dict target_dict : val)
           (target_name_key value_key : string) : M (val * list val) :=
  target_dict_copy ← deepcopy fuel target_dict;
  extracted_gui_entries ←
    query (fun h => gen_dict_extract fuel target_name_key h source_dict);
  names ← for_fold (transfer_entry fuel target_name_key value_key target_dict_copy)
                   [] extracted_gui_entries;
  mret (target_dict_copy, names).

(** ** Literals

    A [tree] is a Python literal.  [build] allocates it as a fresh structure
    without sharing; [snapshot] reads a structure back. *)

#[local] Set Warnings "-register-all".

Inductive tree :=
| TNone
| TInt (z : Z)
| TStr (s : string)
| TList (ts : list tree)
| TTuple (ts : list tree)
| TDict (items : list (string * tree))
| TBox (t : tree).

Fixpoint build (t : tree) (h : heap) : val * heap :=
  let build_all :=
    fix build_all (ts : list tree) (h : heap) : list val * heap :=
      match ts with
      | [] => ([], h)
      | t :: ts' =>
          let '(v, h1) := build t h in
          let '(vs, h2) := build_all ts' h1 in
          (v :: vs, h2)
      end in
  match t with
  | TNone => (VNone, h)
  | TInt z => (VInt z, h)
  | TStr s => (VStr s, h)
  | TList ts => let '(vs, h1) := build_all ts h in alloc h1 (OList vs)
  | TTuple ts => let '(vs, h1) := build_all ts h in alloc h1 (OTuple vs)
  | TDict items =>
      let '(vs, h1) :=
        (fix build_items (items : list (string * tree)) (h : heap)
           : list (string * val) * heap :=
           match items with
           | [] => ([], h)
           | (k, t) :: rest =>
               let '(v, h1) := build t h in
               let '(vs, h2) := build_items rest h1 in
               ((k, v) :: vs, h2)
           end) items h in
      alloc h1 (ODict vs)
  | TBox t => let '(v, h1) := build t h in alloc h1 (OBox v)
  end.

Fixpoint snapshot (fuel : nat) (h : heap) (v : val) : option tree :=
  match v with
  | VNone => Some TNone
  | VInt z => Some (TInt z)
  | VStr s => Some (TStr s)
  | VRef l =>
      match fuel with
      | 0 => None
      | S n =>
          match h !! l with
          | Some (OList xs) => TList <$> mapM (snapshot n h) xs
          | Some (OTuple xs) => TTuple <$> mapM (snapshot n h) xs
          | Some (ODict items) =>
              TDict <$> mapM (fun '(k, v) => t ← snapshot n h v; Some (k, t)) items
          | Some (OBox v) => TBox <$> snapshot n h v
          | None => None
          end
      end
  end.

(** What a caller sees of [dict_transfer(source, target)] on two literals:
    the returned pair, the target afterwards and what was printed, all read
    back as literals. *)
Record observed := Observed {
  obs_result : option tree;
  obs_paths : option (list tree);
  obs_target : option tree;
  obs_printed : option (list tree)
}.

Definition run_dict_transfer (fuel : nat) (source target : tree) : outcome observed :=
  let '(src, h0) := build source [] in
  let '(tgt, h1) := build target h0 in
  match dict_transfer fuel src tgt "sim_name" "value" (State h1 []) with
  | Done (copy, names) s =>
      let look := snapshot fuel (st_heap s) in
      Ok (Observed (look copy) (mapM look names) (look tgt) (mapM look (st_out s)))
  | Failed e _ => Raise e
  | Aborted => Abort
  end.

Definition scenario_A_source :=
  TDict [("w1", TDict [("sim_name", TList [TStr "a"; TStr "b"]); ("value", TInt 5)])].
Definition scenario_A_target := TDict [("a", TDict [("b", TInt 0)])].

Definition scenario_C_source :=
  TDict [("w1", TDict [("sim_name", TList [TList [TStr "x"; TList [TInt 0; TInt 2]]]);
                       ("value", TList [TInt 10; TInt 20; TInt 30])])].
Definition scenario_C_target := TDict [("x", TList [])].

(** ** Vocabulary of the properties *)

Definition absent_key_heap : heap :=
  [ODict [("a", VRef 1)]; ODict [("b", VInt 0)]; OList [VStr "a"; VStr "zz"]].

(** The two cases on concrete inputs:
    [{'w1': {'sim_name': [['x']]}}] against [{'x': 0}], and
    [{'w1': {'sim_name': ['a','b']}}] against [{'a': {'b': 0}}]. *)
Definition multi_no_value_heap : heap :=
  [OList [VStr "x"]; OList [VRef 0]; ODict [("sim_name", VRef 1)]; ODict [("w1", VRef 2)];
   ODict [("x", VInt 0)]].

Definition single_no_value_heap : heap :=
  [OList [VStr "a"; VStr "b"]; ODict [("sim_name", VRef 0)]; ODict [("w1", VRef 1)];
   ODict [("b", VInt 0)]; ODict [("a", VRef 3)]].

(** [values[j]], or [values[-1]] when [j] is out of range. *)
Definition value_at (values : list val) (j : Z) : val :=
  match seq_get values j with
  | Some v => v
  | None => List.last values VNone
  end.

(** A sequence object: a list or a tuple. *)
Definition is_seq_ctor (c : list val -> obj) : Prop := c = OList \/ c = OTuple.

(** A turn on the path [['x', [0, 5]]] with the values [[Box(10), 20, Box(30)]],
    where [Box(v)] is an instance whose [.value] is [v]: the index list, the
    path, [sim_names], the two instances, the values, and the copy of the
    target with its empty list. *)
Definition fan_out_boxed_heap : heap :=
  [OList [VInt 0; VInt 5]; OList [VStr "x"; VRef 0]; OList [VRef 1];
   OBox (VInt 10); OBox (VInt 30); OList [VRef 3; VInt 20; VRef 4];
   ODict [("x", VRef 7)]; OList []].

(** What [list(gen_dict_extract(key, t))] shows for a literal [t]. *)
Definition run_gen_dict_extract (fuel : nat) (key : string) (t : tree)
  : outcome (option (list tree)) :=
  let '(v, h) := build t [] in
  rs ← gen_dict_extract fuel key h v;
  Ok (mapM (snapshot fuel h) rs).

(** The values an object holds. *)
Definition children (o : obj) : list val :=
  match o with
  | ODict items => map snd items
  | OList xs | OTuple xs => xs
  | OBox v => [v]
  end.

(** A heap is properly nested when its objects can be ranked so that every
    object ranks above the objects it holds: no object contains itself, at
    any depth.  Sharing is allowed. *)
Definition nested (rk : loc -> nat) (h : heap) : Prop :=
  forall l o l', h !! l = Some o -> VRef l' ∈ children o -> rk l' < rk l.

(** The walk along a list of keys. *)
Definition walk_step (fuel : nat) (h : heap) (key_list : val) (sub_dict : val) (i : Z)
  : outcome val :=
  k ← py_getitem fuel h key_list (VInt i); py_getitem fuel h sub_dict k.

(** [{'a': {'b': 0}}] with the path [['a', 'b']]. *)
Definition round_trip_heap : heap :=
  [ODict [("a", VRef 1)]; ODict [("b", VInt 0)]; OList [VStr "a"; VStr "b"]].

Definition round_trip_rank (l : loc) : nat := match l with 0 => 1 | _ => 0 end.

(** The same with an instance [Box(9)], whose [.value] is 9, at 3. *)
Definition round_trip_boxed_heap : heap :=
  [ODict [("a", VRef 1)]; ODict [("b", VInt 0)]; OList [VStr "a"; VStr "b"];
   OBox (VInt 9)].

(** The values [remove_key] and [gen_dict_extract] go into: the values of a
    dictionary, the elements of a list or tuple. *)
Definition members (o : obj) : list val :=
  match o with
  | OBox _ => []
  | _ => children o
  end.

(** [inside h v l]: the object at [l] is [v] or lies inside [v], at any
    depth of dictionaries, lists and tuples. *)
Inductive inside (h : heap) : val -> loc -> Prop :=
| inside_here l : inside h (VRef l) l
| inside_step l o v l' :
    h !! l = Some o -> v ∈ members o -> inside h v l' -> inside h (VRef l) l'.

(** Dictionaries have each key once. *)
Definition keys_unique (h : heap) : Prop :=
  forall l items, h !! l = Some (ODict items) -> NoDup (map fst items).

(** No dictionary inside [v] has the key. *)
Definition key_free (key : string) (h : heap) (v : val) : Prop :=
  forall l items, inside h v l -> h !! l = Some (ODict items) -> dict_mem key items = false.

(** The fuel [remove_key] needs on [v]. *)
Definition fuel_for (rk : loc -> nat) (v : val) : nat :=
  match v with
  | VRef l => S (S (rk l))
  | _ => 1
  end.

(** The items other than those under [key]. *)
Definition without (key : string) (items : list (string * val)) : list (string * val) :=
  filter (fun kv => kv.1 <> key) items.

(** [h'] is [h] with the key deleted from some dictionaries. *)
Definition pruned (key : string) (h h' : heap) : Prop :=
  forall l, h' !! l = h !! l \/
            exists items, h !! l = Some (ODict items) /\
                          h' !! l = Some (ODict (without key items)).

(** What a run of [remove_key] on [var] from [s] to [s'] achieves. *)
Definition removed (key : string) (s : state) (var : val) (s' : state) : Prop :=
  st_out s' = st_out s /\
  pruned key (st_heap s) (st_heap s') /\
  (forall l, ~ inside (st_heap s) var l -> st_heap s' !! l = st_heap s !! l) /\
  key_free key (st_heap s') var.

Definition remove_key_ok (rk : loc -> nat) (key : string) (n : nat) : Prop :=
  forall var s,
    nested rk (st_heap s) -> keys_unique (st_heap s) -> fuel_for rk var <= n ->
    exists s', remove_key n key var s = Done () s' /\ removed key s var s'.

(** Checks that decide [nested] for the rank that is the location itself,
    and [keys_unique], on a concrete heap. *)
Fixpoint nested_from (l : nat) (h : heap) : bool :=
  match h with
  | [] => true
  | o :: h' =>
      forallb (fun v => match v with VRef l' => (l' <? l)%nat | _ => true end) (children o)
      && nested_from (S l) h'
  end.

Definition keys_unique_check (h : heap) : bool :=
  forallb (fun o => match o with
                    | ODict items => bool_decide (NoDup (map fst items))
                    | _ => true
                    end) h.

(** [{'a': 1, 'b': {'c': 2, 'd': {'c': 3}}, 'e': [{'c': 4}]}], the root at 4. *)
Definition remove_key_heap : heap :=
  [ODict [("c", VInt 3)]; ODict [("c", VInt 2); ("d", VRef 0)]; ODict [("c", VInt 4)];
   OList [VRef 2]; ODict [("a", VInt 1); ("b", VRef 1); ("e", VRef 3)]].

(** [reach h v l]: the object at [l] can be reached from [v] through any
    number of references. *)
Inductive reach (h : heap) : val -> loc -> Prop :=
| reach_here l : reach h (VRef l) l
| reach_step l o v l' :
    h !! l = Some o -> v ∈ children o -> reach h v l' -> reach h (VRef l) l'.

(** The frame of a call.  [h0] is the heap when the call starts and [W] a
    region of it, the objects the call may write to.  The call only handles
    references into [W] or to objects allocated since it started. *)
Definition owned (h0 : heap) (W : loc -> Prop) (l : loc) : Prop :=
  W l \/ length h0 <= l.

Definition vowned (h0 : heap) (W : loc -> Prop) (v : val) : Prop :=
  match v with
  | VRef l => owned h0 W l
  | _ => True
  end.

(** The invariant of the heap during the call: the objects outside [W] are
    as they were, and an owned object holds owned values only. *)
Definition inv (h0 : heap) (W : loc -> Prop) (h : heap) : Prop :=
  length h0 <= length h /\
  (forall l o, h0 !! l = Some o -> ~ W l -> h !! l = Some o) /\
  (forall l o, owned h0 W l -> h !! l = Some o -> Forall (vowned h0 W) (children o)).

(** [safe h0 W m Q]: from a state that satisfies the invariant, [m] ends in
    one that does, with a result that satisfies [Q]. *)
Definition safe (h0 : heap) (W : loc -> Prop) {A} (m : M A) (Q : A -> Prop) : Prop :=
  forall s, inv h0 W (st_heap s) ->
            match m s with
            | Done a s' => inv h0 W (st_heap s') /\ Q a
            | Failed _ s' => inv h0 W (st_heap s')
            | Aborted => True
            end.

(** The memo of the deep copy sends copied objects to owned ones. *)
Definition memo_ok (h0 : heap) (W : loc -> Prop) (m : memo) : Prop :=
  forall l y, m !! l = Some y -> owned h0 W y.

(** The target [t = {'a': {'b': 0}, 'x': 0}] at 1 and the source
    [{'w1': {'sim_name': ['x'], 'value': t['a']},
      'w2': {'sim_name': ['x', 'b'], 'value': 5}}] at 6: the value of [w1] is
    the very dictionary [t['a']]. *)
Definition shared_heap : heap :=
  [ODict [("b", VInt 0)]; ODict [("a", VRef 0); ("x", VInt 0)];
   OList [VStr "x"]; ODict [("sim_name", VRef 2); ("value", VRef 0)];
   OList [VStr "x"; VStr "b"]; ODict [("sim_name", VRef 4); ("value", VInt 5)];
   ODict [("w1", VRef 3); ("w2", VRef 5)]].

(** A check that a concrete heap falls into two parts, below and from [k],
    with no reference from one part to the other. *)
Fixpoint split_from (k l : nat) (h : heap) : bool :=
  match h with
  | [] => true
  | o :: h' =>
      forallb (fun v => match v with
                        | VRef l' => Bool.eqb (l <? k)%nat (l' <? k)%nat
                        | _ => true
                        end) (children o)
      && split_from k (S l) h'
  end.

(** The source
    [{'w1': {'sim_name': ['x'], 'value': {'k': 0}},
      'w2': {'sim_name': ['x', 'k'], 'value': 5}}] at 5, with its value
    [{'k': 0}] at 1, and the target [{'x': 0}] at 6; they share nothing. *)
Definition written_source_heap : heap :=
  [OList [VStr "x"]; ODict [("k", VInt 0)];
   ODict [("sim_name", VRef 0); ("value", VRef 1)];
   OList [VStr "x"; VStr "k"]; ODict [("sim_name", VRef 3); ("value", VInt 5)];
   ODict [("w1", VRef 2); ("w2", VRef 4)]; ODict [("x", VInt 0)]].

(** Scenario A in the heap: the source at 2, the target at 4. *)
Definition scenario_A_heap : heap :=
  [OList [VStr "a"; VStr "b"]; ODict [("sim_name", VRef 0); ("value", VInt 5)];
   ODict [("w1", VRef 1)]; ODict [("b", VInt 0)]; ODict [("a", VRef 3)]].

(** No dictionary inside [var] has a tuple as one of its values. *)
Definition no_tuple_values (h : heap) (var : val) : Prop :=
  forall l items v,
    inside h var l -> h !! l = Some (ODict items) -> v ∈ map snd items ->
    is_tuple h v = false.

(** [{'a': [10, 20, 30]}] (the list at 0, the root at 1) with the paths
    [['a', 1]] at 2 and [['a', 10]] at 3; [{'a': [-1, 20]}] (the list at 4,
    the root at 5) with the path [['a', -1]] at 6. *)
Definition list_parent_heap : heap :=
  [OList [VInt 10; VInt 20; VInt 30]; ODict [("a", VRef 0)];
   OList [VStr "a"; VInt 1]; OList [VStr "a"; VInt 10];
   OList [VInt (-1); VInt 20]; ODict [("a", VRef 4)]; OList [VStr "a"; VInt (-1)]].

(** Two objects have the same shape: dictionaries, the same keys in the same
    order; lists, the same length; a tuple or an instance is unchanged. *)
Definition same_shape (o o' : obj) : Prop :=
  match o, o' with
  | ODict a, ODict b => map fst a = map fst b
  | OList a, OList b => length a = length b
  | _, _ => o = o'
  end.

(** Every object of [h] is still in [h'], with its shape. *)
Definition shape_kept (h h' : heap) : Prop :=
  forall l o, h !! l = Some o -> exists o', h' !! l = Some o' /\ same_shape o o'.

(** No object has gone. *)
Definition grown (h h' : heap) : Prop := length h <= length h'.

(** [keeps R m]: however [m] ends, the heap it leaves is related by [R] to
    the heap it found. *)
Definition keeps (R : heap -> heap -> Prop) {A} (m : M A) : Prop :=
  forall s, match m s with
            | Done _ s' | Failed _ s' => R (st_heap s) (st_heap s')
            | Aborted => True
            end.

(** The path [['zz']] at 0, declared by the single-path element
    [{'sim_name': ['zz'], 'value': 5}] at 1 and by the multi-path element
    [{'sim_name': [['zz']], 'value': [5]}] at 4, against [{'x': 0}] at 5. *)
Definition missing_target_heap : heap :=
  [OList [VStr "zz"]; ODict [("sim_name", VRef 0); ("value", VInt 5)];
   OList [VRef 0]; OList [VInt 5]; ODict [("sim_name", VRef 2); ("value", VRef 3)];
   ODict [("x", VInt 0)]].

(** The values the plain paths of a multi-path element receive, path by
    path: [values[i]] when there are as many values as paths, [values[0]] for
    every path otherwise (lines 226-229 and 252-253). *)
Definition paired_values (n : nat) (values : list val) : list val :=
  if decide (n = length values) then values else replicate n (hd VNone values).

(** Scenario B in the heap, [{'w1': {'sim_name': [['x'], ['y']], 'value': [1, 2]}}]
    against [{'x': 0, 'y': 0}]: the element at 4, the dictionary written to
    at 5; at 7, the same element with the three values [[7, 8, 9]]. *)
Definition scenario_B_heap : heap :=
  [OList [VStr "x"]; OList [VStr "y"]; OList [VRef 0; VRef 1]; OList [VInt 1; VInt 2];
   ODict [("sim_name", VRef 2); ("value", VRef 3)];
   ODict [("x", VInt 0); ("y", VInt 0)];
   OList [VInt 7; VInt 8; VInt 9];
   ODict [("sim_name", VRef 2); ("value", VRef 6)]].

(** What a call of [gen_dict_extract] on [var] that returns [rs] has found,
    when no dictionary inside [var] has a tuple as a value: every dictionary
    inside [var] that has the key. *)
Definition extract_found (key : string) (h : heap) (var : val) (rs : list val) : Prop :=
  no_tuple_values h var ->
  forall l items,
    inside h var l -> h !! l = Some (ODict items) -> dict_mem key items = true ->
    VRef l ∈ rs.

(** What the loop over the paths of a multi-path element relies on in the
    heap as it is when a turn starts: [sim_names] at [ps] lists the paths
    [pls], each a list of one key; the values [vs] are a list at [g]; the
    dictionary written to, at [c], has all the keys. *)
Definition flat_ready (ps g c : loc) (pls : list loc) (ks : list string) (vs : list val)
           (h : heap) (it : list (string * val)) : Prop :=
  h !! ps = Some (OList (map VRef pls)) /\
  Forall2 (fun pl k => h !! pl = Some (OList [VStr k])) pls ks /\
  h !! g = Some (OList vs) /\
  h !! c = Some (ODict it) /\
  Forall (fun k => dict_mem k it = true) ks.

(** One change of the heap while values are transferred into the copy [c]:
    a new object is allocated, or an object that can be reached from [c], as
    the heap is at that moment, is replaced by one of the same shape. *)
Inductive transfer_step (c : val) (h : heap) : heap -> Prop :=
| transfer_alloc o : transfer_step c h (h ++ [o])
| transfer_write l o o' :
    reach h c l -> h !! l = Some o -> same_shape o o' ->
    transfer_step c h (<[l := o']> h).

(** [transferred h0 c h']: the heap [h'] comes from [h0] by a deep copy,
    which leaves the objects of [h0] as they are and makes [c], from which
    only new objects can be reached, followed by changes of the above kind. *)
Definition transferred (h0 : heap) (c : val) (h' : heap) : Prop :=
  exists h1,
    (forall l o, h0 !! l = Some o -> h1 !! l = Some o) /\
    (forall l, reach h1 c l -> length h0 <= l) /\
    rtc (transfer_step c) h1 h'.

(** A check that decides it for every dictionary of a concrete heap. *)
Definition no_tuple_values_check (h : heap) : bool :=
  forallb (fun o => match o with
                    | ODict items => forallb (fun v => negb (is_tuple h v)) (map snd items)
                    | _ => true
                    end) h.

(** * Properties *)

#[global] Arguments py_getitem : simpl never.
#[global] Arguments py_contains : simpl never.
#[global] Arguments py_setitem : simpl never.
#[global] Arguments py_len : simpl never.
#[global] Arguments py_eq : simpl never.
#[global] Arguments hashable : simpl never.

(** ** The monad *)

Lemma bind_done {A B} (m : M A) (f : A -> M B) s a s' :
  m s = Done a s' -> (m ≫= f) s = f a s'.
Proof. intros H. unfold mbind, M_bind. by rewrite H. Qed.

Lemma bind_failed {A B} (m : M A) (f : A -> M B) s e s' :
  m s = Failed e s' -> (m ≫= f) s = Failed e s'.
Proof. intros H. unfold mbind, M_bind. by rewrite H. Qed.

Lemma query_ok {A} (f : heap -> outcome A) s a :
  f (st_heap s) = Ok a -> query f s = Done a s.
Proof. intros H. unfold query. by rewrite H. Qed.

Lemma query_raise {A} (f : heap -> outcome A) s e :
  f (st_heap s) = Raise e -> query f s = Failed e s.
Proof. intros H. unfold query. by rewrite H. Qed.

Lemma for_fold_app {S A} (body : S -> A -> M S) a xs ys s :
  for_fold body a (xs ++ ys) s =
  (a1 ← for_fold body a xs; for_fold body a1 ys) s.
Proof.
  revert a s. induction xs as [|x xs IH]; intros a s; simpl; [done|].
  unfold mbind, M_bind in *. destruct (body a x s) as [a1 s1| |]; [|done..].
  apply IH.
Qed.

(** Unfolds the plumbing of the monad. *)
Ltac munfold :=
  unfold getitem, contains, setitem, len, isinstance, store, print, new, new_loc,
    raise, abort, update, query, mbind, M_bind, mret, M_ret in *.

(** ** Scenario A (C5) *)

(** C5: on [source = {'w1': {'sim_name': ['a','b'], 'value': 5}}] and
    [target = {'a': {'b': 0}}], [dict_transfer] returns
    [({'a': {'b': 5}}, [['a','b']])]: the value of the single-path element
    is written at the declared path and the path is recorded.  Nothing is
    printed and the target passed in still reads [{'a': {'b': 0}}]. *)
Theorem scenario_A_result :
  run_dict_transfer 10 scenario_A_source scenario_A_target =
  Ok (Observed (Some (TDict [("a", TDict [("b", TInt 5)])]))
               (Some [TList [TStr "a"; TStr "b"]])
               (Some (TDict [("a", TDict [("b", TInt 0)])]))
               (Some [])).
Proof. vm_compute. reflexivity. Qed.

(** ** [ensure_list] (C9) *)

Lemma ensure_list_wrap s v n :
  is_list (st_heap s) v = false -> is_tuple (st_heap s) v = false ->
  ensure_list v n s =
  Done (VRef (length (st_heap s)))
       (State (st_heap s ++ [OList (replicate (Z.to_nat n) v)]) (st_out s)).
Proof. intros Hl Ht. unfold ensure_list. munfold. by rewrite Hl, Ht. Qed.

Lemma ensure_list_keep s v n :
  is_list (st_heap s) v = true \/ is_tuple (st_heap s) v = true ->
  ensure_list v n s = Done v s.
Proof.
  intros H. unfold ensure_list. munfold.
  destruct H as [-> | ->]; [done|]. by rewrite orb_true_r.
Qed.

(** C9: for a value [v] that is not a list or tuple (a scalar) and a
    positive [n], [ensure_list(v, n)] returns a new list of length [n] all of
    whose elements are [v], and changes no existing object; a value that is
    already a list or tuple is returned as it is, in an unchanged state. *)
Theorem ensure_list_spec (s : state) (v : val) (n : Z) :
  (is_list (st_heap s) v = false -> is_tuple (st_heap s) v = false -> (0 < n)%Z ->
   exists l xs s',
     ensure_list v n s = Done (VRef l) s' /\
     st_heap s' = st_heap s ++ [OList xs] /\ l = length (st_heap s) /\
     st_heap s' !! l = Some (OList xs) /\
     py_len (st_heap s') (VRef l) = Ok n /\
     Forall (fun x => x = v) xs) /\
  (is_list (st_heap s) v = true \/ is_tuple (st_heap s) v = true ->
   ensure_list v n s = Done v s).
Proof.
  split.
  - intros Hl Ht Hn. eexists _, _, _. split; [by apply ensure_list_wrap|].
    simpl. repeat split.
    + by rewrite lookup_app_r, Nat.sub_diag.
    + unfold py_len. rewrite lookup_app_r, Nat.sub_diag by done. simpl.
      rewrite length_replicate. f_equal. lia.
    + apply Forall_forall. intros x Hx. by apply elem_of_replicate in Hx as [-> _].
  - apply ensure_list_keep.
Qed.

Lemma ensure_list_spec_witness :
  exists l xs s',
    ensure_list (VInt 7) 3 (State [] []) = Done (VRef l) s' /\
    st_heap s' = [] ++ [OList xs] /\ l = 0 /\
    st_heap s' !! l = Some (OList xs) /\
    py_len (st_heap s') (VRef l) = Ok 3%Z /\
    Forall (fun x => x = VInt 7) xs.
Proof.
  apply (proj1 (ensure_list_spec (State [] []) (VInt 7) 3)); [reflexivity | reflexivity | lia].
Defined.

(** ** [set_dict_entry] with an absent final key (C3) *)

Lemma py_contains_dict_str fuel h l items k :
  h !! l = Some (ODict items) ->
  py_contains fuel h (VStr k) (VRef l) = Ok (dict_mem k items).
Proof. intros H. unfold py_contains. by rewrite H. Qed.

Lemma py_contains_dict_true fuel h l items k :
  h !! l = Some (ODict items) -> py_contains fuel h k (VRef l) = Ok true ->
  exists s, k = VStr s /\ dict_mem s items = true.
Proof.
  intros H. unfold py_contains. rewrite H. destruct k as [|z|s|r].
  - by destruct (hashable fuel h VNone) as [[]| |].
  - by destruct (hashable fuel h (VInt z)) as [[]| |].
  - intros [= Hm]. by exists s.
  - by destruct (hashable fuel h (VRef r)) as [[]| |].
Qed.

Lemma py_getitem_dict_str fuel h l items k :
  h !! l = Some (ODict items) ->
  py_getitem fuel h (VRef l) (VStr k) =
  match dict_get k items with Some v => Ok v | None => Raise KeyError end.
Proof. intros H. unfold py_getitem. by rewrite H. Qed.

(** C3: when the prefix of the path resolves to a dictionary that lacks the
    final key, [set_dict_entry] in strict mode raises the [NameError] that
    names the key list and leaves the state as it was; in any other mode
    (moderate is the default) it does not raise, prints the diagnostic naming
    the key list, creates no key - the heap is unchanged - and returns the
    dictionary it was given. *)
Theorem set_dict_entry_absent_key
        (fuel : nat) (value key_list target_dict : val) (s : state)
        (l : loc) (items : list (string * val)) (k : string) :
  is_dict (st_heap s) target_dict = true ->
  walk_prefix fuel (st_heap s) key_list target_dict = Ok (VRef l) ->
  st_heap s !! l = Some (ODict items) ->
  py_getitem fuel (st_heap s) key_list (VInt (-1)) = Ok (VStr k) ->
  dict_mem k items = false ->
  set_dict_entry fuel value key_list target_dict "strict" s
  = Failed (NameError key_list) s /\
  forall mode, mode <> "strict" ->
    set_dict_entry fuel value key_list target_dict mode s
    = Done target_dict (State (st_heap s) (st_out s ++ [key_list])).
Proof.
  intros Hd Hw Hl Hk Hm.
  assert (Hc : py_contains fuel (st_heap s) (VStr k) (VRef l) = Ok false)
    by (by rewrite (py_contains_dict_str _ _ _ items), Hm).
  split.
  - unfold set_dict_entry. munfold. by rewrite Hd, Hw, Hk, Hc.
  - intros mode Hmode. unfold set_dict_entry. munfold.
    rewrite Hd, Hw, Hk, Hc.
    destruct (String.eqb_spec mode "strict") as [->|_]; [done|]. done.
Qed.

Lemma set_dict_entry_absent_key_witness :
  set_dict_entry 1 (VInt 5) (VRef 2) (VRef 0) "strict" (State absent_key_heap [])
  = Failed (NameError (VRef 2)) (State absent_key_heap []) /\
  forall mode, mode <> "strict" ->
    set_dict_entry 1 (VInt 5) (VRef 2) (VRef 0) mode (State absent_key_heap [])
    = Done (VRef 0) (State absent_key_heap ([] ++ [VRef 2])).
Proof.
  apply (set_dict_entry_absent_key 1 (VInt 5) (VRef 2) (VRef 0)
           (State absent_key_heap []) 1 [("b", VInt 0)] "zz");
    reflexivity.
Defined.

(** ** A missing value key (C10) *)

Lemma ensure_list_inv v n s r s' :
  ensure_list v n s = Done r s' ->
  st_out s' = st_out s /\
  (st_heap s' = st_heap s \/ exists o, st_heap s' = st_heap s ++ [o]).
Proof.
  unfold ensure_list. munfold.
  destruct (is_list (st_heap s) v || is_tuple (st_heap s) v); intros [= <- <-]; simpl.
  - split; [done|]. by left.
  - split; [done|]. right. by eexists.
Qed.

Lemma ensure_list_keeps_objects v n s r s' l o :
  ensure_list v n s = Done r s' ->
  st_heap s !! l = Some o -> st_heap s' !! l = Some o.
Proof.
  intros H Hl. apply ensure_list_inv in H as [_ [-> | [o' ->]]]; [done|].
  by apply lookup_app_l_Some.
Qed.

(** C10: let an extracted entry lack the value key when its turn comes.  If
    the first declared name is a list (the multi-path case), the lookup of
    line 223 raises [KeyError] and the whole call ends with it.  Otherwise
    (the single-path case) the entry is processed without error: its path is
    appended to the record, nothing is written - the objects of the heap stay
    as they were and nothing is printed - and the call goes on with the
    remaining entries. *)
Theorem missing_value_key_asymmetry
        (fuel : nat) (target_name_key value_key : string)
        (source target copy : val) (s0 s1 s2 s3 : state)
        (before after names : list val)
        (l : loc) (items : list (string * val)) (sim_names sn first : val) :
  deepcopy fuel target s0 = Done copy s1 ->
  gen_dict_extract fuel target_name_key (st_heap s1) source
  = Ok (before ++ VRef l :: after) ->
  for_fold (transfer_entry fuel target_name_key value_key copy) [] before s1
  = Done names s2 ->
  st_heap s2 !! l = Some (ODict items) ->
  dict_get target_name_key items = Some sim_names ->
  dict_get value_key items = None ->
  ensure_list sim_names 1 s2 = Done sn s3 ->
  py_getitem fuel (st_heap s3) sn (VInt 0) = Ok first ->
  (is_list (st_heap s3) first = true ->
   dict_transfer fuel source target target_name_key value_key s0
   = Failed KeyError s3) /\
  (is_list (st_heap s3) first = false ->
   transfer_entry fuel target_name_key value_key copy names (VRef l) s2
   = Done (names ++ [sn]) s3 /\
   (forall l' o, st_heap s2 !! l' = Some o -> st_heap s3 !! l' = Some o) /\
   st_out s3 = st_out s2 /\
   dict_transfer fuel source target target_name_key value_key s0
   = (names' ← for_fold (transfer_entry fuel target_name_key value_key copy)
                        (names ++ [sn]) after;
      mret (copy, names')) s3).
Proof.
  intros Hcopy Hext Hbefore Hl Hname Hvalue Hens Hfirst.
  assert (Hl3 : st_heap s3 !! l = Some (ODict items))
    by eauto using ensure_list_keeps_objects.
  assert (Hget : getitem fuel (VRef l) (VStr target_name_key) s2 = Done sim_names s2).
  { apply query_ok. by rewrite (py_getitem_dict_str _ _ _ items), Hname. }
  assert (Hfst : getitem fuel sn (VInt 0) s3 = Done first s3) by by apply query_ok.
  assert (Hstart :
             dict_transfer fuel source target target_name_key value_key s0
             = (ns ← for_fold (transfer_entry fuel target_name_key value_key copy)
                              names (VRef l :: after);
                mret (copy, ns)) s2).
  { unfold dict_transfer.
    rewrite (bind_done _ _ _ _ _ Hcopy).
    rewrite (bind_done _ _ _ _ _ (query_ok _ _ _ Hext)).
    unfold mbind, M_bind. rewrite for_fold_app.
    unfold mbind, M_bind. by rewrite Hbefore. }
  split.
  - intros Hmulti.
    assert (Hentry : transfer_entry fuel target_name_key value_key copy names (VRef l) s2
                     = Failed KeyError s3).
    { unfold transfer_entry.
      rewrite (bind_done _ _ _ _ _ Hget), (bind_done _ _ _ _ _ Hens),
        (bind_done _ _ _ _ _ Hfst).
      munfold. rewrite Hmulti. by rewrite (py_getitem_dict_str _ _ _ items), Hvalue. }
    rewrite Hstart. simpl. unfold mbind, M_bind. by rewrite Hentry.
  - intros Hsingle.
    assert (Hentry : transfer_entry fuel target_name_key value_key copy names (VRef l) s2
                     = Done (names ++ [sn]) s3).
    { unfold transfer_entry.
      rewrite (bind_done _ _ _ _ _ Hget), (bind_done _ _ _ _ _ Hens),
        (bind_done _ _ _ _ _ Hfst).
      munfold. rewrite Hsingle.
      rewrite (py_contains_dict_str _ _ _ items) by done.
      unfold dict_mem. by rewrite Hvalue. }
    split; [done|]. split; [eauto using ensure_list_keeps_objects|].
    split; [by apply ensure_list_inv in Hens as [? _]|].
    rewrite Hstart. simpl. unfold mbind, M_bind. by rewrite Hentry.
Qed.

Lemma missing_value_key_asymmetry_witness :
  dict_transfer 5 (VRef 3) (VRef 4) "sim_name" "value" (State multi_no_value_heap [])
  = Failed KeyError (State (multi_no_value_heap ++ [ODict [("x", VInt 0)]]) []) /\
  transfer_entry 5 "sim_name" "value" (VRef 5) [] (VRef 1)
    (State (single_no_value_heap ++ [ODict [("a", VRef 6)]; ODict [("b", VInt 0)]]) [])
  = Done ([] ++ [VRef 0])
      (State (single_no_value_heap ++ [ODict [("a", VRef 6)]; ODict [("b", VInt 0)]]) []).
Proof.
  split.
  - apply (proj1 (missing_value_key_asymmetry 5 "sim_name" "value" (VRef 3) (VRef 4) (VRef 5)
                    (State multi_no_value_heap [])
                    (State (multi_no_value_heap ++ [ODict [("x", VInt 0)]]) [])
                    (State (multi_no_value_heap ++ [ODict [("x", VInt 0)]]) [])
                    (State (multi_no_value_heap ++ [ODict [("x", VInt 0)]]) [])
                    [] [] [] 2 [("sim_name", VRef 1)] (VRef 1) (VRef 1) (VRef 0)
                    eq_refl eq_refl eq_refl eq_refl eq_refl eq_refl eq_refl eq_refl)).
    reflexivity.
  - apply (proj2 (missing_value_key_asymmetry 5 "sim_name" "value" (VRef 2) (VRef 4) (VRef 5)
                    (State single_no_value_heap [])
                    (State (single_no_value_heap
                              ++ [ODict [("a", VRef 6)]; ODict [("b", VInt 0)]]) [])
                    (State (single_no_value_heap
                              ++ [ODict [("a", VRef 6)]; ODict [("b", VInt 0)]]) [])
                    (State (single_no_value_heap
                              ++ [ODict [("a", VRef 6)]; ODict [("b", VInt 0)]]) [])
                    [] [] [] 1 [("sim_name", VRef 0)] (VRef 0) (VRef 0) (VStr "a")
                    eq_refl eq_refl eq_refl eq_refl eq_refl eq_refl eq_refl eq_refl)).
    reflexivity.
Defined.

(** ** Fan-out paths (C6) *)

Lemma seq_get_minus_one {A} (xs : list A) (d : A) :
  xs <> [] -> seq_get xs (-1) = Some (List.last xs d).
Proof.
  intros Hne. unfold seq_get, norm_index.
  destruct (decide (length xs = 0)) as [H0|H0].
  { destruct xs; [done|discriminate]. }
  replace (-1 <? 0)%Z with true by done.
  replace ((0 <=? -1 + Z.of_nat (length xs)) && (-1 + Z.of_nat (length xs) <? Z.of_nat (length xs)))%Z
    with true by (symmetry; apply andb_true_iff; split; [apply Z.leb_le|apply Z.ltb_lt]; lia).
  replace (Z.to_nat (-1 + Z.of_nat (length xs))) with (pred (length xs)) by lia.
  clear H0. induction xs as [|x [|y xs] IH]; [done|done|].
  specialize (IH ltac:(done)). simpl in *. exact IH.
Qed.

Lemma last_default {A} (xs : list A) (d : A) :
  xs <> [] -> last xs = Some (List.last xs d).
Proof.
  induction xs as [|x [|y xs] IH]; intros Hne; [done|done|].
  change (last (y :: xs) = Some (List.last (y :: xs) d)). by apply IH.
Qed.

Lemma seq_get_last_option {A} (xs : list A) : seq_get xs (-1) = last xs.
Proof.
  destruct xs as [|x xs]; [done|].
  by rewrite (seq_get_minus_one _ x), (last_default _ x).
Qed.

Lemma pure_value_box h b w : h !! b = Some (OBox w) -> pure_value h (VRef b) = w.
Proof. intros H. unfold pure_value. simpl. by rewrite H. Qed.

Lemma pure_value_plain h v :
  (forall b w, v = VRef b -> h !! b <> Some (OBox w)) -> pure_value h v = v.
Proof.
  intros H. unfold pure_value. destruct v as [| | |b]; try done. simpl.
  destruct (h !! b) as [[items|xs|xs|w]|] eqn:E; try done. by destruct (H b w).
Qed.

Lemma pure_value_alloc h o v :
  (forall w, o <> OBox w) -> pure_value (h ++ [o]) v = pure_value h v.
Proof.
  intros Ho. unfold pure_value. destruct v as [| | |l]; try done. simpl.
  destruct (decide (l < length h)) as [Hlt|Hge].
  - by rewrite lookup_app_l.
  - rewrite (lookup_ge_None_2 h) by lia.
    destruct (decide (l = length h)) as [->|Hne].
    + rewrite lookup_app_r, Nat.sub_diag by done. simpl.
      destruct o; try done. by destruct (Ho v).
    + rewrite lookup_ge_None_2; [done|]. rewrite length_app. simpl. lia.
Qed.

Lemma py_getitem_seq fuel h g c vs j :
  is_seq_ctor c -> h !! g = Some (c vs) ->
  py_getitem fuel h (VRef g) (VInt j) =
  match seq_get vs j with Some v => Ok v | None => Raise IndexError end.
Proof. intros [-> | ->] H; unfold py_getitem; by rewrite H. Qed.

Lemma fan_out_values_spec fuel h g c vs il js :
  is_seq_ctor c -> h !! g = Some (c vs) -> vs <> [] ->
  h !! il = Some (OList (map VInt js)) ->
  fan_out_values fuel h (VRef g) (VRef il)
  = Ok (map (fun j => pure_value h (value_at vs j)) js).
Proof.
  intros Hc Hg Hne Hil. unfold fan_out_values, elements. simpl. rewrite Hil.
  clear Hil. induction js as [|j js IH]; [done|]. simpl.
  rewrite IH. rewrite (py_getitem_seq _ _ _ c vs) by done.
  unfold value_at.
  destruct (seq_get vs j) as [v|] eqn:Hj; simpl; [done|].
  rewrite (py_getitem_seq _ _ _ c vs) by done.
  by rewrite (seq_get_minus_one vs VNone) by done.
Qed.

Lemma getitem_ok fuel c k s v :
  py_getitem fuel (st_heap s) c k = Ok v -> getitem fuel c k s = Done v s.
Proof. intros H. unfold getitem, query. by rewrite H. Qed.

Lemma getitem_raise fuel c k s e :
  py_getitem fuel (st_heap s) c k = Raise e -> getitem fuel c k s = Failed e s.
Proof. intros H. unfold getitem, query. by rewrite H. Qed.

Lemma slice_init_seq s pl c ps :
  is_seq_ctor c -> st_heap s !! pl = Some (c ps) ->
  slice_init (VRef pl) s
  = Done (VRef (length (st_heap s)))
         (State (st_heap s ++ [c (removelast ps)]) (st_out s)).
Proof.
  intros [-> | ->] H; unfold slice_init; munfold; simpl; by rewrite H.
Qed.

(** C6, as the code has it: one turn of the loop of lines 232-255 on a
    fan-out path.  The path [p = sim_names[i]] is a list or tuple whose last
    component is a list of integers [js]; [gui_values] is a list or tuple
    [vs] that is not empty.  Then the turn builds two new objects, [p[:-1]]
    and the list [written], whose element for each [j] of [js], in order, is
    [vs[j]], or [vs[-1]] when [j] is out of range, each with its [.value]
    unwrapped: an instance gives its [.value], anything else is taken as it
    is.  The turn hands [written] to [set_dict_entry] for the path [p[:-1]]
    in moderate mode and records [p[:-1]].  No [IndexError] arises.  On the
    input of Scenario C the call returns [({'x': [10, 30]}, [['x']])]. *)
Theorem fan_out_written_list
        (fuel : nat) (s : state) (sim_names : val) (multi_variable : bool)
        (a : locals) (i : Z) (pl il g : loc) (cp cv : list val -> obj)
        (ps vs : list val) (js : list Z) :
  py_getitem fuel (st_heap s) sim_names (VInt i) = Ok (VRef pl) ->
  is_seq_ctor cp -> st_heap s !! pl = Some (cp ps) ->
  last ps = Some (VRef il) ->
  st_heap s !! il = Some (OList (map VInt js)) ->
  is_seq_ctor cv -> st_heap s !! g = Some (cv vs) -> vs <> [] ->
  (transfer_path fuel sim_names (VRef g) multi_variable a i s
   = (sub ← set_dict_entry fuel (VRef (S (length (st_heap s))))
                           (VRef (length (st_heap s))) (sub_dict a) "moderate";
      mret (Locals sub (name_lists a ++ [VRef (length (st_heap s))])))
       (State (st_heap s
                 ++ [cp (removelast ps);
                     OList (map (fun j => pure_value (st_heap s) (value_at vs j)) js)])
              (st_out s))) /\
  (forall j v, seq_get vs j = Some v -> value_at vs j = v) /\
  (forall j, seq_get vs j = None -> seq_get vs (-1) = Some (value_at vs j)) /\
  (forall b w, st_heap s !! b = Some (OBox w) -> pure_value (st_heap s) (VRef b) = w) /\
  (forall v, (forall b w, v = VRef b -> st_heap s !! b <> Some (OBox w)) ->
             pure_value (st_heap s) v = v) /\
  run_dict_transfer 10 scenario_C_source scenario_C_target
  = Ok (Observed (Some (TDict [("x", TList [TInt 10; TInt 30])]))
                 (Some [TList [TStr "x"]])
                 (Some (TDict [("x", TList [])]))
                 (Some [])).
Proof.
  intros Hp Hcp Hpl Hlast Hil Hcv Hg Hne.
  split; [|split; [|split; [|split; [|split]]]];
    [| | |apply pure_value_box|apply pure_value_plain|].
  - unfold transfer_path.
    rewrite (bind_done _ _ _ _ _ (getitem_ok _ _ _ _ _ Hp)).
    assert (Hl : py_getitem fuel (st_heap s) (VRef pl) (VInt (-1)) = Ok (VRef il)).
    { rewrite (py_getitem_seq _ _ _ cp ps) by done.
      by rewrite seq_get_last_option, Hlast. }
    rewrite (bind_done _ _ _ _ _ (getitem_ok _ _ _ _ _ Hl)).
    assert (Hfan : isinstance is_list (VRef il) s = Done true s).
    { unfold isinstance, query, is_list. simpl. by rewrite Hil. }
    rewrite (bind_done _ _ _ _ _ Hfan).
    rewrite (bind_done _ _ _ _ _ (slice_init_seq _ _ _ _ Hcp Hpl)).
    assert (Hnb : forall w, cp (removelast ps) <> OBox w)
      by (by destruct Hcp as [-> | ->]).
    assert (Hvals :
              fan_out_values fuel (st_heap s ++ [cp (removelast ps)]) (VRef g) (VRef il)
              = Ok (map (fun j => pure_value (st_heap s) (value_at vs j)) js)).
    { rewrite (fan_out_values_spec _ _ _ cv vs _ js); try done.
      - f_equal. apply map_ext. intros j. by apply pure_value_alloc.
      - by apply lookup_app_l_Some.
      - by apply lookup_app_l_Some. }
    erewrite bind_done; [|apply query_ok; simpl; exact Hvals].
    unfold new at 1, new_loc at 1. unfold mbind at 1 2, M_bind at 1 2, mret at 1, M_ret at 1.
    simpl. rewrite length_app. simpl. rewrite Nat.add_1_r.
    by rewrite <- app_assoc.
  - intros j v Hj. unfold value_at. by rewrite Hj.
  - intros j Hj. unfold value_at. rewrite Hj. by apply seq_get_minus_one.
  - vm_compute. reflexivity.
Qed.

Lemma fan_out_written_list_witness :
  transfer_path 5 (VRef 2) (VRef 5) true (Locals (VRef 6) []) 0
                (State fan_out_boxed_heap [])
  = Done (Locals (VRef 6) [VRef 8])
         (State [OList [VInt 0; VInt 5]; OList [VStr "x"; VRef 0]; OList [VRef 1];
                 OBox (VInt 10); OBox (VInt 30); OList [VRef 3; VInt 20; VRef 4];
                 ODict [("x", VRef 9)]; OList [];
                 OList [VStr "x"]; OList [VInt 10; VInt 30]] []).
Proof.
  refine (eq_trans
            (proj1 (fan_out_written_list 5 (State fan_out_boxed_heap []) (VRef 2) true
                      (Locals (VRef 6) []) 0 1 0 5 OList OList
                      [VStr "x"; VRef 0] [VRef 3; VInt 20; VRef 4] [0; 5]%Z
                      eq_refl (or_introl eq_refl) eq_refl eq_refl eq_refl
                      (or_introl eq_refl) eq_refl _))
            eq_refl).
  discriminate.
Defined.

(** C6 as stated fails: with no value at all there is no last value to fall
    back to.  On [{'w1': {'sim_name': [['x', [0]]], 'value': []}}] against
    [{'x': 0}] the index 0 is out of range, the fallback of line 241 raises
    [IndexError] itself, and the call ends with it. *)
Lemma fan_out_empty_values :
  run_dict_transfer 10
    (TDict [("w1", TDict [("sim_name", TList [TList [TStr "x"; TList [TInt 0]]]);
                          ("value", TList [])])])
    (TDict [("x", TInt 0)])
  = Raise IndexError.
Proof. vm_compute. reflexivity. Qed.

(** ** The record of updated paths (C2) *)

(** C2, evaluated: the record names paths that were not written.  On
    [{'w1': {'sim_name': [['zz']], 'value': [1]}}] against [{'x': 0}] the
    moderate-mode write finds no key ['zz'], prints the diagnostic and skips,
    and the record returned is [[['zz']]]; on
    [{'w1': {'sim_name': ['a','b']}}] against [{'a': {'b': 0}}] the element
    has no value, nothing is written, and the record is [[['a','b']]].  In
    both runs the result equals the target. *)
Theorem record_names_unwritten_paths :
  run_dict_transfer 10
    (TDict [("w1", TDict [("sim_name", TList [TList [TStr "zz"]]);
                          ("value", TList [TInt 1])])])
    (TDict [("x", TInt 0)])
  = Ok (Observed (Some (TDict [("x", TInt 0)]))
                 (Some [TList [TStr "zz"]])
                 (Some (TDict [("x", TInt 0)]))
                 (Some [TList [TStr "zz"]])) /\
  run_dict_transfer 10
    (TDict [("w1", TDict [("sim_name", TList [TStr "a"; TStr "b"])])])
    (TDict [("a", TDict [("b", TInt 0)])])
  = Ok (Observed (Some (TDict [("a", TDict [("b", TInt 0)])]))
                 (Some [TList [TStr "a"; TStr "b"]])
                 (Some (TDict [("a", TDict [("b", TInt 0)])]))
                 (Some [])).
Proof. split; vm_compute; reflexivity. Qed.

(** ** [gen_dict_extract] and tuples (C4) *)

(** C4, evaluated: a mapping that sits in a tuple which is the value of a
    mapping is not found, [gen_dict_extract('c', {'a': ({'c': 1},)})] yields
    nothing (line 84 tests for [list] only), whereas the same mapping in a
    list is found, and so is one in a tuple that is searched directly or is an
    element of a list (line 88 tests for [(list, tuple)]).  On
    [{'a': {'c': 1, 'b': {'c': 2}}}] the outer and then the inner mapping are
    yielded. *)
Theorem gen_dict_extract_skips_tuple_values :
  run_gen_dict_extract 10 "c" (TDict [("a", TTuple [TDict [("c", TInt 1)]])])
  = Ok (Some []) /\
  run_gen_dict_extract 10 "c" (TDict [("a", TList [TDict [("c", TInt 1)]])])
  = Ok (Some [TDict [("c", TInt 1)]]) /\
  run_gen_dict_extract 10 "c" (TTuple [TDict [("c", TInt 1)]])
  = Ok (Some [TDict [("c", TInt 1)]]) /\
  run_gen_dict_extract 10 "c" (TDict [("a", TList [TTuple [TDict [("c", TInt 1)]]])])
  = Ok (Some [TDict [("c", TInt 1)]]) /\
  run_gen_dict_extract 10 "c"
    (TDict [("a", TDict [("c", TInt 1); ("b", TDict [("c", TInt 2)])])])
  = Ok (Some [TDict [("c", TInt 1); ("b", TDict [("c", TInt 2)])];
              TDict [("c", TInt 2)]]).
Proof. repeat split; vm_compute; reflexivity. Qed.

(** ** Nesting *)

Lemma dict_get_elem k items v : dict_get k items = Some v -> v ∈ map snd items.
Proof.
  induction items as [|[k' v'] items IH]; simpl; [done|].
  destruct (String.eqb k' k).
  - intros [= ->]. left.
  - intros H. right. by apply IH.
Qed.

Lemma seq_get_elem {A} (xs : list A) i x : seq_get xs i = Some x -> x ∈ xs.
Proof.
  unfold seq_get. destruct (norm_index (length xs) i); [|done].
  intros H. by apply list_elem_of_lookup_2 in H.
Qed.

(** Indexing a container yields one of its children; indexing a string
    yields a string. *)
Lemma py_getitem_child fuel h c k l1 :
  py_getitem fuel h c k = Ok (VRef l1) ->
  exists l0 o, c = VRef l0 /\ h !! l0 = Some o /\ VRef l1 ∈ children o.
Proof.
  unfold py_getitem. destruct c as [| |s|l0]; try done.
  - destruct k; try done. by destruct (str_get s z).
  - destruct (h !! l0) as [[items|xs|xs|w]|] eqn:Hl0; try done.
    + destruct k as [| |s|]; try (by destruct (hashable fuel h _) as [[]| |]).
      destruct (dict_get s items) as [v|] eqn:Hget; [|done].
      intros [= ->]. exists l0, (ODict items). split_and!; [done..|].
      by eapply dict_get_elem.
    + destruct k as [|i| |]; try done.
      destruct (seq_get xs i) as [v|] eqn:Hget; [|done].
      intros [= ->]. exists l0, (OList xs). split_and!; [done..|].
      by eapply seq_get_elem.
    + destruct k as [|i| |]; try done.
      destruct (seq_get xs i) as [v|] eqn:Hget; [|done].
      intros [= ->]. exists l0, (OTuple xs). split_and!; [done..|].
      by eapply seq_get_elem.
Qed.

Lemma walk_step_eq fuel h key_list sub i :
  walk_step fuel h key_list sub i =
  (k ← py_getitem fuel h key_list (VInt i); py_getitem fuel h sub k).
Proof. done. Qed.

Lemma walk_prefix_unfold fuel h key_list root :
  walk_prefix fuel h key_list root =
  (n ← py_len h key_list; foldM_o (walk_step fuel h key_list) root (py_range (n - 1))).
Proof. done. Qed.

Lemma obind_ok {A B} (m : outcome A) (f : A -> outcome B) b :
  m ≫= f = Ok b -> exists a, m = Ok a /\ f a = Ok b.
Proof. destruct m as [a| |]; try done. intros H. by exists a. Qed.

Lemma foldM_o_cons {S A} (f : S -> A -> outcome S) s x xs :
  foldM_o f s (x :: xs) = (s1 ← f s x; foldM_o f s1 xs).
Proof. done. Qed.

Lemma walk_rank rk fuel h key_list sub idxs lf :
  nested rk h ->
  foldM_o (walk_step fuel h key_list) sub idxs = Ok (VRef lf) ->
  exists ls, sub = VRef ls /\ (rk lf <= rk ls) /\ (idxs <> [] -> rk lf < rk ls).
Proof.
  intros Hn. revert sub. induction idxs as [|i idxs IH]; intros sub.
  - intros [= ->]. exists lf. split_and!; [done|lia|done].
  - rewrite foldM_o_cons. intros (sub1 & Hstep & Hrest)%obind_ok.
    apply obind_ok in Hstep as (k & Hk & Hs).
    destruct (IH _ Hrest) as (l1 & -> & Hle & _).
    destruct (py_getitem_child _ _ _ _ _ Hs) as (l0 & o & -> & Hl0 & Hin).
    exists l0. pose proof (Hn _ _ _ Hl0 Hin). split_and!; [done|lia|lia].
Qed.

(** ** Round trip (C8) *)

Lemma py_getitem_update_ok fuel h l o' c k v :
  c <> VRef l -> py_getitem fuel h c k = Ok v ->
  py_getitem fuel (<[l := o']> h) c k = Ok v.
Proof.
  intros Hne. unfold py_getitem. destruct c as [| |s|l0]; try done.
  rewrite list_lookup_insert_ne by congruence.
  destruct (h !! l0) as [[items|xs|xs|w]|]; try done.
  destruct k as [|z|s|r]; try done.
  - by destruct (hashable fuel h VNone) as [[]| |].
  - by destruct (hashable fuel h (VInt z)) as [[]| |].
  - by destruct (hashable fuel h (VRef r)) as [[]| |].
Qed.

Lemma py_getitem_dict_int fuel h l items i v :
  h !! l = Some (ODict items) -> py_getitem fuel h (VRef l) (VInt i) = Ok v -> False.
Proof.
  intros H. unfold py_getitem. rewrite H.
  by destruct (hashable fuel h (VInt i)) as [[]| |].
Qed.

Lemma dict_set_length k v items :
  dict_mem k items = true -> length (dict_set k v items) = length items.
Proof.
  unfold dict_mem. induction items as [|[k' v'] items IH]; simpl; [done|].
  destruct (String.eqb k' k); [done|]. intros H. simpl. by rewrite IH.
Qed.

Lemma dict_get_set k v items : dict_get k (dict_set k v items) = Some v.
Proof.
  induction items as [|[k' v'] items IH]; simpl.
  - by rewrite String.eqb_refl.
  - destruct (String.eqb k' k) eqn:E; simpl; by rewrite E.
Qed.

Lemma py_len_update_dict h l items items' x :
  h !! l = Some (ODict items) -> length items' = length items ->
  py_len (<[l := ODict items']> h) x = py_len h x.
Proof.
  intros Hl Hlen. unfold py_len. destruct x as [| | |l0]; try done.
  destruct (decide (l0 = l)) as [->|Hne].
  - rewrite list_lookup_insert_eq by (by eapply lookup_lt_Some). by rewrite Hl, Hlen.
  - by rewrite list_lookup_insert_ne.
Qed.

Lemma is_dict_update_dict h l items items' x :
  h !! l = Some (ODict items) ->
  is_dict (<[l := ODict items']> h) x = is_dict h x.
Proof.
  intros Hl. unfold is_dict, deref. destruct x as [| | |l0]; try done.
  destruct (decide (l0 = l)) as [->|Hne].
  - rewrite list_lookup_insert_eq by (by eapply lookup_lt_Some). by rewrite Hl.
  - by rewrite list_lookup_insert_ne.
Qed.

(** A write into the dictionary the walk ends in does not disturb the walk:
    in a nested heap that dictionary is not one of the objects walked
    through. *)
Lemma walk_update rk fuel h key_list l items items' sub idxs :
  nested rk h -> h !! l = Some (ODict items) ->
  foldM_o (walk_step fuel h key_list) sub idxs = Ok (VRef l) ->
  foldM_o (walk_step fuel (<[l := ODict items']> h) key_list) sub idxs = Ok (VRef l).
Proof.
  intros Hn Hl. revert sub. induction idxs as [|i idxs IH]; intros sub; [done|].
  intros Hwalk. pose proof Hwalk as Hwalk'.
  rewrite foldM_o_cons in Hwalk. apply obind_ok in Hwalk as (sub1 & Hstep & Hrest).
  apply obind_ok in Hstep as (k & Hk & Hs).
  rewrite foldM_o_cons, walk_step_eq.
  rewrite (py_getitem_update_ok _ _ _ _ _ _ k); [|intros ->|done].
  2:{ by eapply py_getitem_dict_int. }
  simpl. rewrite (py_getitem_update_ok _ _ _ _ _ _ sub1); [|intros ->|done].
  2:{ destruct (walk_rank _ _ _ _ _ _ _ Hn Hwalk') as (ls & [= <-] & _ & Hlt).
      specialize (Hlt ltac:(done)). lia. }
  simpl. by apply IH.
Qed.

(** C8, as the code has it: in a properly nested heap, when the path
    resolves to a dictionary that already has the final key, [set_dict_entry]
    returns normally (in either mode) and a following [get_dict_entry] with
    the same path returns the value that was stored.  That is the value given
    when it has no [.value] attribute, and its [.value] when it has one
    (lines 125-129): an instance is not read back, what it holds is. *)
Theorem set_then_get_round_trip
        (rk : loc -> nat) (fuel : nat) (value key_list root : val) (mode : string)
        (s : state) (l : loc) (items : list (string * val)) (k : string) :
  nested rk (st_heap s) ->
  is_dict (st_heap s) root = true ->
  walk_prefix fuel (st_heap s) key_list root = Ok (VRef l) ->
  st_heap s !! l = Some (ODict items) ->
  py_getitem fuel (st_heap s) key_list (VInt (-1)) = Ok (VStr k) ->
  dict_mem k items = true ->
  exists s' stored,
    set_dict_entry fuel value key_list root mode s = Done root s' /\
    get_dict_entry fuel key_list root s' = Done stored s' /\
    (forall b w, value = VRef b -> st_heap s !! b = Some (OBox w) -> stored = w) /\
    ((forall b w, value = VRef b -> st_heap s !! b <> Some (OBox w)) -> stored = value).
Proof.
  intros Hn Hd Hw Hl Hk Hm.
  set (pv := pure_value (st_heap s) value).
  set (h' := <[l := ODict (dict_set k pv items)]> (st_heap s)).
  exists (State h' (st_out s)), pv. split_and!.
  - unfold set_dict_entry. munfold. rewrite Hd, Hw, Hk.
    rewrite (py_contains_dict_str _ _ _ items), Hm by done.
    unfold py_setitem. by rewrite Hl.
  - unfold get_dict_entry. munfold. simpl.
    unfold h'. rewrite (is_dict_update_dict _ _ items) by done. rewrite Hd.
    rewrite walk_prefix_unfold in Hw |- *. cbn [st_heap].
    rewrite (py_len_update_dict _ _ items) by (by rewrite ?dict_set_length).
    destruct (py_len (st_heap s) key_list) as [n| |]; try done. simpl in Hw |- *.
    rewrite (walk_update rk _ _ _ _ items) by done. cbn [st_heap].
    rewrite (py_getitem_update_ok _ _ _ _ _ _ (VStr k)); [|intros ->|done].
    2:{ by eapply py_getitem_dict_int. }
    rewrite (py_getitem_dict_str _ _ _ (dict_set k pv items)).
    + by rewrite dict_get_set.
    + apply list_lookup_insert_eq. by eapply lookup_lt_Some.
  - intros b w -> Hb. by apply pure_value_box.
  - apply pure_value_plain.
Qed.

Lemma round_trip_heap_nested : nested round_trip_rank round_trip_heap.
Proof.
  intros l o l' Hl Hin.
  destruct l as [|[|[|l]]]; simpl in Hl; try done; injection Hl as <-; simpl in Hin;
    repeat (apply elem_of_cons in Hin as [Hin|Hin]; [try done|]);
    try (by apply elem_of_nil in Hin).
  injection Hin as ->. simpl. lia.
Qed.

Lemma set_then_get_round_trip_witness :
  exists s' stored,
    set_dict_entry 2 (VInt 5) (VRef 2) (VRef 0) "moderate" (State round_trip_heap [])
    = Done (VRef 0) s' /\
    get_dict_entry 2 (VRef 2) (VRef 0) s' = Done stored s' /\
    (forall b w, VInt 5 = VRef b -> round_trip_heap !! b = Some (OBox w) -> stored = w) /\
    ((forall b w, VInt 5 = VRef b -> round_trip_heap !! b <> Some (OBox w)) ->
     stored = VInt 5).
Proof.
  apply (set_then_get_round_trip round_trip_rank 2 (VInt 5) (VRef 2) (VRef 0) "moderate"
           (State round_trip_heap []) 1 [("b", VInt 0)] "b"
           round_trip_heap_nested eq_refl eq_refl eq_refl eq_refl eq_refl).
Defined.

(** C8 as stated fails for a value with a [.value] attribute: storing the
    instance [Box(9)] at [['a', 'b']] of [{'a': {'b': 0}}] stores 9, and the
    read returns 9, not the instance that was passed. *)
Lemma round_trip_unwraps_value :
  exists s',
    set_dict_entry 2 (VRef 3) (VRef 2) (VRef 0) "moderate" (State round_trip_boxed_heap [])
    = Done (VRef 0) s' /\
    get_dict_entry 2 (VRef 2) (VRef 0) s' = Done (VInt 9) s' /\
    VInt 9 <> VRef 3.
Proof.
  exists (State [ODict [("a", VRef 1)]; ODict [("b", VInt 9)]; OList [VStr "a"; VStr "b"];
                 OBox (VInt 9)] []).
  split_and!; [reflexivity|reflexivity|discriminate].
Qed.

(** Without nesting the round trip can fail: on the dictionary [d] with
    [d['a'] = d] and the path [['a', 'a']], the write replaces the very entry
    the walk goes through, and the read then indexes the integer. *)
Example round_trip_cyclic :
  let h := [ODict [("a", VRef 0)]; OList [VStr "a"; VStr "a"]] in
  set_dict_entry 2 (VInt 5) (VRef 1) (VRef 0) "moderate" (State h [])
  = Done (VRef 0) (State [ODict [("a", VInt 5)]; OList [VStr "a"; VStr "a"]] []) /\
  get_dict_entry 2 (VRef 1) (VRef 0)
    (State [ODict [("a", VInt 5)]; OList [VStr "a"; VStr "a"]] [])
  = Failed TypeError (State [ODict [("a", VInt 5)]; OList [VStr "a"; VStr "a"]] []).
Proof. split; reflexivity. Qed.

(** ** [remove_key] (C7) *)

Lemma members_children o v : v ∈ members o -> v ∈ children o.
Proof. destruct o; simpl; try done. by intros ?%elem_of_nil. Qed.

Lemma without_elem key items kv : kv ∈ without key items -> kv ∈ items.
Proof. unfold without. by intros [_ ?]%list_elem_of_filter. Qed.

Lemma without_idemp key items : without key (without key items) = without key items.
Proof.
  unfold without. induction items as [|kv items IH]; [done|].
  rewrite filter_cons. destruct (decide (kv.1 <> key)); [|done].
  rewrite filter_cons. destruct (decide (kv.1 <> key)); [|done]. by rewrite IH.
Qed.

Lemma without_app key a b : without key (a ++ b) = without key a ++ without key b.
Proof. apply filter_app. Qed.

Lemma without_snd key items v :
  v ∈ map snd (without key items) -> v ∈ map snd items.
Proof.
  intros ([k v'] & -> & Hin)%list_elem_of_fmap.
  apply list_elem_of_fmap. exists (k, v'). split; [done|]. by eapply without_elem.
Qed.

Lemma dict_mem_keys k items : dict_mem k items = true <-> k ∈ map fst items.
Proof.
  unfold dict_mem. induction items as [|[k' v'] items IH]; simpl.
  - split; [done|]. by intros ?%elem_of_nil.
  - destruct (String.eqb_spec k' k) as [->|Hne].
    + split; [intros _; left|done].
    + rewrite IH. split; [by right|].
      intros [?|?]%elem_of_cons; [congruence|done].
Qed.

Lemma dict_mem_without key items : dict_mem key (without key items) = false.
Proof.
  apply not_true_is_false. rewrite dict_mem_keys.
  intros ([k v] & Hk & Hin)%list_elem_of_fmap. simpl in Hk. subst k.
  unfold without in Hin. apply list_elem_of_filter in Hin as [Hne _]. by apply Hne.
Qed.

Lemma pruned_refl key h : pruned key h h.
Proof. intros l. by left. Qed.

Lemma pruned_trans key h1 h2 h3 : pruned key h1 h2 -> pruned key h2 h3 -> pruned key h1 h3.
Proof.
  intros H12 H23 l.
  destruct (H12 l) as [E12|(it & Hit & Hit')], (H23 l) as [E23|(it2 & Hit2 & Hit2')].
  - left. congruence.
  - right. exists it2. split; congruence.
  - right. exists it. split; congruence.
  - right. exists it. split; [done|]. rewrite Hit2'. rewrite Hit' in Hit2.
    injection Hit2 as <-. by rewrite without_idemp.
Qed.

Lemma pruned_children key h h' l o' v :
  pruned key h h' -> h' !! l = Some o' -> v ∈ children o' ->
  exists o, h !! l = Some o /\ v ∈ children o.
Proof.
  intros Hp Hl Hv. destruct (Hp l) as [E|(it & Hit & Hit')].
  - exists o'. split; [congruence|done].
  - exists (ODict it). split; [done|]. rewrite Hit' in Hl. injection Hl as <-.
    simpl in *. by eapply without_snd.
Qed.

Lemma pruned_members key h h' l o' v :
  pruned key h h' -> h' !! l = Some o' -> v ∈ members o' ->
  exists o, h !! l = Some o /\ v ∈ members o.
Proof.
  intros Hp Hl Hv. destruct (Hp l) as [E|(it & Hit & Hit')].
  - exists o'. split; [congruence|done].
  - exists (ODict it). split; [done|]. rewrite Hit' in Hl. injection Hl as <-.
    simpl in *. by eapply without_snd.
Qed.

Lemma pruned_nested key rk h h' : pruned key h h' -> nested rk h -> nested rk h'.
Proof.
  intros Hp Hn l o' l' Hl Hin.
  destruct (pruned_children _ _ _ _ _ _ Hp Hl Hin) as (o & Ho & Hin'). eauto.
Qed.

Lemma pruned_unique key h h' : pruned key h h' -> keys_unique h -> keys_unique h'.
Proof.
  intros Hp Hu l items' Hl. destruct (Hp l) as [E|(it & Hit & Hit')].
  - apply (Hu l). congruence.
  - rewrite Hit' in Hl. injection Hl as <-. specialize (Hu _ _ Hit).
    unfold without. clear -Hu. induction it as [|kv it IH]; [done|].
    simpl in Hu. apply NoDup_cons in Hu as [Hnin Hnd].
    rewrite filter_cons. destruct (decide (kv.1 <> key)); [|by apply IH].
    simpl. apply NoDup_cons. split; [|by apply IH].
    intros (kv' & Hk & Hin)%list_elem_of_fmap. apply Hnin.
    apply list_elem_of_fmap. exists kv'. split; [done|].
    by apply list_elem_of_filter in Hin as [_ ?].
Qed.

Lemma pruned_inside key h h' v l : pruned key h h' -> inside h' v l -> inside h v l.
Proof.
  intros Hp. induction 1 as [l|l o' v l' Hl Hv _ IH]; [constructor|].
  destruct (pruned_members _ _ _ _ _ _ Hp Hl Hv) as (o & Ho & Hin').
  by eapply inside_step.
Qed.

Lemma key_free_pruned key h h' v : pruned key h h' -> key_free key h v -> key_free key h' v.
Proof.
  intros Hp Hf l items' Hin Hl.
  apply (pruned_inside _ _ _ _ _ Hp) in Hin.
  destruct (Hp l) as [E|(it & Hit & Hit')].
  - apply (Hf l); [done|congruence].
  - rewrite Hit' in Hl. injection Hl as <-. apply dict_mem_without.
Qed.

Lemma inside_rank rk h v l :
  nested rk h -> inside h v l -> exists l0, v = VRef l0 /\ rk l <= rk l0.
Proof.
  intros Hn. induction 1 as [l|l o v l' Hl Hv _ IH].
  - exists l. split; [done|lia].
  - destruct IH as (l0 & -> & Hle). exists l. split; [done|].
    apply members_children in Hv. pose proof (Hn _ _ _ Hl Hv). lia.
Qed.

Lemma dict_get_app k v a b :
  k ∉ map fst a -> dict_get k (a ++ (k, v) :: b) = Some v.
Proof.
  induction a as [|[k' v'] a IH]; simpl; intros Hnin.
  - by rewrite String.eqb_refl.
  - apply not_elem_of_cons in Hnin as [Hne Hnin].
    destruct (String.eqb_spec k' k) as [->|_]; [done|]. by apply IH.
Qed.

Lemma dict_del_app k v a b :
  k ∉ map fst a -> dict_del k (a ++ (k, v) :: b) = a ++ b.
Proof.
  induction a as [|[k' v'] a IH]; simpl; intros Hnin.
  - by rewrite String.eqb_refl.
  - apply not_elem_of_cons in Hnin as [Hne Hnin].
    destruct (String.eqb_spec k' k) as [->|_]; [done|]. by rewrite IH.
Qed.

Lemma without_keys key items k : k ∈ map fst (without key items) -> k ∈ map fst items /\ k <> key.
Proof.
  intros ([k' v] & -> & Hin)%list_elem_of_fmap. unfold without in Hin.
  apply list_elem_of_filter in Hin as [Hne Hin]. split; [|done].
  apply list_elem_of_fmap. by exists (k', v).
Qed.

Lemma without_id key items : key ∉ map fst items -> without key items = items.
Proof.
  unfold without. induction items as [|[k v] items IH]; [done|]. simpl.
  intros [Hne Hnin]%not_elem_of_cons. rewrite filter_cons. simpl.
  destruct (decide (k <> key)) as [_|Hn]; [|by destruct Hn]. by rewrite IH.
Qed.

Lemma without_snoc_ne key items k v :
  k <> key -> without key (items ++ [(k, v)]) = without key items ++ [(k, v)].
Proof.
  intros Hne. rewrite without_app. f_equal. unfold without.
  rewrite filter_cons. simpl. by destruct (decide (k <> key)) as [_|[]].
Qed.

Lemma without_snoc_eq key items v :
  without key (items ++ [(key, v)]) = without key items.
Proof.
  rewrite without_app. unfold without at 2.
  rewrite filter_cons. simpl. destruct (decide (key <> key)); [done|].
  by rewrite app_nil_r.
Qed.

(** Loops with an invariant over the part of the list already visited. *)
Lemma for_each_invariant {A} (I : list A -> state -> Prop) (body : A -> M unit) xs s :
  I [] s ->
  (forall pre x suf s, xs = pre ++ x :: suf -> I pre s ->
                       exists s', body x s = Done () s' /\ I (pre ++ [x]) s') ->
  exists s', for_each xs body s = Done () s' /\ I xs s'.
Proof.
  intros H0 Hstep.
  assert (Hgen : forall suf pre s, xs = pre ++ suf -> I pre s ->
                                   exists s', for_each suf body s = Done () s' /\ I xs s').
  { induction suf as [|x suf IH]; intros pre s1 Hxs HI.
    - exists s1. split; [done|]. by rewrite Hxs, app_nil_r.
    - destruct (Hstep pre x suf s1 Hxs HI) as (s2 & Hb & HI2).
      destruct (IH (pre ++ [x]) s2) as (s3 & Hrest & HI3); [by rewrite <- app_assoc|done|].
      exists s3. split; [|done]. simpl. by rewrite (bind_done _ _ _ _ _ Hb). }
  by apply (Hgen xs []).
Qed.

Lemma for_each_map {A B} (f : A -> B) (body : B -> M unit) xs s :
  for_each (map f xs) body s = for_each xs (fun x => body (f x)) s.
Proof.
  revert s. induction xs as [|x xs IH]; intros s; [done|]. simpl.
  unfold mbind, M_bind. destruct (body (f x) s); [apply IH|done..].
Qed.

Section remove_key_correct.
Variables (rk : loc -> nat) (key : string).

#[local] Abbreviation removed := (removed key).
#[local] Abbreviation remove_key_ok := (remove_key_ok rk key).

Lemma fuel_for_member n h l o v :
  nested rk h -> h !! l = Some o -> v ∈ members o -> S (rk l) <= n ->
  fuel_for rk v <= n.
Proof.
  intros Hn Hl Hv Hle. destruct v as [| | |lv]; simpl; try lia.
  apply members_children in Hv. pose proof (Hn _ _ _ Hl Hv). lia.
Qed.

Lemma removed_leaf s var :
  match deref (st_heap s) var with
  | None | Some (OBox _) => True
  | _ => False
  end ->
  removed s var s.
Proof.
  intros Hleaf. split_and!; [done|apply pruned_refl|done|].
  intros l items Hin Hl.
  inversion Hin as [l0|l0 o v l' Hl0 Hv _]; subst; simpl in Hleaf.
  - by rewrite Hl in Hleaf.
  - rewrite Hl0 in Hleaf. destruct o; try done. by apply elem_of_nil in Hv.
Qed.

Lemma remove_key_seq_loop n s l o :
  remove_key_ok n ->
  nested rk (st_heap s) -> keys_unique (st_heap s) ->
  st_heap s !! l = Some o -> (forall items, o <> ODict items) ->
  S (rk l) <= n ->
  exists s', for_each (members o) (remove_key n key) s = Done () s' /\
             removed s (VRef l) s'.
Proof.
  intros IH Hn Hu Hl Hnd Hfuel.
  destruct (for_each_invariant
              (fun pre s' =>
                 st_out s' = st_out s /\
                 pruned key (st_heap s) (st_heap s') /\
                 (forall l', ~ inside (st_heap s) (VRef l) l' -> st_heap s' !! l' = (st_heap s) !! l') /\
                 (forall v, v ∈ pre -> key_free key (st_heap s') v))
              (remove_key n key) (members o) s) as (s' & Hrun & HI).
  - split_and!; [done|apply pruned_refl|done|]. by intros v ?%elem_of_nil.
  - intros pre x suf s1 Hxs (Hout & Hp & Hfr & Hkf).
    assert (Hl1 : st_heap s1 !! l = Some o).
    { destruct (Hp l) as [E|(it & Hit & _)]; [congruence|].
      rewrite Hl in Hit. injection Hit as ->. by destruct (Hnd it). }
    assert (Hx : x ∈ members o) by (rewrite Hxs; set_solver).
    destruct (IH x s1) as (s2 & Hrun & Hout2 & Hp2 & Hfr2 & Hkf2).
    { by eapply pruned_nested. }
    { by eapply pruned_unique. }
    { eapply fuel_for_member; [by eapply pruned_nested|done..]. }
    exists s2. split; [done|]. split_and!.
    + congruence.
    + by eapply pruned_trans.
    + intros l' Hni. rewrite Hfr2, Hfr; [done..|].
      intros Hin. apply Hni. eapply inside_step; [done..|].
      by eapply pruned_inside.
    + intros v [Hv| ->%list_elem_of_singleton]%elem_of_app; [|done].
      eapply key_free_pruned; [done|]. by apply Hkf.
  - exists s'. split; [done|]. destruct HI as (Hout & Hp & Hfr & Hkf).
    split_and!; [done..|].
    assert (Hl1 : st_heap s' !! l = Some o).
    { destruct (Hp l) as [E|(it & Hit & _)]; [congruence|].
      rewrite Hl in Hit. injection Hit as ->. by destruct (Hnd it). }
    intros l' items Hin Hl'.
    inversion Hin as [l0|l0 o' v l'' Hl0 Hv Hin']; subst.
    + rewrite Hl1 in Hl'. injection Hl' as ->. by destruct (Hnd items).
    + rewrite Hl1 in Hl0. injection Hl0 as <-. by eapply Hkf.
Qed.

Lemma without_cons_eq v b : without key ((key, v) :: b) = without key b.
Proof. unfold without. rewrite filter_cons. simpl. by destruct (decide (key <> key)). Qed.

Lemma pruned_delete h l a v b :
  h !! l = Some (ODict (without key a ++ (key, v) :: b)) ->
  key ∉ map fst b ->
  pruned key h (<[l := ODict (without key a ++ b)]> h).
Proof.
  intros Hl Hb l'. destruct (decide (l' = l)) as [->|Hne].
  - right. eexists. split; [done|].
    rewrite list_lookup_insert_eq by (by eapply lookup_lt_Some).
    by rewrite without_app, without_idemp, without_cons_eq, (without_id _ b).
  - left. by rewrite list_lookup_insert_ne.
Qed.

Lemma remove_key_dict_loop n s l items0 :
  remove_key_ok n ->
  nested rk (st_heap s) -> keys_unique (st_heap s) ->
  st_heap s !! l = Some (ODict items0) ->
  S (rk l) <= n ->
  exists s',
    for_each (map fst items0)
             (fun k => if String.eqb k key
                       then update (fun h => py_delitem h (VRef l) key)
                       else v ← getitem n (VRef l) (VStr k); remove_key n key v) s
    = Done () s' /\
    removed s (VRef l) s'.
Proof.
  intros IH Hn Hu Hl Hfuel. rewrite for_each_map.
  destruct (for_each_invariant
              (fun pre s' =>
                 st_out s' = st_out s /\
                 pruned key (st_heap s) (st_heap s') /\
                 (forall l', ~ inside (st_heap s) (VRef l) l' ->
                             st_heap s' !! l' = st_heap s !! l') /\
                 st_heap s' !! l
                 = Some (ODict (without key pre ++ drop (length pre) items0)) /\
                 (forall kv, kv ∈ without key pre -> key_free key (st_heap s') kv.2))
              (fun kv : string * val =>
                 if String.eqb kv.1 key
                 then update (fun h => py_delitem h (VRef l) key)
                 else v ← getitem n (VRef l) (VStr kv.1); remove_key n key v)
              items0 s) as (s' & Hrun & HI).
  - split_and!; [done|apply pruned_refl|done|done|]. by intros kv ?%elem_of_nil.
  - intros pre [k v] suf s1 Hxs (Hout & Hp & Hfr & Hcur & Hkf).
    assert (Hdrop : drop (length pre) items0 = (k, v) :: suf)
      by (by rewrite Hxs, drop_app_length).
    rewrite Hdrop in Hcur.
    pose proof (Hu l items0 Hl) as Hnd. rewrite Hxs, map_app in Hnd. simpl in Hnd.
    apply NoDup_app in Hnd as (_ & Hdisj & Hnd2).
    apply NoDup_cons in Hnd2 as [Hksuf _].
    assert (Hkpre : k ∉ map fst (without key pre)).
    { intros [Hin _]%without_keys. apply (Hdisj k Hin). left. }
    assert (Hsplit : items0 = (pre ++ [(k, v)]) ++ suf) by (by rewrite <- app_assoc).
    assert (Hdrop' : drop (length (pre ++ [(k, v)])) items0 = suf).
    { rewrite Hsplit. apply drop_app_length. }
    simpl. destruct (String.eqb_spec k key) as [->|Hne].
    + eexists. split.
      { unfold update, py_delitem. rewrite Hcur.
        replace (dict_mem key (without key pre ++ (key, v) :: suf)) with true.
        2:{ symmetry. apply dict_mem_keys. rewrite map_app. simpl. set_solver. }
        by rewrite dict_del_app. }
      pose proof (pruned_delete _ _ _ _ _ Hcur Hksuf) as Hp2. simpl.
      split_and!.
      * done.
      * by eapply pruned_trans.
      * intros l' Hni. rewrite list_lookup_insert_ne; [by apply Hfr|].
        intros ->. apply Hni. constructor.
      * rewrite list_lookup_insert_eq by (by eapply lookup_lt_Some).
        by rewrite without_snoc_eq, Hdrop'.
      * intros kv Hkv. rewrite without_snoc_eq in Hkv.
        eapply key_free_pruned; [done|]. by apply Hkf.
    + assert (Hget : getitem n (VRef l) (VStr k) s1 = Done v s1).
      { apply getitem_ok. rewrite (py_getitem_dict_str _ _ _ _ _ Hcur).
        by rewrite dict_get_app. }
      rewrite (bind_done _ _ _ _ _ Hget).
      assert (Hn1 : nested rk (st_heap s1)) by (by eapply pruned_nested).
      assert (Hv : v ∈ members (ODict (without key pre ++ (k, v) :: suf))).
      { simpl. rewrite map_app. simpl. set_solver. }
      destruct (IH v s1) as (s2 & Hrun & Hout2 & Hp2 & Hfr2 & Hkf2).
      { done. }
      { by eapply pruned_unique. }
      { by eapply fuel_for_member. }
      exists s2. split; [done|]. split_and!.
      * congruence.
      * by eapply pruned_trans.
      * intros l' Hni. rewrite Hfr2, Hfr; [done..|].
        intros Hin. apply Hni. eapply pruned_inside; [done|].
        by eapply inside_step.
      * rewrite Hfr2, Hcur.
        -- by rewrite (without_snoc_ne _ _ _ _ Hne), Hdrop', <- app_assoc.
        -- intros (lv & -> & Hle)%(inside_rank rk); [|done].
           apply members_children in Hv. pose proof (Hn1 _ _ _ Hcur Hv). lia.
      * intros kv Hkv. rewrite (without_snoc_ne _ _ _ _ Hne) in Hkv.
        apply elem_of_app in Hkv as [Hkv| ->%list_elem_of_singleton]; [|done].
        eapply key_free_pruned; [done|]. by apply Hkf.
  - exists s'. split; [done|]. destruct HI as (Hout & Hp & Hfr & Hcur & Hkf).
    rewrite drop_all, app_nil_r in Hcur.
    split_and!; [done..|].
    intros l' items Hin Hl'.
    inversion Hin as [l0|l0 o' v l'' Hl0 Hv Hin']; subst.
    + rewrite Hcur in Hl'. injection Hl' as <-. apply dict_mem_without.
    + rewrite Hcur in Hl0. injection Hl0 as <-. simpl in Hv.
      apply list_elem_of_fmap in Hv as (kv & -> & Hkv). by eapply Hkf.
Qed.

Lemma remove_key_unfold n var s :
  remove_key (S n) key var s =
  match deref (st_heap s) var with
  | Some (ODict items) =>
      for_each (map fst items)
               (fun k => if String.eqb k key
                         then update (fun h => py_delitem h var key)
                         else v ← getitem n var (VStr k); remove_key n key v) s
  | Some (OList xs) | Some (OTuple xs) => for_each xs (remove_key n key) s
  | _ => Done () s
  end.
Proof.
  simpl. unfold mbind, M_bind, query. simpl.
  by destruct (deref (st_heap s) var) as [[]|].
Qed.

Lemma remove_key_ok_all n : remove_key_ok n.
Proof.
  induction n as [|n IH]; intros var s Hn Hu Hf.
  - destruct var; simpl in Hf; lia.
  - rewrite remove_key_unfold.
    destruct (deref (st_heap s) var) as [[items|xs|xs|w]|] eqn:Hd.
    + destruct var as [| | |l]; try done. simpl in Hd, Hf.
      apply remove_key_dict_loop; [done..|lia].
    + destruct var as [| | |l]; try done. simpl in Hd, Hf.
      apply (remove_key_seq_loop n s l (OList xs)); [done..|lia].
    + destruct var as [| | |l]; try done. simpl in Hd, Hf.
      apply (remove_key_seq_loop n s l (OTuple xs)); [done..|lia].
    + exists s. split; [done|]. apply removed_leaf. by rewrite Hd.
    + exists s. split; [done|]. apply removed_leaf. by rewrite Hd.
Qed.
End remove_key_correct.

(** C7: on a properly nested structure, [remove_key(key, var)] returns
    (with enough fuel for the depth, without raising), and afterwards no
    dictionary inside [var] - at any depth of dictionaries, lists and tuples -
    has the key; every list and every tuple of the heap holds what it held
    before, and nothing is printed. *)
Theorem remove_key_removes_everywhere
        (rk : loc -> nat) (key : string) (var : val) (s : state) (fuel : nat) :
  nested rk (st_heap s) -> keys_unique (st_heap s) -> fuel_for rk var <= fuel ->
  exists s',
    remove_key fuel key var s = Done () s' /\
    (forall l items, inside (st_heap s') var l ->
                     st_heap s' !! l = Some (ODict items) -> dict_mem key items = false) /\
    (forall l xs, st_heap s !! l = Some (OList xs) -> st_heap s' !! l = Some (OList xs)) /\
    (forall l xs, st_heap s !! l = Some (OTuple xs) -> st_heap s' !! l = Some (OTuple xs)) /\
    st_out s' = st_out s.
Proof.
  intros Hn Hu Hf.
  destruct (remove_key_ok_all rk key fuel var s Hn Hu Hf) as (s' & Hrun & Hout & Hp & _ & Hkf).
  exists s'. split_and!; [done|done| | |done].
  - intros l xs Hl. destruct (Hp l) as [E|(it & Hit & _)]; congruence.
  - intros l xs Hl. destruct (Hp l) as [E|(it & Hit & _)]; congruence.
Qed.

Lemma nested_from_ok h : nested_from 0 h = true -> nested (fun l => l) h.
Proof.
  assert (Hgen : forall h k, nested_from k h = true ->
                             forall l o l', h !! l = Some o -> VRef l' ∈ children o ->
                                            l' < k + l).
  { clear h. induction h as [|o h IH]; intros k Hc l o' l' Hl Hin; [done|].
    simpl in Hc. apply andb_true_iff in Hc as [Ho Hrest].
    destruct l as [|l]; simpl in Hl.
    - injection Hl as <-. rewrite forallb_forall in Ho.
      apply list_elem_of_In in Hin. specialize (Ho _ Hin). simpl in Ho.
      apply Nat.ltb_lt in Ho. lia.
    - specialize (IH _ Hrest _ _ _ Hl Hin). lia. }
  intros Hc l o l' Hl Hin. by apply (Hgen h 0 Hc l o l').
Qed.

Lemma keys_unique_check_ok h : keys_unique_check h = true -> keys_unique h.
Proof.
  unfold keys_unique_check. rewrite forallb_forall. intros Hc l items Hl.
  apply list_elem_of_lookup_2, list_elem_of_In in Hl. specialize (Hc _ Hl).
  simpl in Hc. by apply bool_decide_eq_true in Hc.
Qed.

Lemma remove_key_removes_everywhere_witness :
  exists s',
    remove_key 6 "c" (VRef 4) (State remove_key_heap []) = Done () s' /\
    (forall l items, inside (st_heap s') (VRef 4) l ->
                     st_heap s' !! l = Some (ODict items) -> dict_mem "c" items = false) /\
    (forall l xs, remove_key_heap !! l = Some (OList xs) ->
                  st_heap s' !! l = Some (OList xs)) /\
    (forall l xs, remove_key_heap !! l = Some (OTuple xs) ->
                  st_heap s' !! l = Some (OTuple xs)) /\
    st_out s' = [].
Proof.
  apply (remove_key_removes_everywhere (fun l => l) "c" (VRef 4)
           (State remove_key_heap []) 6).
  - apply nested_from_ok. reflexivity.
  - apply keys_unique_check_ok. reflexivity.
  - simpl. lia.
Defined.

Example remove_key_heap_after :
  remove_key 6 "c" (VRef 4) (State remove_key_heap [])
  = Done () (State [ODict []; ODict [("d", VRef 0)]; ODict [];
                    OList [VRef 2]; ODict [("a", VInt 1); ("b", VRef 1); ("e", VRef 3)]] []).
Proof. reflexivity. Qed.

(** ** What [dict_transfer] can change (C1) *)

Lemma reach_child h v l o l' :
  reach h v l -> h !! l = Some o -> VRef l' ∈ children o -> reach h v l'.
Proof.
  induction 1 as [l|l0 o0 v l Hl0 Hv _ IH]; intros Hl Hin.
  - eapply reach_step; [done..|constructor].
  - eapply reach_step; [done..|]. by apply IH.
Qed.

Section frame.
(** The heap when the call starts, and a region [W] of it that is closed
    under references: the objects the call may write to. *)
Variables (h0 : heap) (W : loc -> Prop).
Hypothesis W_closed :
  forall l o l', W l -> h0 !! l = Some o -> VRef l' ∈ children o -> W l'.

#[local] Abbreviation owned := (owned h0 W).
#[local] Abbreviation vowned := (vowned h0 W).
#[local] Abbreviation inv := (inv h0 W).
#[local] Abbreviation safe := (safe h0 W).
#[local] Abbreviation memo_ok := (memo_ok h0 W).

Lemma inv_start : inv h0.
Proof.
  split_and!; [done|done|].
  intros l o [Hw|Hge] Hl.
  - apply Forall_forall. intros [| | |l'] Hin; try done. left. by eapply W_closed.
  - apply lookup_lt_Some in Hl. lia.
Qed.

Lemma inv_insert h l o :
  inv h -> owned l -> Forall vowned (children o) -> inv (<[l := o]> h).
Proof.
  intros (Hlen & Hkeep & Hcl) Hl Ho. split_and!.
  - by rewrite length_insert.
  - intros l1 o1 Hl1 Hnw. rewrite list_lookup_insert_ne; [by apply Hkeep|].
    intros ->. apply lookup_lt_Some in Hl1. destruct Hl as [?|?]; [done|lia].
  - intros l1 o1 Hown Hl1.
    apply list_lookup_insert_Some in Hl1 as [(-> & -> & _)|[_ Hl1]]; [done|].
    by eapply Hcl.
Qed.

Lemma inv_alloc h o :
  inv h -> Forall vowned (children o) -> inv (h ++ [o]) /\ owned (length h).
Proof.
  intros (Hlen & Hkeep & Hcl) Ho. split; [split_and!|].
  - rewrite length_app. lia.
  - intros l1 o1 Hl1 Hnw. apply lookup_app_l_Some. by apply Hkeep.
  - intros l1 o1 Hown Hl1.
    apply lookup_app_Some in Hl1 as [Hl1|[_ Hl1]]; [by eapply Hcl|].
    apply list_lookup_singleton_Some in Hl1 as [_ <-]. done.
  - by right.
Qed.

Lemma inv_children h l o v :
  inv h -> owned l -> h !! l = Some o -> v ∈ children o -> vowned v.
Proof.
  intros (_ & _ & Hcl) Hown Hl Hin.
  specialize (Hcl _ _ Hown Hl). rewrite Forall_forall in Hcl. by apply Hcl.
Qed.

(** *** Rules *)

Lemma safe_ret {A} (a : A) (Q : A -> Prop) : Q a -> safe (mret a) Q.
Proof. by intros HQ s Hs. Qed.

Lemma safe_bind {A B} (m : M A) (f : A -> M B) (P : A -> Prop) (Q : B -> Prop) :
  safe m P -> (forall a, P a -> safe (f a) Q) -> safe (m ≫= f) Q.
Proof.
  intros Hm Hf s Hs. unfold mbind, M_bind. specialize (Hm s Hs).
  destruct (m s) as [a s1|e s1|]; [|done..].
  destruct Hm as [Hs1 HP]. by apply Hf.
Qed.

Lemma safe_weaken {A} (m : M A) (P Q : A -> Prop) :
  safe m P -> (forall a, P a -> Q a) -> safe m Q.
Proof.
  intros Hm HPQ s Hs. specialize (Hm s Hs).
  destruct (m s) as [a s1|e s1|]; [|done..]. destruct Hm. split; eauto.
Qed.

Lemma safe_raise {A} e (Q : A -> Prop) : safe (raise e) Q.
Proof. by intros s Hs. Qed.

Lemma safe_abort {A} (Q : A -> Prop) : safe abort Q.
Proof. by intros s Hs. Qed.

Lemma safe_query {A} (f : heap -> outcome A) (Q : A -> Prop) :
  (forall h a, inv h -> f h = Ok a -> Q a) -> safe (query f) Q.
Proof.
  intros Hf s Hs. unfold query.
  destruct (f (st_heap s)) as [a|e|] eqn:E; [|done..]. split; eauto.
Qed.

Lemma safe_update (f : heap -> outcome heap) :
  (forall h h', inv h -> f h = Ok h' -> inv h') -> safe (update f) (fun _ => True).
Proof.
  intros Hf s Hs. unfold update.
  destruct (f (st_heap s)) as [h'|e|] eqn:E; [|done..]. split; eauto.
Qed.

Lemma safe_print v : safe (print v) (fun _ => True).
Proof. by intros s Hs. Qed.

Lemma safe_new_loc o :
  Forall vowned (children o) -> safe (new_loc o) owned.
Proof. intros Ho s Hs. unfold new_loc. simpl. by apply inv_alloc. Qed.

Lemma safe_new o :
  Forall vowned (children o) -> safe (new o) vowned.
Proof.
  intros Ho. unfold new. eapply safe_bind; [by apply safe_new_loc|].
  intros l Hl. by apply safe_ret.
Qed.

Lemma safe_store l o :
  owned l -> Forall vowned (children o) -> safe (store l o) (fun _ => True).
Proof.
  intros Hl Ho. apply safe_update. intros h h' Hh [= <-]. by apply inv_insert.
Qed.

Lemma safe_for_fold {S A} (body : S -> A -> M S) (P : S -> Prop) a xs :
  P a -> (forall a x, P a -> safe (body a x) P) -> safe (for_fold body a xs) P.
Proof.
  intros Ha Hbody. revert a Ha. induction xs as [|x xs IH]; intros a Ha; simpl.
  - by apply safe_ret.
  - eapply safe_bind; [by apply Hbody|]. intros a1 Ha1. by apply IH.
Qed.

(** *** The primitives *)

Lemma py_getitem_owned fuel h c k v :
  inv h -> vowned c -> py_getitem fuel h c k = Ok v -> vowned v.
Proof.
  intros Hh Hc Hget. destruct v as [| | |l1]; try done.
  destruct (py_getitem_child _ _ _ _ _ Hget) as (l0 & o & -> & Hl0 & Hin).
  by eapply (inv_children h l0 o (VRef l1)).
Qed.

Lemma safe_getitem fuel c k : vowned c -> safe (getitem fuel c k) vowned.
Proof. intros Hc. apply safe_query. intros h v Hh. by apply py_getitem_owned. Qed.

Lemma safe_getitem_any fuel c k : safe (getitem fuel c k) (fun _ => True).
Proof. by apply safe_query. Qed.

Lemma pure_value_owned h v : inv h -> vowned v -> vowned (pure_value h v).
Proof.
  intros Hh Hv. unfold pure_value.
  destruct v as [| | |l]; try done. simpl.
  destruct (h !! l) as [[| | |w]|] eqn:Hl; try done.
  eapply (inv_children h l (OBox w) w); [done..|]. simpl. set_solver.
Qed.

Lemma dict_set_children (P : val -> Prop) k v items :
  P v -> Forall P (map snd items) -> Forall P (map snd (dict_set k v items)).
Proof.
  intros Hv. induction items as [|[k' v'] items IH]; simpl; intros Hitems.
  - by constructor.
  - apply Forall_cons in Hitems as [Hv' Hitems].
    destruct (String.eqb k' k); simpl; constructor; auto.
Qed.

Lemma py_setitem_inv fuel h c k v h' :
  inv h -> vowned c -> vowned v -> py_setitem fuel h c k v = Ok h' -> inv h'.
Proof.
  intros Hh Hc Hv. unfold py_setitem.
  destruct c as [| | |l]; try done.
  destruct (h !! l) as [[items|xs| |]|] eqn:Hl; try done.
  - destruct k as [|z|s|r].
    + by destruct (hashable fuel h VNone) as [[]| |].
    + by destruct (hashable fuel h (VInt z)) as [[]| |].
    + intros [= <-]. apply inv_insert; [done..|]. simpl.
      apply dict_set_children; [done|].
      destruct Hh as (_ & _ & Hcl). by apply (Hcl l (ODict items)).
    + by destruct (hashable fuel h (VRef r)) as [[]| |].
  - destruct k as [|i| |]; try done.
    destruct (norm_index (length xs) i) as [j|]; [|done].
    intros [= <-]. apply inv_insert; [done..|]. simpl.
    apply Forall_insert; [|done].
    destruct Hh as (_ & _ & Hcl). by apply (Hcl l (OList xs)).
Qed.

Lemma safe_setitem fuel c k v :
  vowned c -> vowned v -> safe (setitem fuel c k v) (fun _ => True).
Proof.
  intros Hc Hv. apply safe_update. intros h h' Hh. by apply py_setitem_inv.
Qed.

Lemma safe_isinstance test v : safe (isinstance test v) (fun _ => True).
Proof. by apply safe_query. Qed.

Lemma safe_len v : safe (len v) (fun _ => True).
Proof. by apply safe_query. Qed.

Lemma safe_contains fuel k c : safe (contains fuel k c) (fun _ => True).
Proof. by apply safe_query. Qed.

Lemma deref_children h v o :
  inv h -> vowned v -> deref h v = Some o -> Forall vowned (children o).
Proof.
  intros (_ & _ & Hcl) Hv Hd. destruct v as [| | |l]; try done. by apply (Hcl l).
Qed.

(** *** The functions of the module *)

Lemma safe_ensure_list v n : vowned v -> safe (ensure_list v n) vowned.
Proof.
  intros Hv. unfold ensure_list.
  eapply safe_bind; [apply safe_isinstance|]. intros [] _.
  - by apply safe_ret.
  - apply safe_new. simpl. apply Forall_forall.
    by intros x [-> _]%elem_of_replicate.
Qed.

Lemma Forall_removelast {A} (P : A -> Prop) xs : Forall P xs -> Forall P (removelast xs).
Proof.
  induction xs as [|x [|y xs] IH]; intros H; simpl; try done.
  apply Forall_cons in H as [Hx H]. constructor; [done|]. by apply IH.
Qed.

Lemma safe_slice_init x : vowned x -> safe (slice_init x) vowned.
Proof.
  intros Hx. unfold slice_init.
  assert (Hgen : safe (o ← query (fun h => Ok (deref h x));
                       match o with
                       | Some (OList xs) => new (OList (removelast xs))
                       | Some (OTuple xs) => new (OTuple (removelast xs))
                       | _ => raise TypeError
                       end) vowned).
  { eapply (safe_bind _ _ (fun o => forall o', o = Some o' -> Forall vowned (children o'))).
    - apply safe_query. intros h o Hh [= <-] o' Hd. by eapply deref_children.
    - intros [[items|xs|xs|w]|] Ho; try apply safe_raise.
      + apply safe_new. simpl. apply Forall_removelast. by apply (Ho (OList xs)).
      + apply safe_new. simpl. apply Forall_removelast. by apply (Ho (OTuple xs)). }
  destruct x; try done; by apply safe_ret.
Qed.

Lemma walk_owned fuel h key_list sub idxs v :
  inv h -> vowned sub ->
  foldM_o (walk_step fuel h key_list) sub idxs = Ok v -> vowned v.
Proof.
  intros Hh. revert sub. induction idxs as [|i idxs IH]; intros sub Hsub.
  - by intros [= <-].
  - rewrite foldM_o_cons. intros (sub1 & Hstep & Hrest)%obind_ok.
    apply obind_ok in Hstep as (k & _ & Hs).
    eapply IH; [|done]. by eapply py_getitem_owned.
Qed.

Lemma walk_prefix_owned fuel h key_list root v :
  inv h -> vowned root -> walk_prefix fuel h key_list root = Ok v -> vowned v.
Proof.
  intros Hh Hroot. rewrite walk_prefix_unfold.
  intros (n & _ & Hwalk)%obind_ok. by eapply walk_owned.
Qed.

Lemma safe_set_dict_entry fuel value key_list target_dict mode :
  vowned value -> vowned target_dict ->
  safe (set_dict_entry fuel value key_list target_dict mode) vowned.
Proof.
  intros Hv Ht. unfold set_dict_entry.
  eapply safe_bind; [apply safe_isinstance|]. intros [] _; [|apply safe_raise].
  eapply (safe_bind _ _ vowned).
  { apply safe_query. intros h v Hh. by apply walk_prefix_owned. }
  intros sub Hsub.
  eapply safe_bind; [apply safe_getitem_any|]. intros last _.
  eapply safe_bind; [apply safe_contains|]. intros [] _.
  - eapply (safe_bind _ _ vowned).
    { apply safe_query. intros h v Hh [= <-]. by apply pure_value_owned. }
    intros pure Hpure.
    eapply safe_bind; [by apply safe_setitem|]. intros _ _. by apply safe_ret.
  - destruct (String.eqb mode "strict"); [apply safe_raise|].
    eapply safe_bind; [apply safe_print|]. intros _ _. by apply safe_ret.
Qed.

Lemma mapM_o_Forall {A B} (f : A -> outcome B) (P : B -> Prop) xs ys :
  (forall x y, x ∈ xs -> f x = Ok y -> P y) -> mapM_o f xs = Ok ys -> Forall P ys.
Proof.
  revert ys. induction xs as [|x xs IH]; intros ys Hf; simpl.
  - by intros [= <-].
  - intros (y & Hy & Hrest)%obind_ok. apply obind_ok in Hrest as (ys' & Hys' & [= <-]).
    constructor.
    + eapply Hf; [left|done].
    + apply IH; [|done]. intros x' y' Hin. apply Hf. by right.
Qed.

Lemma elements_owned h v : inv h -> vowned v -> Forall vowned (elements h v).
Proof.
  intros Hh Hv. unfold elements.
  destruct (deref h v) as [[items|xs|xs|w]|] eqn:Hd; try done.
  - by apply (deref_children h v (OList xs)).
  - by apply (deref_children h v (OTuple xs)).
Qed.

Lemma fan_out_values_owned fuel h gui_values idx vs :
  inv h -> vowned gui_values ->
  fan_out_values fuel h gui_values idx = Ok vs -> Forall vowned vs.
Proof.
  intros Hh Hg. unfold fan_out_values. apply mapM_o_Forall.
  intros j y _ (value & Hvalue & [= <-])%obind_ok.
  apply pure_value_owned; [done|].
  destruct (py_getitem fuel h gui_values j) as [v|[]|] eqn:Hj; try done.
  - injection Hvalue as <-. by eapply py_getitem_owned.
  - by eapply py_getitem_owned.
Qed.

Lemma safe_transfer_path fuel sim_names gui_values multi_variable a i :
  vowned sim_names -> vowned gui_values -> vowned (sub_dict a) ->
  safe (transfer_path fuel sim_names gui_values multi_variable a i)
       (fun a' => vowned (sub_dict a')).
Proof.
  intros Hs Hg Ha. unfold transfer_path.
  eapply safe_bind; [by apply safe_getitem|]. intros sim_name_list Hp.
  eapply safe_bind; [by apply safe_getitem|]. intros last Hlast.
  eapply safe_bind; [apply safe_isinstance|]. intros [] _.
  - eapply safe_bind; [by apply safe_slice_init|]. intros pure_name_list Hpn.
    eapply (safe_bind _ _ (Forall vowned)).
    { apply safe_query. intros h vs Hh. by apply fan_out_values_owned. }
    intros value_list Hvl.
    eapply safe_bind; [by apply safe_new|]. intros vl Hvl'.
    eapply safe_bind; [by apply safe_set_dict_entry|]. intros sub Hsub.
    by apply safe_ret.
  - eapply (safe_bind _ _ vowned).
    { destruct multi_variable; by apply safe_getitem. }
    intros gui_value Hgv.
    eapply safe_bind; [by apply safe_set_dict_entry|]. intros sub Hsub.
    by apply safe_ret.
Qed.

Lemma safe_transfer_entry fuel target_name_key value_key copy names gui_entry :
  vowned copy -> vowned gui_entry ->
  safe (transfer_entry fuel target_name_key value_key copy names gui_entry)
       (fun _ => True).
Proof.
  intros Hc He. unfold transfer_entry.
  eapply safe_bind; [by apply safe_getitem|]. intros sim_names0 Hs0.
  eapply safe_bind; [by apply safe_ensure_list|]. intros sim_names Hs.
  eapply safe_bind; [by apply safe_getitem|]. intros first Hfirst.
  eapply safe_bind; [apply safe_isinstance|]. intros [] _.
  - eapply safe_bind; [by apply safe_getitem|]. intros raw Hraw.
    eapply safe_bind; [by apply safe_ensure_list|]. intros gui_values Hgv.
    eapply safe_bind; [apply safe_len|]. intros n1 _.
    eapply safe_bind; [apply safe_len|]. intros n2 _.
    eapply safe_bind.
    { apply (safe_for_fold _ (fun a => vowned (sub_dict a))); [done|].
      intros a i Ha. by apply safe_transfer_path. }
    intros a _. by apply safe_ret.
  - eapply safe_bind; [apply safe_contains|]. intros [] _; [|by apply safe_ret].
    eapply safe_bind; [by apply safe_getitem|]. intros value Hvalue.
    eapply safe_bind; [by apply safe_set_dict_entry|]. intros _ _.
    by apply safe_ret.
Qed.

Lemma Forall_concat {A} (P : A -> Prop) (xss : list (list A)) :
  Forall (Forall P) xss -> Forall P (concat xss).
Proof.
  induction 1 as [|xs xss Hxs _ IH]; simpl; [done|]. by apply Forall_app.
Qed.

Lemma gen_dict_extract_owned fuel key h var rs :
  inv h -> vowned var -> gen_dict_extract fuel key h var = Ok rs -> Forall vowned rs.
Proof.
  intros Hh. revert var rs. induction fuel as [|n IH]; intros var rs Hvar; [done|].
  simpl. destruct (deref h var) as [[items|xs|xs|w]|] eqn:Hd.
  - intros (rss & Hrss & [= <-])%obind_ok. apply Forall_concat.
    pose proof (deref_children _ _ _ Hh Hvar Hd) as Hch. simpl in Hch.
    rewrite Forall_forall in Hch.
    eapply mapM_o_Forall; [|exact Hrss].
    intros [k v] y Hin (inner & Hinner & [= <-])%obind_ok.
    assert (Hv : vowned v).
    { apply Hch. apply list_elem_of_fmap. by exists (k, v). }
    apply Forall_app. split; [by destruct (String.eqb k key); constructor|].
    destruct (is_dict h v); [by eapply IH|].
    destruct (is_list h v); [|by injection Hinner as <-].
    apply obind_ok in Hinner as (rss' & Hrss' & [= <-]). apply Forall_concat.
    eapply mapM_o_Forall; [|exact Hrss'].
    intros x y Hx Hy. eapply IH; [|done].
    pose proof (elements_owned _ _ Hh Hv) as He. rewrite Forall_forall in He. by apply He.
  - intros (rss & Hrss & [= <-])%obind_ok. apply Forall_concat.
    pose proof (deref_children _ _ _ Hh Hvar Hd) as Hch. simpl in Hch.
    rewrite Forall_forall in Hch.
    eapply mapM_o_Forall; [|exact Hrss].
    intros x y Hx Hy. eapply IH; [|done]. by apply Hch.
  - intros (rss & Hrss & [= <-])%obind_ok. apply Forall_concat.
    pose proof (deref_children _ _ _ Hh Hvar Hd) as Hch. simpl in Hch.
    rewrite Forall_forall in Hch.
    eapply mapM_o_Forall; [|exact Hrss].
    intros x y Hx Hy. eapply IH; [|done]. by apply Hch.
  - by intros [= <-].
  - by intros [= <-].
Qed.

Lemma safe_for_fold_Forall {S A} (body : S -> A -> M S) (P : S -> Prop)
      (R : A -> Prop) a xs :
  P a -> Forall R xs -> (forall a x, P a -> R x -> safe (body a x) P) ->
  safe (for_fold body a xs) P.
Proof.
  intros Ha Hxs Hbody. revert a Ha.
  induction Hxs as [|x xs Hx _ IH]; intros a Ha; simpl.
  - by apply safe_ret.
  - eapply safe_bind; [by apply Hbody|]. intros a1 Ha1. by apply IH.
Qed.

(** *** The deep copy *)

Lemma memo_ok_insert m l y : memo_ok m -> owned y -> memo_ok (<[l := y]> m).
Proof.
  intros Hm Hy l' y'. rewrite lookup_insert_Some.
  intros [[_ <-]|[_ Hl']]; [done|]. by eapply Hm.
Qed.

Lemma safe_copy_all {A B} (copy : memo -> A -> M (B * memo)) (PB : B -> Prop) m xs :
  memo_ok m ->
  (forall m x, memo_ok m -> safe (copy m x) (fun r => PB r.1 /\ memo_ok r.2)) ->
  safe (copy_all copy m xs) (fun r => Forall PB r.1 /\ memo_ok r.2).
Proof.
  intros Hm Hcopy. revert m Hm. induction xs as [|x xs IH]; intros m Hm; simpl.
  - by apply safe_ret.
  - eapply safe_bind; [by apply Hcopy|]. intros [y m1] [Hy Hm1].
    eapply safe_bind; [by apply IH|]. intros [ys m2] [Hys Hm2].
    apply safe_ret. split; [by constructor|done].
Qed.

Lemma safe_deepcopy_rec fuel m x :
  memo_ok m -> safe (deepcopy_rec fuel m x) (fun r => vowned r.1 /\ memo_ok r.2).
Proof.
  revert m x. induction fuel as [|n IH]; intros m x Hm.
  - destruct x as [| | |l]; simpl; try (by apply safe_ret).
    destruct (m !! l) as [y|] eqn:Hml; [|apply safe_abort].
    apply safe_ret. split; [by eapply Hm|done].
  - destruct x as [| | |l]; simpl; try (by apply safe_ret).
    destruct (m !! l) as [y|] eqn:Hml.
    { apply safe_ret. split; [by eapply Hm|done]. }
    eapply (safe_bind _ _ (fun o => o = None -> length h0 <= l)).
    { apply safe_query. intros h o (Hlen & _) [= <-] Hnone.
      apply lookup_ge_None in Hnone. lia. }
    intros [[items|xs|xs|w]|] Ho.
    + eapply safe_bind; [by apply safe_new_loc|]. intros y Hy.
      eapply safe_bind.
      { apply (safe_copy_all _ (fun kv : string * val => vowned kv.2));
          [by apply memo_ok_insert|].
        intros m1 [k v] Hm1.
        eapply safe_bind; [by apply IH|]. intros [v' m2] [Hv' Hm2]. by apply safe_ret. }
      intros [ys m'] [Hys Hm'].
      eapply safe_bind.
      { apply safe_store; [done|]. simpl. by apply Forall_fmap. }
      intros _ _. by apply safe_ret.
    + eapply safe_bind; [by apply safe_new_loc|]. intros y Hy.
      eapply safe_bind.
      { apply (safe_copy_all _ vowned); [by apply memo_ok_insert|]. apply IH. }
      intros [ys m'] [Hys Hm'].
      eapply safe_bind; [by apply safe_store|].
      intros _ _. by apply safe_ret.
    + eapply safe_bind.
      { apply (safe_copy_all _ vowned); [done|]. apply IH. }
      intros [ys m'] [Hys Hm'].
      destruct (m' !! l) as [y'|] eqn:Hml'.
      { apply safe_ret. split; [by eapply Hm'|done]. }
      eapply safe_bind; [by apply safe_new_loc|]. intros y Hy.
      apply safe_ret. split; [done|by apply memo_ok_insert].
    + eapply safe_bind; [apply safe_new_loc; by repeat constructor|]. intros y Hy.
      eapply safe_bind; [apply IH; by apply memo_ok_insert|].
      intros [v' m'] [Hv' Hm'].
      eapply safe_bind.
      { apply safe_store; [done|]. simpl. by constructor. }
      intros _ _. by apply safe_ret.
    + apply safe_ret. split; [|done]. right. by apply Ho.
Qed.

Lemma safe_deepcopy fuel x : safe (deepcopy fuel x) vowned.
Proof.
  unfold deepcopy. eapply safe_bind; [by apply safe_deepcopy_rec|].
  intros [y m] [Hy _]. by apply safe_ret.
Qed.

Lemma safe_dict_transfer fuel source target target_name_key value_key :
  vowned source ->
  safe (dict_transfer fuel source target target_name_key value_key) (fun _ => True).
Proof.
  intros Hs. unfold dict_transfer.
  eapply safe_bind; [apply safe_deepcopy|]. intros copy Hcopy.
  eapply (safe_bind _ _ (Forall vowned)).
  { apply safe_query. intros h rs Hh. by apply gen_dict_extract_owned. }
  intros entries Hentries.
  eapply safe_bind.
  { apply (safe_for_fold_Forall _ (fun _ => True) vowned); [done..|].
    intros names e _ He. by apply safe_transfer_entry. }
  intros names _. by apply safe_ret.
Qed.
End frame.

Lemma mapM_option_frame {A B} (f g : A -> option B) xs ys :
  (forall x y, x ∈ xs -> f x = Some y -> g x = Some y) ->
  mapM f xs = Some ys -> mapM g xs = Some ys.
Proof.
  revert ys. induction xs as [|x xs IH]; intros ys Hfg; simpl; [done|].
  destruct (f x) as [y|] eqn:Hy; simpl; [|done].
  rewrite (Hfg x y); [|left|done]. simpl.
  destruct (mapM f xs) as [ys'|] eqn:Hys; simpl; [|done].
  rewrite (IH ys'); [done| |done]. intros x' y' Hin. apply Hfg. by right.
Qed.

(** What is read of a structure only depends on the objects that can be
    reached from it. *)
Lemma snapshot_frame h h' n v t :
  (forall l o, reach h v l -> h !! l = Some o -> h' !! l = Some o) ->
  snapshot n h v = Some t -> snapshot n h' v = Some t.
Proof.
  revert v t. induction n as [|n IH]; intros v t Hfr; destruct v as [| | |l]; try done.
  simpl. destruct (h !! l) as [o|] eqn:Hl; [|done].
  rewrite (Hfr l o (reach_here _ _) Hl).
  assert (Hsub : forall x t', x ∈ children o -> snapshot n h x = Some t' ->
                              snapshot n h' x = Some t').
  { intros x t' Hx. apply IH. intros l' o' Hr. apply Hfr. by eapply reach_step. }
  destruct o as [items|xs|xs|w]; simpl in Hsub.
  - destruct (mapM _ items) as [ts|] eqn:Hts; [|done].
    erewrite mapM_option_frame; [done| |exact Hts].
    intros [k x] [k' t'] Hin. simpl.
    destruct (snapshot n h x) as [tx|] eqn:Hx; [|done].
    rewrite (Hsub x tx); [done| |done].
    apply list_elem_of_fmap. by exists (k, x).
  - destruct (mapM _ xs) as [ts|] eqn:Hts; [|done].
    by erewrite mapM_option_frame; [| |exact Hts].
  - destruct (mapM _ xs) as [ts|] eqn:Hts; [|done].
    by erewrite mapM_option_frame; [| |exact Hts].
  - destruct (snapshot n h w) as [tw|] eqn:Hw; [|done].
    rewrite (Hsub w tw); [done| |done]. set_solver.
Qed.



Lemma split_from_ok k h l o l' :
  split_from k 0 h = true -> h !! l = Some o -> VRef l' ∈ children o ->
  (l < k <-> l' < k).
Proof.
  assert (Hgen : forall h b, split_from k b h = true ->
                             forall l, h !! l = Some o -> VRef l' ∈ children o ->
                                       (b + l < k <-> l' < k)).
  { clear h l. induction h as [|o1 h IH]; intros b Hc l Hl Hin; [done|].
    simpl in Hc. apply andb_true_iff in Hc as [Ho Hrest].
    destruct l as [|l]; simpl in Hl.
    - injection Hl as ->. rewrite forallb_forall in Ho.
      apply list_elem_of_In in Hin. specialize (Ho _ Hin). simpl in Ho.
      apply Bool.eqb_prop in Ho. rewrite Nat.add_0_r.
      rewrite <- !Nat.ltb_lt. by rewrite Ho.
    - specialize (IH _ Hrest _ Hl Hin). by rewrite <- Nat.add_succ_comm. }
  intros Hc Hl Hin. by apply (Hgen h 0 Hc l).
Qed.

Lemma reach_side k h l l' :
  split_from k 0 h = true -> reach h (VRef l) l' -> (l < k <-> l' < k).
Proof.
  intros Hc Hr. remember (VRef l) as v eqn:Hv. revert l Hv.
  induction Hr as [l0|l0 o v l' Hl0 Hin Hr' IH]; intros l [= ->]; [done|].
  destruct v as [| | |l1]; try (by inversion Hr').
  etrans; [by eapply (split_from_ok k h l o l1)|]. by apply IH.
Qed.


(** Writes can land in the source: the dictionary [{'k': 0}] of the source is
    stored at ['x'] of the copy and the second element writes 5 into it.  The
    target is left as it was. *)
Example source_written_through_copy :
  exists r s',
    dict_transfer 10 (VRef 5) (VRef 6) "sim_name" "value" (State written_source_heap [])
    = Done r s' /\
    snapshot 10 (st_heap s') (VRef 6) = Some (TDict [("x", TInt 0)]) /\
    snapshot 10 (st_heap s') r.1 = Some (TDict [("x", TDict [("k", TInt 5)])]) /\
    snapshot 10 written_source_heap (VRef 1) = Some (TDict [("k", TInt 0)]) /\
    snapshot 10 (st_heap s') (VRef 1) = Some (TDict [("k", TInt 5)]).
Proof. eexists _, _. split; [vm_compute; reflexivity|]. repeat split. Qed.

(** * Further properties of the module *)

(** ** What [gen_dict_extract] yields *)

Lemma is_dict_true h v :
  is_dict h v = true -> exists l items, v = VRef l /\ h !! l = Some (ODict items).
Proof.
  unfold is_dict, deref. destruct v as [| | |l]; try done.
  destruct (h !! l) as [[items| | |]|] eqn:Hl; try done. by exists l, items.
Qed.

Lemma is_list_true h v :
  is_list h v = true -> exists l xs, v = VRef l /\ h !! l = Some (OList xs).
Proof.
  unfold is_list, deref. destruct v as [| | |l]; try done.
  destruct (h !! l) as [[|xs| |]|] eqn:Hl; try done. by exists l, xs.
Qed.

Lemma elem_of_concat {A} (x : A) (xss : list (list A)) :
  x ∈ concat xss <-> exists xs, xs ∈ xss /\ x ∈ xs.
Proof.
  rewrite list_elem_of_In, in_concat. split.
  - intros (xs & H1 & H2). exists xs. by rewrite !list_elem_of_In.
  - intros (xs & H1 & H2). exists xs. by rewrite <- !list_elem_of_In.
Qed.

Lemma inside_member h l o v l' :
  h !! l = Some o -> v ∈ members o -> inside h v l' -> inside h (VRef l) l'.
Proof. intros. by eapply inside_step. Qed.

Lemma inside_trans h v l l' : inside h v l -> inside h (VRef l) l' -> inside h v l'.
Proof.
  induction 1 as [l|l0 o v l Hl0 Hv _ IH]; [done|].
  intros Hl'. eapply inside_step; [done..|]. by apply IH.
Qed.

Lemma gen_dict_extract_yields
      (fuel : nat) (key : string) (h : heap) (var : val) (rs : list val) :
  gen_dict_extract fuel key h var = Ok rs ->
  Forall (fun r => exists l items,
              r = VRef l /\ inside h var l /\
              h !! l = Some (ODict items) /\ dict_mem key items = true) rs.
Proof.
  revert var rs. induction fuel as [|n IH]; intros var rs; [done|].
  simpl. destruct (deref h var) as [[items|xs|xs|w]|] eqn:Hd;
    try (by intros [= <-]); destruct var as [| | |l0]; try done; simpl in Hd.
  - intros (rss & Hrss & [= <-])%obind_ok. apply Forall_concat.
    eapply mapM_o_Forall; [|exact Hrss].
    intros [k v] y Hin (inner & Hinner & [= <-])%obind_ok.
    assert (Hv : v ∈ members (ODict items)).
    { simpl. apply list_elem_of_fmap. by exists (k, v). }
    apply Forall_app. split.
    + destruct (String.eqb_spec k key) as [->|_]; [|constructor].
      repeat constructor. exists l0, items. split_and!; [done|constructor|done|].
      apply dict_mem_keys, list_elem_of_fmap. by exists (key, v).
    + assert (Hlift : forall d rs', (forall l', inside h d l' -> inside h v l') ->
                 Forall (fun r => exists l items0, r = VRef l /\ inside h d l /\
                             h !! l = Some (ODict items0) /\ dict_mem key items0 = true) rs' ->
                 Forall (fun r => exists l items0, r = VRef l /\ inside h (VRef l0) l /\
                             h !! l = Some (ODict items0) /\ dict_mem key items0 = true) rs').
      { intros d rs' Hd' Hrs'. eapply Forall_impl; [exact Hrs'|].
        intros r (l & it & -> & Hins & Hl & Hm).
        exists l, it. split_and!; [done| |done..].
        eapply inside_step; [done..|]. by apply Hd'. }
      destruct (is_dict h v); [apply (Hlift v); [done|by apply IH]|].
      destruct (is_list h v) eqn:Hlist; [|injection Hinner as <-; constructor].
      apply obind_ok in Hinner as (rss' & Hrss' & [= <-]). apply Forall_concat.
      apply is_list_true in Hlist as (lv & ys & -> & Hlv).
      eapply mapM_o_Forall; [|exact Hrss'].
      intros d y Hd' Hy. apply (Hlift d); [|by apply IH].
      intros l' Hl'. eapply inside_step; [done| |done].
      unfold elements in Hd'. simpl in Hd'. by rewrite Hlv in Hd'.
  - intros (rss & Hrss & [= <-])%obind_ok. apply Forall_concat.
    eapply mapM_o_Forall; [|exact Hrss]. intros d y Hd' Hy.
    eapply Forall_impl; [by apply IH|]. intros r (l & it & -> & Hins & Hl & Hm).
    exists l, it. split_and!; [done| |done..]. by eapply inside_step.
  - intros (rss & Hrss & [= <-])%obind_ok. apply Forall_concat.
    eapply mapM_o_Forall; [|exact Hrss]. intros d y Hd' Hy.
    eapply Forall_impl; [by apply IH|]. intros r (l & it & -> & Hins & Hl & Hm).
    exists l, it. split_and!; [done| |done..]. by eapply inside_step.
Qed.

(** X1: whatever the heap, and whatever else the call meets on its way,
    everything [gen_dict_extract(key, var)] yields is a dictionary that lies
    inside [var] (it is [var] or is held by it at some depth of dictionaries,
    lists and tuples) and has the key. *)
Theorem gen_dict_extract_sound
        (fuel : nat) (key : string) (h : heap) (var : val) (rs : list val) :
  gen_dict_extract fuel key h var = Ok rs ->
  Forall (fun r => exists l items,
              r = VRef l /\ inside h var l /\
              h !! l = Some (ODict items) /\ dict_mem key items = true) rs.
Proof. apply gen_dict_extract_yields. Qed.

Lemma gen_dict_extract_sound_witness :
  Forall (fun r => exists l items,
              r = VRef l /\ inside remove_key_heap (VRef 4) l /\
              remove_key_heap !! l = Some (ODict items) /\ dict_mem "c" items = true)
         [VRef 1; VRef 0; VRef 2].
Proof.
  apply (gen_dict_extract_sound 6 "c" remove_key_heap (VRef 4) [VRef 1; VRef 0; VRef 2]).
  reflexivity.
Defined.

Lemma mapM_o_total {A B} (f : A -> outcome B) (P : A -> B -> Prop) xs :
  (forall x, x ∈ xs -> exists y, f x = Ok y /\ P x y) ->
  exists ys, mapM_o f xs = Ok ys /\ Forall2 P xs ys.
Proof.
  induction xs as [|x xs IH]; intros Hf.
  - exists []. split; [done|constructor].
  - destruct (Hf x) as (y & Hy & HP); [left|].
    destruct IH as (ys & Hys & HF); [intros x' Hx'; apply Hf; by right|].
    exists (y :: ys). split; [|by constructor]. simpl. by rewrite Hy, Hys.
Qed.

Lemma Forall2_elem_l {A B} (P : A -> B -> Prop) xs ys x :
  Forall2 P xs ys -> x ∈ xs -> exists y, y ∈ ys /\ P x y.
Proof.
  induction 1 as [|x' y' xs ys HP _ IH]; [by intros ?%elem_of_nil|].
  intros [->|Hx]%elem_of_cons.
  - exists y'. split; [left|done].
  - destruct (IH Hx) as (y & Hy & HPy). exists y. split; [by right|done].
Qed.

Lemma no_tuple_values_member h l0 o v :
  h !! l0 = Some o -> v ∈ members o ->
  no_tuple_values h (VRef l0) -> no_tuple_values h v.
Proof.
  intros Hl0 Hv Hnt l items w Hin. apply Hnt. by eapply inside_step.
Qed.

Section extract_complete.
Variables (rk : loc -> nat) (key : string) (h : heap).
Hypothesis h_nested : nested rk h.

#[local] Abbreviation found := (extract_found key h).

Lemma gen_dict_extract_seq n l0 o :
  (forall var, fuel_for rk var <= n ->
               exists rs, gen_dict_extract n key h var = Ok rs /\ found var rs) ->
  h !! l0 = Some o -> (forall items, o <> ODict items) -> S (rk l0) <= n ->
  exists rs, (rss ← mapM_o (gen_dict_extract n key h) (members o); Ok (concat rss)) = Ok rs /\
             found (VRef l0) rs.
Proof.
  intros IH Hl0 Hnd Hfuel.
  destruct (mapM_o_total (gen_dict_extract n key h) found (members o)) as (rss & Hrss & HF).
  { intros d Hd. apply IH. by eapply fuel_for_member. }
  exists (concat rss). split; [by rewrite Hrss|].
  intros Hnt l items Hin Hl Hm.
  inversion Hin as [l1|l1 o' d l' Hl1 Hd Hin']; subst.
  - rewrite Hl0 in Hl. injection Hl as ->. by destruct (Hnd items).
  - rewrite Hl0 in Hl1. injection Hl1 as <-.
    destruct (Forall2_elem_l _ _ _ _ HF Hd) as (y & Hy & Hfound).
    apply elem_of_concat. exists y. split; [done|].
    eapply Hfound; [|done..].
    by apply (no_tuple_values_member h l0 o).
Qed.

Lemma gen_dict_extract_returns_found fuel var :
  fuel_for rk var <= fuel ->
  exists rs, gen_dict_extract fuel key h var = Ok rs /\ found var rs.
Proof.
  revert var. induction fuel as [|n IH]; intros var Hf.
  { destruct var; simpl in Hf; lia. }
  simpl. destruct (deref h var) as [[items|xs|xs|w]|] eqn:Hd.
  - destruct var as [| | |l0]; try done. simpl in Hd, Hf.
    destruct (mapM_o_total
                (fun '(k, v) =>
                   inner ← (if is_dict h v then gen_dict_extract n key h v
                            else if is_list h v then
                                   rs ← mapM_o (gen_dict_extract n key h) (elements h v);
                                   Ok (concat rs)
                                 else Ok []);
                   Ok ((if String.eqb k key then [VRef l0] else []) ++ inner))
                (fun kv y => (kv.1 = key -> VRef l0 ∈ y) /\
                             (is_tuple h kv.2 = false -> found kv.2 y))
                items) as (rss & Hrss & HF).
    { intros [k v] Hin.
      assert (Hv : v ∈ members (ODict items)).
      { simpl. apply list_elem_of_fmap. by exists (k, v). }
      assert (Hfv : fuel_for rk v <= n) by (eapply fuel_for_member; [done..|lia]).
      assert (Hinner : exists inner,
                 (if is_dict h v then gen_dict_extract n key h v
                  else if is_list h v then
                         rs ← mapM_o (gen_dict_extract n key h) (elements h v);
                         Ok (concat rs)
                       else Ok []) = Ok inner /\
                 (is_tuple h v = false -> found v inner)).
      { destruct (is_dict h v) eqn:Hdv.
        { destruct (IH v Hfv) as (rs & Hrs & Hfound). by exists rs. }
        destruct (is_list h v) eqn:Hlv.
        { apply is_list_true in Hlv as (lv & ys & -> & Hlv).
          destruct (gen_dict_extract_seq n lv (OList ys)) as (rs & Hrs & Hfound);
            [done|done|done|simpl in Hfv; lia|].
          exists rs. split; [|done]. unfold elements. simpl. by rewrite Hlv. }
        exists []. split; [done|]. intros Htv _ l its Hin' Hl _.
        inversion Hin' as [l1|l1 o' d l' Hl1 Hd' _]; subst.
        - unfold is_dict in Hdv. simpl in Hdv. by rewrite Hl in Hdv.
        - unfold is_dict, is_list, is_tuple in *. simpl in *. rewrite Hl1 in *.
          destruct o'; try done. by apply elem_of_nil in Hd'. }
      destruct Hinner as (inner & -> & Hfound). eexists. split; [done|].
      split; [|intros Htv Hnt l its Hin' Hl Hm; apply elem_of_app; right; by eapply Hfound].
      simpl. intros ->. rewrite String.eqb_refl. apply elem_of_app. left. left. }
    exists (concat rss). split; [by rewrite Hrss|].
    intros Hnt l its Hin Hl Hm.
    inversion Hin as [l1|l1 o' v l' Hl1 Hv Hin']; subst.
    + rewrite Hd in Hl. injection Hl as <-.
      apply dict_mem_keys, list_elem_of_fmap in Hm as ([k v] & Hk & Hkv). simpl in Hk.
      destruct (Forall2_elem_l _ _ _ _ HF Hkv) as (y & Hy & Hhere & _).
      apply elem_of_concat. exists y. split; [done|]. by apply Hhere.
    + rewrite Hd in Hl1. injection Hl1 as <-. simpl in Hv.
      apply list_elem_of_fmap in Hv as ([k v'] & -> & Hkv).
      destruct (Forall2_elem_l _ _ _ _ HF Hkv) as (y & Hy & _ & Hfound).
      apply elem_of_concat. exists y. split; [done|]. simpl in *.
      eapply Hfound; [| |done..].
      * eapply (Hnt l0 items); [constructor|done|].
        apply list_elem_of_fmap. by exists (k, v').
      * eapply (no_tuple_values_member h l0 (ODict items)); [done| |done].
        simpl. apply list_elem_of_fmap. by exists (k, v').
  - destruct var as [| | |l0]; try done. simpl in Hd, Hf.
    apply (gen_dict_extract_seq n l0 (OList xs)); [done..|lia].
  - destruct var as [| | |l0]; try done. simpl in Hd, Hf.
    apply (gen_dict_extract_seq n l0 (OTuple xs)); [done..|lia].
  - exists []. split; [done|]. intros _ l its Hin Hl _.
    inversion Hin as [l1|l1 o' d l' Hl1 Hd' _]; subst; simpl in Hd.
    + by rewrite Hl in Hd.
    + rewrite Hl1 in Hd. injection Hd as ->. by apply elem_of_nil in Hd'.
  - exists []. split; [done|]. intros _ l its Hin Hl _.
    inversion Hin as [l1|l1 o' d l' Hl1 Hd' _]; subst; simpl in Hd.
    + by rewrite Hl in Hd.
    + by rewrite Hl1 in Hd.
Qed.
End extract_complete.

Lemma no_tuple_values_check_ok h var :
  no_tuple_values_check h = true -> no_tuple_values h var.
Proof.
  unfold no_tuple_values_check. rewrite forallb_forall. intros Hc l items v _ Hl Hv.
  apply list_elem_of_lookup_2, list_elem_of_In in Hl. specialize (Hc _ Hl). simpl in Hc.
  rewrite forallb_forall in Hc. apply list_elem_of_In in Hv. specialize (Hc _ Hv).
  by apply negb_true_iff in Hc.
Qed.

(** X2: on a properly nested heap in which no dictionary inside [var] has a
    tuple as a value, [gen_dict_extract(key, var)] returns (with enough fuel
    for the depth, without raising) and yields every dictionary inside [var]
    that has the key. *)
Theorem gen_dict_extract_complete
        (rk : loc -> nat) (key : string) (h : heap) (var : val) (fuel : nat) :
  nested rk h -> no_tuple_values h var -> fuel_for rk var <= fuel ->
  exists rs,
    gen_dict_extract fuel key h var = Ok rs /\
    forall l items,
      inside h var l -> h !! l = Some (ODict items) -> dict_mem key items = true ->
      VRef l ∈ rs.
Proof.
  intros Hn Hnt Hf.
  destruct (gen_dict_extract_returns_found rk key h Hn fuel var Hf) as (rs & Hrs & Hfound).
  exists rs. split; [done|]. by apply Hfound.
Qed.

Lemma gen_dict_extract_complete_witness :
  exists rs,
    gen_dict_extract 6 "c" remove_key_heap (VRef 4) = Ok rs /\
    forall l items,
      inside remove_key_heap (VRef 4) l -> remove_key_heap !! l = Some (ODict items) ->
      dict_mem "c" items = true -> VRef l ∈ rs.
Proof.
  apply (gen_dict_extract_complete (fun l => l) "c" remove_key_heap (VRef 4) 6).
  - apply nested_from_ok. reflexivity.
  - apply no_tuple_values_check_ok. reflexivity.
  - simpl. lia.
Defined.

(** ** [remove_key] and [gen_dict_extract] together *)

(** X3: in a properly nested heap whose dictionaries have each key once,
    [remove_key(key, var)] returns (with enough fuel for the depth), and
    after it [gen_dict_extract(key, var)] returns and yields nothing. *)
Theorem remove_key_then_extract
        (rk : loc -> nat) (key : string) (var : val) (s : state) (fuel : nat) :
  nested rk (st_heap s) -> keys_unique (st_heap s) -> fuel_for rk var <= fuel ->
  exists s',
    remove_key fuel key var s = Done () s' /\
    gen_dict_extract fuel key (st_heap s') var = Ok [].
Proof.
  intros Hn Hu Hf.
  destruct (remove_key_ok_all rk key fuel var s Hn Hu Hf) as (s' & Hrun & _ & Hp & _ & Hkf).
  exists s'. split; [done|].
  destruct (gen_dict_extract_returns_found rk key (st_heap s') (pruned_nested _ _ _ _ Hp Hn)
              fuel var Hf) as (rs & Hrs & _).
  rewrite Hrs. f_equal.
  apply gen_dict_extract_yields in Hrs.
  destruct rs as [|r rs]; [done|].
  apply Forall_cons in Hrs as [(l & items & _ & Hin & Hl & Hm) _].
  rewrite (Hkf l items Hin Hl) in Hm. done.
Qed.

Lemma remove_key_then_extract_witness :
  exists s',
    remove_key 6 "c" (VRef 4) (State remove_key_heap []) = Done () s' /\
    gen_dict_extract 6 "c" (st_heap s') (VRef 4) = Ok [].
Proof.
  apply (remove_key_then_extract (fun l => l) "c" (VRef 4) (State remove_key_heap []) 6).
  - apply nested_from_ok. reflexivity.
  - apply keys_unique_check_ok. reflexivity.
  - simpl. lia.
Defined.

(** ** What [remove_key] leaves alone *)

Lemma inside_dec rk h :
  nested rk h ->
  forall n v l, fuel_for rk v <= n -> inside h v l \/ ~ inside h v l.
Proof.
  intros Hn. induction n as [|n IH]; intros v l Hf.
  { destruct v; simpl in Hf; lia. }
  destruct v as [| | |l0]; try (right; by inversion 1).
  destruct (decide (l0 = l)) as [->|Hne]; [left; constructor|].
  destruct (h !! l0) as [o|] eqn:Hl0; [|right; inversion 1; congruence].
  assert (Hall : forall c, c ∈ members o -> inside h c l \/ ~ inside h c l).
  { intros c Hc. apply IH. simpl in Hf. eapply fuel_for_member; [done..|lia]. }
  assert (Hex : (exists c, c ∈ members o /\ inside h c l) \/
                (forall c, c ∈ members o -> ~ inside h c l)).
  { clear Hl0. induction (members o) as [|c cs IHcs].
    - right. by intros c ?%elem_of_nil.
    - destruct (Hall c) as [Hc|Hc]; [left|left; exists c; split; [left|done]|].
      destruct IHcs as [(c' & Hc' & Hin)|Hno].
      + intros c' Hc'. apply Hall. by right.
      + left. exists c'. split; [by right|done].
      + right. intros c' [->|Hc']%elem_of_cons; [done|by apply Hno]. }
  destruct Hex as [(c & Hc & Hin)|Hno].
  - left. by eapply inside_step.
  - right. inversion 1 as [|l1 o' c l' Hl1 Hc Hin]; subst; [done|].
    rewrite Hl0 in Hl1. injection Hl1 as <-. by eapply Hno.
Qed.

(** X4: in a properly nested heap whose dictionaries have each key once,
    [remove_key(key, var)] deletes nothing but entries under [key] of
    dictionaries inside [var]: it returns, and afterwards every object of the
    heap is as it was, or is a dictionary inside [var] that holds its former
    entries other than those under [key], in their order. *)
Theorem remove_key_only_deletes_key
        (rk : loc -> nat) (key : string) (var : val) (s : state) (fuel : nat) :
  nested rk (st_heap s) -> keys_unique (st_heap s) -> fuel_for rk var <= fuel ->
  exists s',
    remove_key fuel key var s = Done () s' /\
    forall l,
      st_heap s' !! l = st_heap s !! l \/
      (inside (st_heap s) var l /\
       exists items,
         st_heap s !! l = Some (ODict items) /\
         st_heap s' !! l = Some (ODict (filter (fun kv => kv.1 <> key) items))).
Proof.
  intros Hn Hu Hf.
  destruct (remove_key_ok_all rk key fuel var s Hn Hu Hf) as (s' & Hrun & _ & Hp & Hfr & _).
  exists s'. split; [done|]. intros l.
  destruct (inside_dec rk (st_heap s) Hn fuel var l Hf) as [Hin|Hout].
  - destruct (Hp l) as [E|(items & Hl & Hl')]; [by left|].
    right. split; [done|]. by exists items.
  - left. by apply Hfr.
Qed.

Lemma remove_key_only_deletes_key_witness :
  exists s',
    remove_key 6 "c" (VRef 4) (State remove_key_heap []) = Done () s' /\
    forall l,
      st_heap s' !! l = remove_key_heap !! l \/
      (inside remove_key_heap (VRef 4) l /\
       exists items,
         remove_key_heap !! l = Some (ODict items) /\
         st_heap s' !! l = Some (ODict (filter (fun kv => kv.1 <> "c") items))).
Proof.
  apply (remove_key_only_deletes_key (fun l => l) "c" (VRef 4) (State remove_key_heap []) 6).
  - apply nested_from_ok. reflexivity.
  - apply keys_unique_check_ok. reflexivity.
  - simpl. lia.
Defined.

Lemma remove_key_key_free rk key var s fuel :
  nested rk (st_heap s) -> keys_unique (st_heap s) -> fuel_for rk var <= fuel ->
  key_free key (st_heap s) var ->
  remove_key fuel key var s = Done () s.
Proof.
  intros Hn Hu Hf Hkf.
  destruct (remove_key_ok_all rk key fuel var s Hn Hu Hf) as (s' & Hrun & Hout & Hp & Hfr & _).
  rewrite Hrun. f_equal. destruct s as [h out], s' as [h' out']. simpl in *.
  f_equal; [|done]. apply list_eq. intros l.
  destruct (inside_dec rk h Hn fuel var l Hf) as [Hin|Hnin]; [|by apply Hfr].
  destruct (Hp l) as [E|(items & Hl & Hl')]; [done|].
  rewrite Hl, Hl'. do 2 f_equal. apply without_id.
  rewrite <- dict_mem_keys. rewrite (Hkf l items Hin Hl). done.
Qed.

(** X5: in a properly nested heap whose dictionaries have each key once,
    where no dictionary inside [var] has the key, [remove_key(key, var)]
    returns and changes nothing. *)
Theorem remove_key_absent_key
        (rk : loc -> nat) (key : string) (var : val) (s : state) (fuel : nat) :
  nested rk (st_heap s) -> keys_unique (st_heap s) -> fuel_for rk var <= fuel ->
  (forall l items, inside (st_heap s) var l -> st_heap s !! l = Some (ODict items) ->
                   dict_mem key items = false) ->
  remove_key fuel key var s = Done () s.
Proof. apply remove_key_key_free. Qed.

Lemma remove_key_absent_key_witness :
  remove_key 6 "z" (VRef 4) (State remove_key_heap []) = Done () (State remove_key_heap []).
Proof.
  apply (remove_key_absent_key (fun l => l) "z" (VRef 4) (State remove_key_heap []) 6).
  - apply nested_from_ok. reflexivity.
  - apply keys_unique_check_ok. reflexivity.
  - simpl. lia.
  - intros l items _ Hl. simpl in Hl.
    do 5 (destruct l as [|l]; [try discriminate Hl; injection Hl as <-; reflexivity|]).
    discriminate Hl.
Defined.

(** X6: [remove_key] is idempotent: in a properly nested heap whose
    dictionaries have each key once, after [remove_key(key, var)] has
    returned, a second call with the same arguments returns and changes
    nothing. *)
Theorem remove_key_idempotent
        (rk : loc -> nat) (key : string) (var : val) (s : state) (fuel : nat) :
  nested rk (st_heap s) -> keys_unique (st_heap s) -> fuel_for rk var <= fuel ->
  exists s',
    remove_key fuel key var s = Done () s' /\
    remove_key fuel key var s' = Done () s'.
Proof.
  intros Hn Hu Hf.
  destruct (remove_key_ok_all rk key fuel var s Hn Hu Hf) as (s' & Hrun & _ & Hp & _ & Hkf).
  exists s'. split; [done|].
  apply (remove_key_key_free rk); [|by eapply pruned_unique|done..].
  by eapply pruned_nested.
Qed.

Lemma remove_key_idempotent_witness :
  exists s',
    remove_key 6 "c" (VRef 4) (State remove_key_heap []) = Done () s' /\
    remove_key 6 "c" (VRef 4) s' = Done () s'.
Proof.
  apply (remove_key_idempotent (fun l => l) "c" (VRef 4) (State remove_key_heap []) 6).
  - apply nested_from_ok. reflexivity.
  - apply keys_unique_check_ok. reflexivity.
  - simpl. lia.
Defined.

(** ** Paths: [get_dict_entry] and [set_dict_entry] *)

Lemma foldM_o_app {S A} (f : S -> A -> outcome S) s xs ys :
  foldM_o f s (xs ++ ys) = (s1 ← foldM_o f s xs; foldM_o f s1 ys).
Proof.
  revert s. induction xs as [|x xs IH]; intros s; simpl; [done|].
  destruct (f s x) as [s1| |]; simpl; [apply IH|done..].
Qed.

Lemma seq_get_nat {A} (xs : list A) (a : nat) : seq_get xs (Z.of_nat a) = xs !! a.
Proof.
  unfold seq_get, norm_index.
  replace (Z.of_nat a <? 0)%Z with false by (symmetry; apply Z.ltb_ge; lia).
  replace (0 <=? Z.of_nat a)%Z with true by (symmetry; apply Z.leb_le; lia).
  simpl. destruct (Z.ltb_spec (Z.of_nat a) (Z.of_nat (length xs))).
  - by rewrite Nat2Z.id.
  - symmetry. apply lookup_ge_None. lia.
Qed.

(** The walk over the positions [a, a+1, ...] of the key list indexes with
    the keys at these positions. *)
Lemma walk_positions fuel h kl c ks n :
  is_seq_ctor c -> h !! kl = Some (c ks) ->
  forall a sub,
    a + n <= length ks ->
    foldM_o (walk_step fuel h (VRef kl)) sub (map Z.of_nat (seq a n))
    = foldM_o (py_getitem fuel h) sub (take n (drop a ks)).
Proof.
  intros Hc Hkl. induction n as [|n IH]; intros a sub Hle; [done|].
  destruct (ks !! a) as [k|] eqn:Hk; [|apply lookup_ge_None in Hk; lia].
  rewrite (drop_S _ _ _ Hk). cbn [seq map take]. rewrite !foldM_o_cons, walk_step_eq.
  rewrite (py_getitem_seq _ _ _ c ks) by done. rewrite seq_get_nat, Hk. simpl.
  destruct (py_getitem fuel h sub k) as [sub1| |]; simpl; [|done..].
  apply IH. lia.
Qed.

Lemma walk_prefix_list fuel h kl c ks k root :
  is_seq_ctor c -> h !! kl = Some (c (ks ++ [k])) ->
  walk_prefix fuel h (VRef kl) root = foldM_o (py_getitem fuel h) root ks.
Proof.
  intros Hc Hkl. rewrite walk_prefix_unfold.
  assert (Hlen : py_len h (VRef kl) = Ok (Z.of_nat (length (ks ++ [k])))).
  { unfold py_len. rewrite Hkl. by destruct Hc as [-> | ->]. }
  rewrite Hlen. simpl. unfold py_range.
  rewrite length_app. simpl.
  replace (Z.to_nat (Z.of_nat (length ks + 1) - 1)) with (length ks) by lia.
  rewrite (walk_positions _ _ _ c (ks ++ [k])); [|done|done|rewrite length_app; simpl; lia].
  by rewrite drop_0, take_app_length.
Qed.

Lemma last_key_list fuel h kl c ks k :
  is_seq_ctor c -> h !! kl = Some (c (ks ++ [k])) ->
  py_getitem fuel h (VRef kl) (VInt (-1)) = Ok k.
Proof.
  intros Hc Hkl. rewrite (py_getitem_seq _ _ _ c (ks ++ [k])) by done.
  by rewrite seq_get_last_option, last_snoc.
Qed.

(** X7: for a path given as a non-empty list or tuple of keys,
    [get_dict_entry(key_list, d)] on a dictionary [d] is [d[k1][k2]...[kn]]:
    it returns what indexing with the keys one after the other returns, and
    raises what that raises, without changing anything. *)
Theorem get_dict_entry_indexes_in_turn
        (fuel : nat) (kl : loc) (c : list val -> obj) (ks : list val)
        (source_dict : val) (s : state) :
  is_seq_ctor c -> st_heap s !! kl = Some (c ks) -> ks <> [] ->
  is_dict (st_heap s) source_dict = true ->
  get_dict_entry fuel (VRef kl) source_dict s
  = query (fun h => foldM_o (py_getitem fuel h) source_dict ks) s.
Proof.
  intros Hc Hkl Hne Hd. revert Hkl Hne.
  destruct ks as [|k ks0 _] using rev_ind; [done|]. intros Hkl _.
  unfold get_dict_entry. munfold. rewrite Hd.
  rewrite (walk_prefix_list _ _ _ c ks0 k) by done.
  rewrite foldM_o_app.
  destruct (foldM_o (py_getitem fuel (st_heap s)) source_dict ks0) as [sub| |]; simpl; [|done..].
  rewrite (last_key_list _ _ _ c ks0 k) by done.
  by destruct (py_getitem fuel (st_heap s) sub k) as [v| |].
Qed.

Lemma get_dict_entry_indexes_in_turn_witness :
  get_dict_entry 2 (VRef 2) (VRef 0) (State round_trip_heap [])
  = query (fun h => foldM_o (py_getitem 2 h) (VRef 0) [VStr "a"; VStr "b"])
          (State round_trip_heap []).
Proof.
  apply (get_dict_entry_indexes_in_turn 2 2 OList [VStr "a"; VStr "b"] (VRef 0)
           (State round_trip_heap [])).
  - by left.
  - reflexivity.
  - discriminate.
  - reflexivity.
Defined.

(** X8: with an empty list or tuple as the path, both [get_dict_entry] and
    [set_dict_entry] (in either mode) raise [IndexError] on a dictionary, at
    [key_list[-1]], and change nothing. *)
Theorem empty_path_raises
        (fuel : nat) (value : val) (kl : loc) (c : list val -> obj)
        (d : val) (mode : string) (s : state) :
  is_seq_ctor c -> st_heap s !! kl = Some (c []) ->
  is_dict (st_heap s) d = true ->
  get_dict_entry fuel (VRef kl) d s = Failed IndexError s /\
  set_dict_entry fuel value (VRef kl) d mode s = Failed IndexError s.
Proof.
  intros Hc Hkl Hd.
  assert (Hw : walk_prefix fuel (st_heap s) (VRef kl) d = Ok d).
  { rewrite walk_prefix_unfold. unfold py_len. rewrite Hkl.
    by destruct Hc as [-> | ->]. }
  assert (Hlast : py_getitem fuel (st_heap s) (VRef kl) (VInt (-1)) = Raise IndexError).
  { by rewrite (py_getitem_seq _ _ _ c []). }
  split.
  - unfold get_dict_entry. munfold. by rewrite Hd, Hw, Hlast.
  - unfold set_dict_entry. munfold. by rewrite Hd, Hw, Hlast.
Qed.

Lemma empty_path_raises_witness :
  get_dict_entry 1 (VRef 1) (VRef 0) (State [ODict [("a", VInt 0)]; OList []] [])
  = Failed IndexError (State [ODict [("a", VInt 0)]; OList []] []) /\
  set_dict_entry 1 (VInt 5) (VRef 1) (VRef 0) "strict"
    (State [ODict [("a", VInt 0)]; OList []] [])
  = Failed IndexError (State [ODict [("a", VInt 0)]; OList []] []).
Proof.
  apply (empty_path_raises 1 (VInt 5) 1 OList (VRef 0) "strict"
           (State [ODict [("a", VInt 0)]; OList []] [])).
  - by left.
  - reflexivity.
  - reflexivity.
Defined.

Lemma py_eq_int fuel h x i :
  py_eq fuel h x (VInt i) = Ok (match x with VInt z => (z =? i)%Z | _ => false end).
Proof. by destruct fuel, x. Qed.

Lemma py_contains_list_int fuel h l xs i :
  h !! l = Some (OList xs) ->
  exists b, py_contains fuel h (VInt i) (VRef l) = Ok b /\ (b = true <-> VInt i ∈ xs).
Proof.
  intros Hl. unfold py_contains. rewrite Hl. clear Hl.
  induction xs as [|x xs (b & -> & Hb)].
  - exists false. split; [done|]. split; [done|by intros ?%elem_of_nil].
  - rewrite py_eq_int. simpl. destruct x as [|z| |]; simpl;
      try (exists b; split; [done|]; rewrite Hb; split;
           [by right|by intros [?|?]%elem_of_cons]).
    destruct (Z.eqb_spec z i) as [->|Hne].
    + exists true. split; [done|]. split; [left|done].
    + exists b. split; [done|]. rewrite Hb. split; [by right|].
      intros [?|?]%elem_of_cons; [congruence|done].
Qed.

(** X9: when the path leads to a list, [set_dict_entry] tests the final key
    as an element of the list (line 124) but stores under it as a position
    (line 129).  For an integer final key [i] and the list [xs]: if [i] is not
    an element of [xs], the key counts as not found - strict mode raises
    [NameError], any other mode prints - whether or not [i] is a position of
    [xs]; if [i] is an element, the value is stored at position [i], which
    raises [IndexError] when [i] is not a position. *)
Theorem set_dict_entry_list_parent
        (fuel : nat) (value key_list target_dict : val) (s : state)
        (l : loc) (xs : list val) (i : Z) :
  is_dict (st_heap s) target_dict = true ->
  walk_prefix fuel (st_heap s) key_list target_dict = Ok (VRef l) ->
  st_heap s !! l = Some (OList xs) ->
  py_getitem fuel (st_heap s) key_list (VInt (-1)) = Ok (VInt i) ->
  (VInt i ∉ xs ->
   set_dict_entry fuel value key_list target_dict "strict" s
   = Failed (NameError key_list) s /\
   forall mode, mode <> "strict" ->
     set_dict_entry fuel value key_list target_dict mode s
     = Done target_dict (State (st_heap s) (st_out s ++ [key_list]))) /\
  (VInt i ∈ xs ->
   forall mode,
     set_dict_entry fuel value key_list target_dict mode s
     = match norm_index (length xs) i with
       | Some j =>
           Done target_dict
                (State (<[l := OList (<[j := pure_value (st_heap s) value]> xs)]> (st_heap s))
                       (st_out s))
       | None => Failed IndexError s
       end).
Proof.
  intros Hd Hw Hl Hk.
  destruct (py_contains_list_int fuel (st_heap s) l xs i Hl) as (b & Hc & Hb).
  split.
  - intros Hnin. assert (b = false) as -> by (destruct b; [by destruct Hnin; apply Hb|done]).
    split.
    + unfold set_dict_entry. munfold. by rewrite Hd, Hw, Hk, Hc.
    + intros mode Hmode. unfold set_dict_entry. munfold. rewrite Hd, Hw, Hk, Hc.
      by destruct (String.eqb_spec mode "strict").
  - intros Hin mode. assert (b = true) as -> by (by apply Hb).
    unfold set_dict_entry. munfold. rewrite Hd, Hw, Hk, Hc.
    unfold py_setitem. rewrite Hl.
    by destruct (norm_index (length xs) i).
Qed.

Lemma set_dict_entry_list_parent_witness :
  (VInt 1 ∉ [VInt 10; VInt 20; VInt 30] ->
   set_dict_entry 2 (VInt 5) (VRef 2) (VRef 1) "strict" (State list_parent_heap [])
   = Failed (NameError (VRef 2)) (State list_parent_heap []) /\
   forall mode, mode <> "strict" ->
     set_dict_entry 2 (VInt 5) (VRef 2) (VRef 1) mode (State list_parent_heap [])
     = Done (VRef 1) (State list_parent_heap ([] ++ [VRef 2]))) /\
  (VInt 1 ∈ [VInt 10; VInt 20; VInt 30] ->
   forall mode,
     set_dict_entry 2 (VInt 5) (VRef 2) (VRef 1) mode (State list_parent_heap [])
     = match norm_index 3 1 with
       | Some j =>
           Done (VRef 1)
                (State (<[0 := OList (<[j := pure_value list_parent_heap (VInt 5)]>
                                        [VInt 10; VInt 20; VInt 30])]> list_parent_heap)
                       [])
       | None => Failed IndexError (State list_parent_heap [])
       end).
Proof.
  apply (set_dict_entry_list_parent 2 (VInt 5) (VRef 2) (VRef 1) (State list_parent_heap [])
           0 [VInt 10; VInt 20; VInt 30] 1); reflexivity.
Defined.

(** The three cases on [{'a': [10, 20, 30]}] and [{'a': [-1, 20]}]: the
    position 1 is not found; the element 10 is found and is no position; the
    element -1 is found and the write lands on the last position. *)
Example list_parent_cases :
  set_dict_entry 2 (VInt 5) (VRef 2) (VRef 1) "moderate" (State list_parent_heap [])
  = Done (VRef 1) (State list_parent_heap [VRef 2]) /\
  set_dict_entry 2 (VInt 5) (VRef 3) (VRef 1) "moderate" (State list_parent_heap [])
  = Failed IndexError (State list_parent_heap []) /\
  set_dict_entry 2 (VInt 5) (VRef 6) (VRef 5) "moderate" (State list_parent_heap [])
  = Done (VRef 5)
         (State (<[4 := OList [VInt (-1); VInt 5]]> list_parent_heap) []).
Proof. by split_and!. Qed.

(** ** Shapes: what a write can change *)

Lemma same_shape_refl o : same_shape o o.
Proof. by destruct o. Qed.

Lemma same_shape_trans o1 o2 o3 : same_shape o1 o2 -> same_shape o2 o3 -> same_shape o1 o3.
Proof.
  destruct o1, o2; simpl; try done; destruct o3; simpl; try done; congruence.
Qed.

#[global] Instance shape_kept_refl : Reflexive shape_kept.
Proof. intros h l o Hl. exists o. split; [done|apply same_shape_refl]. Qed.

#[global] Instance shape_kept_trans : Transitive shape_kept.
Proof.
  intros h1 h2 h3 H12 H23 l o Hl.
  destruct (H12 l o Hl) as (o2 & Hl2 & Hs2).
  destruct (H23 l o2 Hl2) as (o3 & Hl3 & Hs3).
  exists o3. split; [done|]. by eapply same_shape_trans.
Qed.

#[global] Instance grown_refl : Reflexive grown.
Proof. intros h. unfold grown. lia. Qed.

#[global] Instance grown_trans : Transitive grown.
Proof. intros h1 h2 h3. unfold grown. lia. Qed.

Lemma shape_kept_alloc h o : shape_kept h (h ++ [o]).
Proof.
  intros l o' Hl. exists o'. split; [by apply lookup_app_l_Some|apply same_shape_refl].
Qed.

Lemma shape_kept_insert h l o o' :
  h !! l = Some o -> same_shape o o' -> shape_kept h (<[l := o']> h).
Proof.
  intros Hl Hs l1 o1 Hl1. destruct (decide (l1 = l)) as [->|Hne].
  - exists o'. rewrite list_lookup_insert_eq by (by eapply lookup_lt_Some).
    split; [done|]. congruence.
  - exists o1. rewrite list_lookup_insert_ne by done. split; [done|apply same_shape_refl].
Qed.

Lemma dict_set_keys k v items :
  dict_mem k items = true -> map fst (dict_set k v items) = map fst items.
Proof.
  unfold dict_mem. induction items as [|[k' v'] items IH]; simpl; [done|].
  destruct (String.eqb k' k); [done|]. intros H. simpl. by rewrite IH.
Qed.

(** A store under a key that [in] has found replaces one object by one of
    the same shape. *)
Lemma py_setitem_shape fuel h c k v h' :
  py_contains fuel h k c = Ok true -> py_setitem fuel h c k v = Ok h' ->
  exists l o o', h !! l = Some o /\ h' = <[l := o']> h /\ same_shape o o'.
Proof.
  intros Hc Hs. destruct c as [| | |l]; try done.
  unfold py_setitem in Hs.
  destruct (h !! l) as [[items|xs|xs|w]|] eqn:Hl; try done.
  - destruct (py_contains_dict_true _ _ _ _ _ Hl Hc) as (k' & -> & Hm).
    injection Hs as <-. exists l, (ODict items), (ODict (dict_set k' v items)).
    split_and!; [done..|]. simpl. symmetry. by apply dict_set_keys.
  - destruct k as [|i| |]; try done.
    destruct (norm_index (length xs) i) as [j|]; [|done].
    injection Hs as <-. exists l, (OList xs), (OList (<[j := v]> xs)).
    split_and!; [done..|]. simpl. by rewrite length_insert.
Qed.

Lemma set_dict_entry_effect fuel value key_list target_dict mode s :
  match set_dict_entry fuel value key_list target_dict mode s with
  | Done r s' =>
      r = target_dict /\
      ((st_heap s' = st_heap s /\ st_out s' = st_out s ++ [key_list]) \/
       (st_out s' = st_out s /\
        exists l o o', st_heap s !! l = Some o /\ st_heap s' = <[l := o']> (st_heap s) /\
                       same_shape o o'))
  | Failed _ s' => s' = s
  | Aborted => True
  end.
Proof.
  unfold set_dict_entry. munfold.
  destruct (is_dict (st_heap s) target_dict); [|done].
  destruct (walk_prefix fuel (st_heap s) key_list target_dict) as [sub| |]; [|done..].
  destruct (py_getitem fuel (st_heap s) key_list (VInt (-1))) as [last| |]; [|done..].
  destruct (py_contains fuel (st_heap s) last sub) as [[|]| |] eqn:Hc; [| |done..].
  - destruct (py_setitem fuel (st_heap s) sub last (pure_value (st_heap s) value))
      as [h'| |] eqn:Hs; [|done..].
    split; [done|]. right. split; [done|]. by eapply py_setitem_shape.
  - destruct (String.eqb mode "strict"); [done|]. split; [done|]. by left.
Qed.

Lemma norm_index_lt n i j : norm_index n i = Some j -> j < n.
Proof.
  unfold norm_index.
  destruct ((0 <=? (if (i <? 0)%Z then (i + Z.of_nat n)%Z else i))%Z
            && ((if (i <? 0)%Z then (i + Z.of_nat n)%Z else i) <? Z.of_nat n)%Z) eqn:E;
    [|done].
  apply andb_true_iff in E as [E1 E2]. apply Z.leb_le in E1. apply Z.ltb_lt in E2.
  intros [= <-]. lia.
Qed.

Lemma set_dict_entry_write
        (fuel : nat) (value key_list target_dict : val) (mode : string) (s : state) :
  match set_dict_entry fuel value key_list target_dict mode s with
  | Done r s' =>
      r = target_dict /\
      ((st_heap s' = st_heap s /\ st_out s' = st_out s ++ [key_list]) \/
       (st_out s' = st_out s /\
        exists l,
          walk_prefix fuel (st_heap s) key_list target_dict = Ok (VRef l) /\
          ((exists k items,
              py_getitem fuel (st_heap s) key_list (VInt (-1)) = Ok (VStr k) /\
              st_heap s !! l = Some (ODict items) /\ dict_mem k items = true /\
              st_heap s'
              = <[l := ODict (dict_set k (pure_value (st_heap s) value) items)]> (st_heap s)) \/
           (exists i j xs,
              py_getitem fuel (st_heap s) key_list (VInt (-1)) = Ok (VInt i) /\
              st_heap s !! l = Some (OList xs) /\
              norm_index (length xs) i = Some j /\ j < length xs /\
              st_heap s'
              = <[l := OList (<[j := pure_value (st_heap s) value]> xs)]> (st_heap s)))))
  | Failed _ s' => s' = s
  | Aborted => True
  end.
Proof.
  unfold set_dict_entry. munfold.
  destruct (is_dict (st_heap s) target_dict); [|done].
  destruct (walk_prefix fuel (st_heap s) key_list target_dict) as [sub| |]; [|done..].
  destruct (py_getitem fuel (st_heap s) key_list (VInt (-1))) as [last| |]; [|done..].
  destruct (py_contains fuel (st_heap s) last sub) as [[|]| |] eqn:Hc; [| |done..].
  - destruct (py_setitem fuel (st_heap s) sub last (pure_value (st_heap s) value))
      as [h'| |] eqn:Hs; [|done..].
    split; [done|]. right. split; [done|]. simpl.
    destruct sub as [| | |l]; try done. exists l. split; [done|].
    unfold py_setitem in Hs.
    destruct (st_heap s !! l) as [[items|xs|xs|w]|] eqn:Hl; try done.
    + destruct (py_contains_dict_true _ _ _ _ _ Hl Hc) as (k & -> & Hm).
      injection Hs as <-. left. by exists k, items.
    + destruct last as [|i| |]; try done.
      destruct (norm_index (length xs) i) as [j|] eqn:Hj; [|done].
      injection Hs as <-. right. exists i, j, xs.
      split_and!; [done..| |done]. by eapply norm_index_lt.
  - destruct (String.eqb mode "strict"); [done|]. split; [done|]. by left.
Qed.

(** X10: [set_dict_entry] changes at most one slot and creates none.  When
    it returns, it returns the dictionary it was given, and either it has
    only printed the diagnostic, or it has printed nothing and changed one
    object, the one the path without its final key leads to: a dictionary
    that had the final key now holds the value (with its [.value] unwrapped)
    under that key, or a list now holds it at the position the final key
    names, a position the list had.  Every other key, position and object is
    as it was.  When it raises, nothing has changed. *)
Theorem set_dict_entry_writes_one_slot
        (fuel : nat) (value key_list target_dict : val) (mode : string) (s : state) :
  match set_dict_entry fuel value key_list target_dict mode s with
  | Done r s' =>
      r = target_dict /\
      ((st_heap s' = st_heap s /\ st_out s' = st_out s ++ [key_list]) \/
       (st_out s' = st_out s /\
        exists l,
          walk_prefix fuel (st_heap s) key_list target_dict = Ok (VRef l) /\
          ((exists k items,
              py_getitem fuel (st_heap s) key_list (VInt (-1)) = Ok (VStr k) /\
              st_heap s !! l = Some (ODict items) /\ dict_mem k items = true /\
              st_heap s'
              = <[l := ODict (dict_set k (pure_value (st_heap s) value) items)]> (st_heap s)) \/
           (exists i j xs,
              py_getitem fuel (st_heap s) key_list (VInt (-1)) = Ok (VInt i) /\
              st_heap s !! l = Some (OList xs) /\
              norm_index (length xs) i = Some j /\ j < length xs /\
              st_heap s'
              = <[l := OList (<[j := pure_value (st_heap s) value]> xs)]> (st_heap s)))))
  | Failed _ s' => s' = s
  | Aborted => True
  end.
Proof. apply set_dict_entry_write. Qed.

(** *** Rules for [keeps] *)

Lemma keeps_ret R `{!Reflexive R} {A} (a : A) : keeps R (mret a).
Proof. intros s. unfold mret, M_ret. simpl. reflexivity. Qed.

Lemma keeps_bind R `{!Transitive R} {A B} (m : M A) (f : A -> M B) :
  keeps R m -> (forall a, keeps R (f a)) -> keeps R (m ≫= f).
Proof.
  intros Hm Hf s. unfold mbind, M_bind. specialize (Hm s).
  destruct (m s) as [a s1|e s1|]; [|done..].
  specialize (Hf a s1). destruct (f a s1); [by etrans..|done].
Qed.

Lemma keeps_raise R `{!Reflexive R} {A} e : keeps R (raise e : M A).
Proof. intros s. unfold raise. simpl. reflexivity. Qed.

Lemma keeps_query R `{!Reflexive R} {A} (f : heap -> outcome A) : keeps R (query f).
Proof. intros s. unfold query. destruct (f (st_heap s)); [reflexivity..|done]. Qed.

Lemma keeps_update R `{!Reflexive R} (f : heap -> outcome heap) :
  (forall h h', f h = Ok h' -> R h h') -> keeps R (update f).
Proof.
  intros Hf s. unfold update.
  destruct (f (st_heap s)) as [h'| |] eqn:E; [by apply Hf|reflexivity|done].
Qed.

Lemma keeps_new_loc R o : (forall h, R h (h ++ [o])) -> keeps R (new_loc o).
Proof. intros Ho s. apply Ho. Qed.

Lemma keeps_new R `{!Reflexive R} `{!Transitive R} o :
  (forall h, R h (h ++ [o])) -> keeps R (new o).
Proof.
  intros Ho. unfold new. apply keeps_bind; [done|by apply keeps_new_loc|].
  intros l. by apply keeps_ret.
Qed.

Lemma keeps_for_fold R `{!Reflexive R} `{!Transitive R} {S A}
      (body : S -> A -> M S) a xs :
  (forall a x, keeps R (body a x)) -> keeps R (for_fold body a xs).
Proof.
  intros Hbody. revert a. induction xs as [|x xs IH]; intros a; simpl.
  - by apply keeps_ret.
  - apply keeps_bind; [done|apply Hbody|]. intros a1. apply IH.
Qed.

Lemma keeps_copy_all R `{!Reflexive R} `{!Transitive R} {A B}
      (copy : memo -> A -> M (B * memo)) m xs :
  (forall m x, keeps R (copy m x)) -> keeps R (copy_all copy m xs).
Proof.
  intros Hcopy. revert m. induction xs as [|x xs IH]; intros m; simpl.
  - by apply keeps_ret.
  - apply keeps_bind; [done|apply Hcopy|]. intros [y m1].
    apply keeps_bind; [done|apply IH|]. intros [ys m2]. by apply keeps_ret.
Qed.

(** *** The functions of the module keep shapes *)

Lemma keeps_set_dict_entry fuel value key_list target_dict mode :
  keeps shape_kept (set_dict_entry fuel value key_list target_dict mode).
Proof.
  intros s. pose proof (set_dict_entry_effect fuel value key_list target_dict mode s) as H.
  destruct (set_dict_entry fuel value key_list target_dict mode s) as [r s'|e s'|]; [| |done].
  - destruct H as [_ [[-> _]|[_ (l & o & o' & Hl & -> & Hs)]]]; [done|].
    by eapply shape_kept_insert.
  - by subst s'.
Qed.

Lemma keeps_ensure_list v n : keeps shape_kept (ensure_list v n).
Proof.
  unfold ensure_list. apply keeps_bind; [apply _|apply keeps_query; apply _|].
  intros [|]; [apply keeps_ret; apply _|]. apply keeps_new; try apply _.
  intros h. apply shape_kept_alloc.
Qed.

Lemma keeps_slice_init x : keeps shape_kept (slice_init x).
Proof.
  unfold slice_init. destruct x as [| |str|l]; try (apply keeps_ret; apply _).
  all: apply keeps_bind; [apply _|apply keeps_query; apply _|].
  all: intros [[items|xs|xs|w]|]; try (apply keeps_raise; apply _).
  all: apply keeps_new; try apply _; intros h; apply shape_kept_alloc.
Qed.

Lemma keeps_transfer_path fuel sim_names gui_values multi_variable a i :
  keeps shape_kept (transfer_path fuel sim_names gui_values multi_variable a i).
Proof.
  unfold transfer_path.
  apply keeps_bind; [apply _|apply keeps_query; apply _|]. intros sim_name_list.
  apply keeps_bind; [apply _|apply keeps_query; apply _|]. intros last.
  apply keeps_bind; [apply _|apply keeps_query; apply _|]. intros [|].
  - apply keeps_bind; [apply _|apply keeps_slice_init|]. intros pure_name_list.
    apply keeps_bind; [apply _|apply keeps_query; apply _|]. intros value_list.
    apply keeps_bind; [apply _| |].
    { apply keeps_new; try apply _. intros h. apply shape_kept_alloc. }
    intros vl. apply keeps_bind; [apply _|apply keeps_set_dict_entry|].
    intros sub. apply keeps_ret; apply _.
  - apply keeps_bind; [apply _| |].
    { destruct multi_variable; apply keeps_query; apply _. }
    intros gui_value. apply keeps_bind; [apply _|apply keeps_set_dict_entry|].
    intros sub. apply keeps_ret; apply _.
Qed.

Lemma keeps_transfer_entry fuel target_name_key value_key copy names gui_entry :
  keeps shape_kept (transfer_entry fuel target_name_key value_key copy names gui_entry).
Proof.
  unfold transfer_entry.
  apply keeps_bind; [apply _|apply keeps_query; apply _|]. intros sim_names0.
  apply keeps_bind; [apply _|apply keeps_ensure_list|]. intros sim_names.
  apply keeps_bind; [apply _|apply keeps_query; apply _|]. intros first.
  apply keeps_bind; [apply _|apply keeps_query; apply _|]. intros [|].
  - apply keeps_bind; [apply _|apply keeps_query; apply _|]. intros raw.
    apply keeps_bind; [apply _|apply keeps_ensure_list|]. intros gui_values.
    apply keeps_bind; [apply _|apply keeps_query; apply _|]. intros n1.
    apply keeps_bind; [apply _|apply keeps_query; apply _|]. intros n2.
    apply keeps_bind; [apply _| |].
    { apply keeps_for_fold; try apply _. intros a i. apply keeps_transfer_path. }
    intros a. apply keeps_ret; apply _.
  - apply keeps_bind; [apply _|apply keeps_query; apply _|]. intros [|].
    + apply keeps_bind; [apply _|apply keeps_query; apply _|]. intros value.
      apply keeps_bind; [apply _|apply keeps_set_dict_entry|]. intros _.
      apply keeps_ret; apply _.
    + apply keeps_ret; apply _.
Qed.

(** The deep copy leaves every object it finds as it is. *)
Lemma deepcopy_keeps_objects fuel x s :
  match deepcopy fuel x s with
  | Done _ s' | Failed _ s' =>
      forall l o, st_heap s !! l = Some o -> st_heap s' !! l = Some o
  | Aborted => True
  end.
Proof.
  pose proof (safe_deepcopy (st_heap s) (fun _ => False) fuel x s
                (inv_start (st_heap s) (fun _ => False) (fun _ _ _ H _ _ => H))) as H.
  destruct (deepcopy fuel x s) as [r s'|e s'|]; [| |done].
  - destruct H as [(_ & Hkeep & _) _]. intros l o Hl. apply Hkeep; [done|tauto].
  - destruct H as (_ & Hkeep & _). intros l o Hl. apply Hkeep; [done|tauto].
Qed.

Lemma keeps_deepcopy fuel x : keeps shape_kept (deepcopy fuel x).
Proof.
  intros s. pose proof (deepcopy_keeps_objects fuel x s) as H.
  destruct (deepcopy fuel x s) as [r s'|e s'|]; [| |done];
    intros l o Hl; exists o; (split; [by apply H|apply same_shape_refl]).
Qed.

Lemma keeps_transfer fuel target_name_key value_key source copy :
  keeps shape_kept
        (extracted ← query (fun h => gen_dict_extract fuel target_name_key h source);
         names ← for_fold (transfer_entry fuel target_name_key value_key copy) [] extracted;
         mret (copy, names)).
Proof.
  apply keeps_bind; [apply _|apply keeps_query; apply _|]. intros extracted.
  apply keeps_bind; [apply _| |].
  { apply keeps_for_fold; try apply _. intros a e. apply keeps_transfer_entry. }
  intros names. apply keeps_ret; apply _.
Qed.

(** X11: however [dict_transfer] ends - returning or raising - every object
    that existed before the call still has its shape: no dictionary has gained
    or lost a key or has its keys in another order, no list has changed its
    length, every tuple and every instance is as it was.  The call only
    replaces values under existing keys and at existing positions. *)
Theorem dict_transfer_keeps_shape
        (fuel : nat) (source_dict target_dict : val)
        (target_name_key value_key : string) (s : state) :
  match dict_transfer fuel source_dict target_dict target_name_key value_key s with
  | Done _ s' | Failed _ s' =>
      forall l o, st_heap s !! l = Some o ->
                  exists o', st_heap s' !! l = Some o' /\ same_shape o o'
  | Aborted => True
  end.
Proof.
  assert (H : keeps shape_kept
                    (dict_transfer fuel source_dict target_dict target_name_key value_key)).
  { unfold dict_transfer. apply keeps_bind; [apply _|apply keeps_deepcopy|].
    intros copy. apply keeps_transfer. }
  apply H.
Qed.

(** ** What [dict_transfer] returns *)

Lemma keeps_store R `{!Reflexive R} l o :
  (forall h, R h (<[l := o]> h)) -> keeps R (store l o).
Proof. intros Ho. apply keeps_update; [done|]. intros h h' [= <-]. apply Ho. Qed.

Lemma grown_alloc h o : grown h (h ++ [o]).
Proof. unfold grown. rewrite length_app. lia. Qed.

Lemma grown_insert h l o : grown h (<[l := o]> h).
Proof. unfold grown. by rewrite length_insert. Qed.

Lemma keeps_deepcopy_rec fuel m x : keeps grown (deepcopy_rec fuel m x).
Proof.
  revert m x. induction fuel as [|n IH]; intros m x.
  - destruct x as [| | |l]; simpl; try (apply keeps_ret; apply _).
    destruct (m !! l); [apply keeps_ret; apply _|done].
  - destruct x as [| | |l]; simpl; try (apply keeps_ret; apply _).
    destruct (m !! l); [apply keeps_ret; apply _|].
    apply keeps_bind; [apply _|apply keeps_query; apply _|].
    intros [[items|xs|xs|w]|].
    + apply keeps_bind; [apply _|apply keeps_new_loc; intros ?; apply grown_alloc|]. intros y.
      apply keeps_bind; [apply _| |].
      { apply keeps_copy_all; try apply _. intros m1 [k v].
        apply keeps_bind; [apply _|apply IH|]. intros [v' m2]. apply keeps_ret; apply _. }
      intros [ys m'].
      apply keeps_bind; [apply _|apply keeps_store; [apply _|intros ?; apply grown_insert]|].
      intros _. apply keeps_ret; apply _.
    + apply keeps_bind; [apply _|apply keeps_new_loc; intros ?; apply grown_alloc|]. intros y.
      apply keeps_bind; [apply _|apply keeps_copy_all; try apply _; apply IH|].
      intros [ys m'].
      apply keeps_bind; [apply _|apply keeps_store; [apply _|intros ?; apply grown_insert]|].
      intros _. apply keeps_ret; apply _.
    + apply keeps_bind; [apply _|apply keeps_copy_all; try apply _; apply IH|].
      intros [ys m']. destruct (m' !! l); [apply keeps_ret; apply _|].
      apply keeps_bind; [apply _|apply keeps_new_loc; intros ?; apply grown_alloc|]. intros y.
      apply keeps_ret; apply _.
    + apply keeps_bind; [apply _|apply keeps_new_loc; intros ?; apply grown_alloc|]. intros y.
      apply keeps_bind; [apply _|apply IH|]. intros [v' m'].
      apply keeps_bind; [apply _|apply keeps_store; [apply _|intros ?; apply grown_insert]|].
      intros _. apply keeps_ret; apply _.
    + apply keeps_ret; apply _.
Qed.

Lemma bind_done_inv {A B} (m : M A) (f : A -> M B) s b s' :
  (m ≫= f) s = Done b s' -> exists a s1, m s = Done a s1 /\ f a s1 = Done b s'.
Proof.
  unfold mbind, M_bind. destruct (m s) as [a s1| |]; [|done..]. intros H. by exists a, s1.
Qed.

Lemma copy_all_keys (copy : memo -> val -> M (val * memo)) m
      (items ys : list (string * val)) s m' s' :
  copy_all (fun m '(k, v) => '(v', m') ← copy m v; mret ((k, v'), m')) m items s
  = Done (ys, m') s' ->
  map fst ys = map fst items.
Proof.
  revert m s ys. induction items as [|[k v] items IH]; intros m s ys; simpl.
  - by intros [= <- _ _].
  - intros ([y m1] & s1 & H1 & H2)%bind_done_inv.
    apply bind_done_inv in H1 as ([v' m1'] & s0 & _ & H1).
    apply bind_done_inv in H2 as ([ys0 m2] & s2 & Hc & H2).
    unfold mret, M_ret in H1, H2. injection H1 as <- _ _. injection H2 as <- <- <-.
    simpl. f_equal. by eapply IH.
Qed.

(** The deep copy of a dictionary is a new dictionary with the same keys. *)
Lemma deepcopy_dict_root fuel l items s copy s1 :
  st_heap s !! l = Some (ODict items) ->
  deepcopy fuel (VRef l) s = Done copy s1 ->
  exists y ys, copy = VRef y /\ length (st_heap s) <= y /\
               st_heap s1 !! y = Some (ODict ys) /\ map fst ys = map fst items.
Proof.
  intros Hl. unfold deepcopy. destruct fuel as [|n]; simpl; rewrite lookup_empty.
  { done. }
  unfold mbind at 1, M_bind at 1. unfold mbind at 1, M_bind at 1.
  unfold query at 1. simpl. rewrite Hl.
  unfold mbind at 1, M_bind at 1. unfold new_loc at 1. simpl.
  unfold mbind at 1, M_bind at 1.
  pose proof (keeps_copy_all grown
                (fun m '(k, v) => '(v', m') ← deepcopy_rec n m v; mret ((k, v'), m'))
                (<[l := length (st_heap s)]> ∅) items) as Hgrow.
  assert (Hgrow' : keeps grown
                     (copy_all (fun m '(k, v) =>
                                  '(v', m') ← deepcopy_rec n m v; mret ((k, v'), m'))
                               (<[l := length (st_heap s)]> ∅) items)).
  { apply Hgrow. intros m1 [k v].
    apply keeps_bind; [apply _|apply keeps_deepcopy_rec|].
    intros [v' m2]. apply keeps_ret; apply _. }
  clear Hgrow.
  match goal with
  | |- context [copy_all ?f ?m ?xs ?st] =>
      specialize (Hgrow' st);
      destruct (copy_all f m xs st) as [[ys m'] s2| |] eqn:Hcopy; [|done..]
  end.
  rename Hgrow' into Hgrow.
  simpl in Hgrow. unfold grown in Hgrow. rewrite length_app in Hgrow. simpl in Hgrow.
  unfold store, update, mbind, M_bind, mret, M_ret. simpl.
  intros [= <- <-]. exists (length (st_heap s)), ys. split_and!; [done|lia| |].
  - simpl. apply list_lookup_insert_eq. lia.
  - by eapply copy_all_keys.
Qed.

(** X12: when [dict_transfer] returns for a target that is a dictionary, the
    dictionary it returns is a new object - not the target, nor any object
    that existed before the call - and has exactly the target's keys, in the
    target's order. *)
Theorem dict_transfer_returns_new_dict
        (fuel : nat) (source_dict : val) (l : loc) (items : list (string * val))
        (target_name_key value_key : string) (s s' : state)
        (copy : val) (names : list val) :
  st_heap s !! l = Some (ODict items) ->
  dict_transfer fuel source_dict (VRef l) target_name_key value_key s
  = Done (copy, names) s' ->
  exists y items',
    copy = VRef y /\ length (st_heap s) <= y /\
    st_heap s' !! y = Some (ODict items') /\ map fst items' = map fst items.
Proof.
  intros Hl. unfold dict_transfer.
  unfold mbind at 1, M_bind at 1.
  destruct (deepcopy fuel (VRef l) s) as [c s1| |] eqn:Hcopy; [|done..].
  destruct (deepcopy_dict_root _ _ _ _ _ _ Hl Hcopy) as (y & ys & -> & Hy & Hys & Hkeys).
  intros Hrun.
  pose proof (keeps_transfer fuel target_name_key value_key source_dict (VRef y) s1) as Hk.
  rewrite Hrun in Hk. destruct (Hk y (ODict ys) Hys) as (o' & Ho' & Hshape).
  assert (copy = VRef y) as ->.
  { revert Hrun. unfold mbind, M_bind.
    destruct (query _ s1) as [e s2| |]; [|done..].
    destruct (for_fold _ [] e s2) as [ns s3| |]; [|done..].
    by intros [= <- _ _]. }
  destruct o' as [items'| | |]; try done. simpl in Hshape.
  exists y, items'. split_and!; [done..|congruence].
Qed.

Lemma dict_transfer_returns_new_dict_witness :
  exists y items',
    VRef 5 = VRef y /\ length scenario_A_heap <= y /\
    (scenario_A_heap ++ [ODict [("a", VRef 6)]; ODict [("b", VInt 5)]]) !! y
    = Some (ODict items') /\
    map fst items' = map fst [("a", VRef 3)].
Proof.
  apply (dict_transfer_returns_new_dict 10 (VRef 2) 4 [("a", VRef 3)] "sim_name" "value"
           (State scenario_A_heap [])
           (State (scenario_A_heap ++ [ODict [("a", VRef 6)]; ODict [("b", VInt 5)]]) [])
           (VRef 5) [VRef 0]); reflexivity.
Defined.

(** ** A path that names a missing key *)

(** X13: let a path lead to a dictionary of the copy that lacks the path's
    final key.  An element that declares it as its single path, with a
    value, ends the turn - and with it the whole call - with the [NameError]
    that names the path, with nothing changed.  An element that declares it
    as the only one of its paths, [[path]], with the values [[value]], is
    processed without error: the diagnostic is printed, no object changes and
    the path is recorded. *)
Theorem missing_target_key_asymmetry
        (fuel : nat) (target_name_key value_key : string) (copy : val)
        (names : list val) (s : state)
        (p lt : loc) (k0 k : string) (rest : list val) (titems : list (string * val)) :
  is_dict (st_heap s) copy = true ->
  st_heap s !! p = Some (OList (VStr k0 :: rest)) ->
  last (VStr k0 :: rest) = Some (VStr k) ->
  walk_prefix fuel (st_heap s) (VRef p) copy = Ok (VRef lt) ->
  st_heap s !! lt = Some (ODict titems) ->
  dict_mem k titems = false ->
  (forall e items value,
     st_heap s !! e = Some (ODict items) ->
     dict_get target_name_key items = Some (VRef p) ->
     dict_get value_key items = Some value ->
     transfer_entry fuel target_name_key value_key copy names (VRef e) s
     = Failed (NameError (VRef p)) s) /\
  (forall e items ps g value,
     st_heap s !! e = Some (ODict items) ->
     dict_get target_name_key items = Some (VRef ps) ->
     st_heap s !! ps = Some (OList [VRef p]) ->
     dict_get value_key items = Some (VRef g) ->
     st_heap s !! g = Some (OList [value]) ->
     transfer_entry fuel target_name_key value_key copy names (VRef e) s
     = Done (names ++ [VRef p]) (State (st_heap s) (st_out s ++ [VRef p]))).
Proof.
  intros Hd Hp Hlast Hw Hlt Hm.
  assert (Hk : py_getitem fuel (st_heap s) (VRef p) (VInt (-1)) = Ok (VStr k)).
  { rewrite (py_getitem_seq _ _ _ OList (VStr k0 :: rest)) by (done || by left).
    by rewrite seq_get_last_option, Hlast. }
  assert (Hc : py_contains fuel (st_heap s) (VStr k) (VRef lt) = Ok false)
    by (by rewrite (py_contains_dict_str _ _ _ titems), Hm).
  split.
  - intros e items value He Hname Hvalue.
    unfold transfer_entry.
    rewrite (bind_done _ _ s (VRef p) s); [|apply getitem_ok].
    2:{ by rewrite (py_getitem_dict_str _ _ _ items), Hname. }
    rewrite (bind_done _ _ s (VRef p) s); [|apply ensure_list_keep].
    2:{ left. unfold is_list. simpl. by rewrite Hp. }
    munfold.
    rewrite (py_getitem_seq _ _ _ OList (VStr k0 :: rest)) by (done || by left).
    simpl. rewrite (py_contains_dict_str _ _ _ items) by done.
    unfold dict_mem. rewrite Hvalue.
    rewrite (py_getitem_dict_str _ _ _ items) by done. rewrite Hvalue.
    unfold set_dict_entry. munfold. by rewrite Hd, Hw, Hk, Hc.
  - intros e items ps g value He Hname Hps Hvalue Hg.
    assert (G2 : py_getitem fuel (st_heap s) (VRef ps) (VInt 0) = Ok (VRef p))
      by (by rewrite (py_getitem_seq _ _ _ OList [VRef p]) by (done || by left)).
    assert (Hturn : transfer_path fuel (VRef ps) (VRef g) true (Locals copy names) 0 s
                    = Done (Locals copy (names ++ [VRef p]))
                           (State (st_heap s) (st_out s ++ [VRef p]))).
    { unfold transfer_path.
      rewrite (bind_done _ _ s (VRef p) s) by (by apply getitem_ok).
      rewrite (bind_done _ _ s (VStr k) s) by (by apply getitem_ok).
      rewrite (bind_done _ _ s false s) by (unfold isinstance; by apply query_ok).
      rewrite (bind_done _ _ s value s).
      2:{ apply getitem_ok.
          by rewrite (py_getitem_seq _ _ _ OList [value]) by (done || by left). }
      unfold set_dict_entry. munfold. cbn [sub_dict name_lists].
      by rewrite Hd, Hw, Hk, Hc. }
    unfold transfer_entry.
    rewrite (bind_done _ _ s (VRef ps) s).
    2:{ apply getitem_ok. by rewrite (py_getitem_dict_str _ _ _ items), Hname. }
    rewrite (bind_done _ _ s (VRef ps) s).
    2:{ apply ensure_list_keep. left. unfold is_list. simpl. by rewrite Hps. }
    rewrite (bind_done _ _ s (VRef p) s) by (by apply getitem_ok).
    rewrite (bind_done _ _ s true s).
    2:{ unfold isinstance. apply query_ok. unfold is_list. simpl. by rewrite Hp. }
    rewrite (bind_done _ _ s (VRef g) s).
    2:{ apply getitem_ok. by rewrite (py_getitem_dict_str _ _ _ items), Hvalue. }
    rewrite (bind_done _ _ s (VRef g) s).
    2:{ apply ensure_list_keep. left. unfold is_list. simpl. by rewrite Hg. }
    rewrite (bind_done _ _ s 1%Z s).
    2:{ unfold len. apply query_ok. unfold py_len. by rewrite Hps. }
    rewrite (bind_done _ _ s 1%Z s).
    2:{ unfold len. apply query_ok. unfold py_len. by rewrite Hg. }
    change (1 =? 1)%Z with true. change (py_range 1) with [0%Z]. cbn [for_fold].
    unfold mbind, M_bind. by rewrite Hturn.
Qed.

Lemma missing_target_key_asymmetry_witness :
  transfer_entry 2 "sim_name" "value" (VRef 5) [] (VRef 1) (State missing_target_heap [])
  = Failed (NameError (VRef 0)) (State missing_target_heap []) /\
  transfer_entry 2 "sim_name" "value" (VRef 5) [] (VRef 4) (State missing_target_heap [])
  = Done ([] ++ [VRef 0]) (State missing_target_heap ([] ++ [VRef 0])).
Proof.
  destruct (missing_target_key_asymmetry 2 "sim_name" "value" (VRef 5) []
              (State missing_target_heap []) 0 5 "zz" "zz" [] [("x", VInt 0)]
              eq_refl eq_refl eq_refl eq_refl eq_refl eq_refl) as [Hsingle Hmulti].
  split.
  - apply (Hsingle 1 [("sim_name", VRef 0); ("value", VInt 5)] (VInt 5)); reflexivity.
  - apply (Hmulti 4 [("sim_name", VRef 2); ("value", VRef 3)] 2 3 (VInt 5)); reflexivity.
Defined.

(** ** Several paths against a flat target *)

Lemma pure_value_update_dict h c it it' v :
  h !! c = Some (ODict it) -> pure_value (<[c := ODict it']> h) v = pure_value h v.
Proof.
  intros Hc. unfold pure_value. destruct v as [| | |l]; try done. simpl.
  destruct (decide (l = c)) as [->|Hne].
  - rewrite list_lookup_insert_eq by (by eapply lookup_lt_Some). by rewrite Hc.
  - by rewrite list_lookup_insert_ne.
Qed.

Lemma dict_mem_set k k' v it :
  dict_mem k it = true -> dict_mem k (dict_set k' v it) = true.
Proof.
  unfold dict_mem. induction it as [|[k1 v1] it IH]; simpl; [done|].
  destruct (String.eqb_spec k1 k') as [->|Hne]; simpl.
  - by destruct (String.eqb k' k).
  - destruct (String.eqb k1 k); [done|]. apply IH.
Qed.

Lemma paired_values_length n vs : length (paired_values n vs) = n.
Proof.
  unfold paired_values. destruct (decide (n = length vs)); [done|apply length_replicate].
Qed.

Lemma foldl_pointwise {A B} (f f' : A -> B -> A) a l :
  (forall a b, f a b = f' a b) -> foldl f a l = foldl f' a l.
Proof.
  intros Hf. revert a. induction l as [|b l IH]; intros a; simpl; [done|].
  by rewrite Hf, IH.
Qed.

Section flat_multi_path.
Variables (fuel : nat) (ps g c : loc) (pls : list loc) (ks : list string) (vs : list val).
Hypothesis vs_nonempty : vs <> [].

#[local] Abbreviation ready := (flat_ready ps g c pls ks vs).

Lemma ready_write h it k v :
  ready h it -> ready (<[c := ODict (dict_set k v it)]> h) (dict_set k v it).
Proof.
  intros (Hps & Hpl & Hg & Hc & Hks). unfold ready. split_and!.
  - rewrite list_lookup_insert_ne; [done|congruence].
  - eapply Forall2_impl; [exact Hpl|]. intros pl k' Hl. simpl in Hl.
    rewrite list_lookup_insert_ne; [done|congruence].
  - rewrite list_lookup_insert_ne; [done|congruence].
  - apply list_lookup_insert_eq. by eapply lookup_lt_Some.
  - eapply Forall_impl; [exact Hks|]. intros k' Hk'. by apply dict_mem_set.
Qed.

Lemma paired_value_read h it a v :
  ready h it -> a < length pls ->
  paired_values (length pls) vs !! a = Some v ->
  (if (Z.of_nat (length pls) =? Z.of_nat (length vs))%Z
   then py_getitem fuel h (VRef g) (VInt (Z.of_nat a))
   else py_getitem fuel h (VRef g) (VInt 0)) = Ok v.
Proof.
  intros (_ & _ & Hg & _) Ha. unfold paired_values.
  destruct (Z.eqb_spec (Z.of_nat (length pls)) (Z.of_nat (length vs))) as [E|E].
  - destruct (decide (length pls = length vs)) as [_|Hne]; [|lia].
    intros Hv.
    rewrite (py_getitem_seq _ _ _ OList vs) by (done || by left).
    by rewrite seq_get_nat, Hv.
  - destruct (decide (length pls = length vs)) as [Heq|_]; [by rewrite Heq in E|].
    intros Hv. apply lookup_replicate in Hv as [-> _].
    rewrite (py_getitem_seq _ _ _ OList vs) by (done || by left).
    change 0%Z with (Z.of_nat 0). rewrite seq_get_nat. by destruct vs.
Qed.

Lemma flat_turn h it out names a pl k v :
  ready h it ->
  pls !! a = Some pl -> ks !! a = Some k ->
  paired_values (length pls) vs !! a = Some v ->
  transfer_path fuel (VRef ps) (VRef g)
                (Z.of_nat (length pls) =? Z.of_nat (length vs))%Z
                (Locals (VRef c) names) (Z.of_nat a) (State h out)
  = Done (Locals (VRef c) (names ++ [VRef pl]))
         (State (<[c := ODict (dict_set k (pure_value h v) it)]> h) out).
Proof.
  intros Hready Hpl Hk Hv. pose proof Hready as (Hps & Hpls & Hg & Hc & Hks).
  assert (Hlpl : h !! pl = Some (OList [VStr k])).
  { by eapply (Forall2_lookup_lr _ pls ks a pl k Hpls). }
  unfold transfer_path.
  rewrite (bind_done _ _ (State h out) (VRef pl) (State h out)).
  2:{ apply getitem_ok. simpl.
      rewrite (py_getitem_seq _ _ _ OList (map VRef pls)) by (done || by left).
      by rewrite seq_get_nat, list_lookup_fmap, Hpl. }
  rewrite (bind_done _ _ (State h out) (VStr k) (State h out)).
  2:{ apply getitem_ok. simpl.
      by rewrite (py_getitem_seq _ _ _ OList [VStr k]) by (done || by left). }
  rewrite (bind_done _ _ (State h out) false (State h out))
    by (unfold isinstance; by apply query_ok).
  rewrite (bind_done _ _ (State h out) v (State h out)).
  2:{ pose proof (paired_value_read h it a v Hready (lookup_lt_Some _ _ _ Hpl) Hv) as Hread.
      destruct (Z.of_nat (length pls) =? Z.of_nat (length vs))%Z; by apply getitem_ok. }
  cbn [sub_dict name_lists].
  assert (Hset : set_dict_entry fuel v (VRef pl) (VRef c) "moderate" (State h out)
                 = Done (VRef c)
                        (State (<[c := ODict (dict_set k (pure_value h v) it)]> h) out)).
  { assert (Hd : is_dict h (VRef c) = true) by (unfold is_dict; simpl; by rewrite Hc).
    assert (Hw : walk_prefix fuel h (VRef pl) (VRef c) = Ok (VRef c)).
    { rewrite walk_prefix_unfold. unfold py_len. by rewrite Hlpl. }
    assert (Hlast : py_getitem fuel h (VRef pl) (VInt (-1)) = Ok (VStr k))
      by (by rewrite (py_getitem_seq _ _ _ OList [VStr k]) by (done || by left)).
    assert (Hin : py_contains fuel h (VStr k) (VRef c) = Ok true).
    { rewrite (py_contains_dict_str _ _ _ it) by done.
      rewrite Forall_forall in Hks. by rewrite (Hks k) by (by eapply list_elem_of_lookup_2). }
    assert (Hst : py_setitem fuel h (VRef c) (VStr k) (pure_value h v)
                  = Ok (<[c := ODict (dict_set k (pure_value h v) it)]> h))
      by (unfold py_setitem; by rewrite Hc).
    unfold set_dict_entry. munfold. cbn [st_heap st_out].
    rewrite Hd. cbn [st_heap st_out]. rewrite Hw. cbn [st_heap st_out].
    rewrite Hlast. cbn [st_heap st_out]. rewrite Hin. cbn [st_heap st_out].
    by rewrite Hst. }
  by rewrite (bind_done _ _ _ _ _ Hset).
Qed.

Lemma flat_loop out n :
  forall a h it names,
    ready h it -> a + n = length pls -> length ks = length pls ->
    for_fold (transfer_path fuel (VRef ps) (VRef g)
                            (Z.of_nat (length pls) =? Z.of_nat (length vs))%Z)
             (Locals (VRef c) names) (map Z.of_nat (seq a n)) (State h out)
    = Done (Locals (VRef c) (names ++ map VRef (drop a pls)))
           (State (<[c := ODict (foldl (fun it kv => dict_set kv.1 (pure_value h kv.2) it) it
                                       (zip (drop a ks)
                                            (drop a (paired_values (length pls) vs))))]> h)
                  out).
Proof.
  induction n as [|n IH]; intros a h it names Hready Han Hlen.
  - simpl. rewrite !drop_ge by (rewrite ?paired_values_length; lia). simpl.
    rewrite app_nil_r. destruct Hready as (_ & _ & _ & Hc & _).
    by rewrite list_insert_id.
  - destruct (pls !! a) as [pl|] eqn:Hpl; [|apply lookup_ge_None in Hpl; lia].
    destruct (ks !! a) as [k|] eqn:Hk; [|apply lookup_ge_None in Hk; lia].
    destruct (paired_values (length pls) vs !! a) as [v|] eqn:Hv.
    2:{ apply lookup_ge_None in Hv. rewrite paired_values_length in Hv. lia. }
    cbn [seq map for_fold].
    rewrite (bind_done _ _ _ _ _ (flat_turn h it out names a pl k v Hready Hpl Hk Hv)).
    rewrite (IH (S a) _ (dict_set k (pure_value h v) it)); [|by apply ready_write|lia|done].
    rewrite (drop_S _ _ _ Hpl), (drop_S _ _ _ Hk), (drop_S _ _ _ Hv). simpl.
    rewrite <- app_assoc. simpl. f_equal. f_equal.
    rewrite list_insert_insert_eq. do 2 f_equal.
    destruct Hready as (_ & _ & _ & Hc & _).
    apply foldl_pointwise. intros it' [k' v']. simpl.
    by rewrite (pure_value_update_dict _ _ it).
Qed.
End flat_multi_path.

(** X14: a multi-path element against a flat target.  Let the element
    declare the one-key paths [[[k1], ..., [kn]]], all of them keys of the
    dictionary written to, and carry a non-empty list of values.  Then the
    turn writes, in the order of the paths, [values[i]] under [ki] when there
    are exactly [n] values, and [values[0]] under every key otherwise - the
    other values are dropped, without an error or a diagnostic.  (Each value
    is written with its [.value] unwrapped.)  Nothing else changes, and all
    the paths are recorded. *)
Theorem multi_path_flat_target
        (fuel : nat) (target_name_key value_key : string) (names : list val) (s : state)
        (e ps g c : loc) (items titems : list (string * val))
        (pls : list loc) (ks : list string) (vs : list val) :
  st_heap s !! e = Some (ODict items) ->
  dict_get target_name_key items = Some (VRef ps) ->
  dict_get value_key items = Some (VRef g) ->
  st_heap s !! ps = Some (OList (map VRef pls)) -> pls <> [] ->
  Forall2 (fun pl k => st_heap s !! pl = Some (OList [VStr k])) pls ks ->
  st_heap s !! g = Some (OList vs) -> vs <> [] ->
  st_heap s !! c = Some (ODict titems) ->
  Forall (fun k => dict_mem k titems = true) ks ->
  transfer_entry fuel target_name_key value_key (VRef c) names (VRef e) s
  = Done (names ++ map VRef pls)
         (State (<[c := ODict (foldl (fun it kv =>
                                        dict_set kv.1 (pure_value (st_heap s) kv.2) it)
                                     titems
                                     (zip ks (paired_values (length ks) vs)))]> (st_heap s))
                (st_out s)).
Proof.
  intros He Hname Hvalue Hps Hne Hpls Hg Hvs Hc Hks.
  pose proof (Forall2_length _ _ _ Hpls) as Hlen.
  destruct pls as [|pl0 pls']; [done|].
  assert (Hpl0 : exists k0, st_heap s !! pl0 = Some (OList [VStr k0])).
  { inversion Hpls; subst. by eexists. }
  destruct Hpl0 as (k0 & Hpl0).
  unfold transfer_entry.
  rewrite (bind_done _ _ s (VRef ps) s).
  2:{ apply getitem_ok. by rewrite (py_getitem_dict_str _ _ _ items), Hname. }
  rewrite (bind_done _ _ s (VRef ps) s).
  2:{ apply ensure_list_keep. left. unfold is_list. simpl. by rewrite Hps. }
  rewrite (bind_done _ _ s (VRef pl0) s).
  2:{ apply getitem_ok.
      by rewrite (py_getitem_seq _ _ _ OList (map VRef (pl0 :: pls'))) by (done || by left). }
  rewrite (bind_done _ _ s true s).
  2:{ unfold isinstance. apply query_ok. unfold is_list. simpl. by rewrite Hpl0. }
  rewrite (bind_done _ _ s (VRef g) s).
  2:{ apply getitem_ok. by rewrite (py_getitem_dict_str _ _ _ items), Hvalue. }
  rewrite (bind_done _ _ s (VRef g) s).
  2:{ apply ensure_list_keep. left. unfold is_list. simpl. by rewrite Hg. }
  rewrite (bind_done _ _ s (Z.of_nat (length (pl0 :: pls'))) s).
  2:{ unfold len. apply query_ok. unfold py_len. by rewrite Hps, length_map. }
  rewrite (bind_done _ _ s (Z.of_nat (length vs)) s).
  2:{ unfold len. apply query_ok. unfold py_len. by rewrite Hg. }
  unfold py_range. rewrite Nat2Z.id.
  destruct s as [h out]. simpl in *.
  rewrite (bind_done _ _ _ _ _
             (flat_loop fuel ps g c (pl0 :: pls') ks vs Hvs out (length (pl0 :: pls'))
                        0 h titems names
                        (conj Hps (conj Hpls (conj Hg (conj Hc Hks)))) eq_refl
                        (eq_sym Hlen))).
  unfold mret, M_ret. cbn [name_lists]. rewrite !drop_0. by rewrite <- Hlen.
Qed.

Lemma multi_path_flat_target_witness :
  transfer_entry 2 "sim_name" "value" (VRef 5) [] (VRef 4) (State scenario_B_heap [])
  = Done ([] ++ map VRef [0; 1])
         (State (<[5 := ODict (foldl (fun it kv =>
                                        dict_set kv.1 (pure_value scenario_B_heap kv.2) it)
                                     [("x", VInt 0); ("y", VInt 0)]
                                     (zip ["x"; "y"]
                                          (paired_values (length ["x"; "y"])
                                                         [VInt 1; VInt 2])))]>
                   scenario_B_heap)
                []).
Proof.
  apply (multi_path_flat_target 2 "sim_name" "value" [] (State scenario_B_heap [])
           4 2 3 5 [("sim_name", VRef 2); ("value", VRef 3)]
           [("x", VInt 0); ("y", VInt 0)] [0; 1] ["x"; "y"] [VInt 1; VInt 2]);
    try reflexivity; try discriminate; by repeat constructor.
Defined.

(** On Scenario B the two keys receive the two values; with three values for
    the same two paths both keys receive the first one. *)
Example multi_path_pairing_and_broadcast :
  transfer_entry 2 "sim_name" "value" (VRef 5) [] (VRef 4) (State scenario_B_heap [])
  = Done [VRef 0; VRef 1]
         (State (<[5 := ODict [("x", VInt 1); ("y", VInt 2)]]> scenario_B_heap) []) /\
  transfer_entry 2 "sim_name" "value" (VRef 5) [] (VRef 7) (State scenario_B_heap [])
  = Done [VRef 0; VRef 1]
         (State (<[5 := ODict [("x", VInt 7); ("y", VInt 7)]]> scenario_B_heap) []).
Proof. by split. Qed.

(** ** Writing twice *)

Lemma dict_set_set k v1 v2 items :
  dict_set k v2 (dict_set k v1 items) = dict_set k v2 items.
Proof.
  induction items as [|[k' v'] items IH]; simpl.
  - by rewrite String.eqb_refl.
  - destruct (String.eqb k' k) eqn:E; simpl; rewrite E; [done|]. by rewrite IH.
Qed.

(** X15: in a properly nested heap, when the path resolves to a dictionary
    that has the final key, a write with [set_dict_entry] is overwritten
    without trace by a second write at the same path: the second call ends in
    the state it would have ended in without the first. *)
Theorem set_dict_entry_last_write_wins
        (rk : loc -> nat) (fuel : nat) (v1 v2 key_list root : val) (mode1 mode2 : string)
        (s : state) (l : loc) (items : list (string * val)) (k : string) :
  nested rk (st_heap s) ->
  is_dict (st_heap s) root = true ->
  walk_prefix fuel (st_heap s) key_list root = Ok (VRef l) ->
  st_heap s !! l = Some (ODict items) ->
  py_getitem fuel (st_heap s) key_list (VInt (-1)) = Ok (VStr k) ->
  dict_mem k items = true ->
  exists s1 s2,
    set_dict_entry fuel v1 key_list root mode1 s = Done root s1 /\
    set_dict_entry fuel v2 key_list root mode2 s1 = Done root s2 /\
    set_dict_entry fuel v2 key_list root mode2 s = Done root s2.
Proof.
  intros Hn Hd Hw Hl Hk Hm.
  assert (Hset : forall v mode,
             set_dict_entry fuel v key_list root mode s
             = Done root (State (<[l := ODict (dict_set k (pure_value (st_heap s) v) items)]>
                                   (st_heap s)) (st_out s))).
  { intros v mode. unfold set_dict_entry. munfold. rewrite Hd, Hw, Hk.
    rewrite (py_contains_dict_str _ _ _ items), Hm by done.
    unfold py_setitem. by rewrite Hl. }
  set (it1 := dict_set k (pure_value (st_heap s) v1) items).
  set (h1 := <[l := ODict it1]> (st_heap s)).
  exists (State h1 (st_out s)),
         (State (<[l := ODict (dict_set k (pure_value (st_heap s) v2) items)]> (st_heap s))
                (st_out s)).
  split_and!; [apply Hset| |apply Hset].
  assert (Hl1 : h1 !! l = Some (ODict it1)).
  { apply list_lookup_insert_eq. by eapply lookup_lt_Some. }
  unfold set_dict_entry. munfold. cbn [st_heap st_out].
  unfold h1 at 1. rewrite (is_dict_update_dict _ _ items) by done. rewrite Hd.
  cbn [st_heap st_out].
  assert (Hw1 : walk_prefix fuel h1 key_list root = Ok (VRef l)).
  { rewrite walk_prefix_unfold in Hw |- *. unfold h1.
    rewrite (py_len_update_dict _ _ items) by (unfold it1; by rewrite ?dict_set_length).
    destruct (py_len (st_heap s) key_list) as [n| |]; try done. simpl in Hw |- *.
    by rewrite (walk_update rk _ _ _ _ items). }
  rewrite Hw1. cbn [st_heap st_out].
  assert (Hk1 : py_getitem fuel h1 key_list (VInt (-1)) = Ok (VStr k)).
  { unfold h1. apply py_getitem_update_ok; [|done]. intros Heq. rewrite Heq in Hk.
    exact (py_getitem_dict_int _ _ _ _ _ _ Hl Hk). }
  rewrite Hk1. cbn [st_heap st_out].
  rewrite (py_contains_dict_str _ _ _ it1) by done.
  unfold it1 at 1. rewrite (dict_mem_set _ _ _ _ Hm). cbn [st_heap st_out].
  unfold py_setitem. rewrite Hl1. cbn [st_heap st_out].
  unfold h1 at 1 2. rewrite (pure_value_update_dict _ _ items) by done.
  rewrite list_insert_insert_eq. unfold it1. by rewrite dict_set_set.
Qed.

Lemma set_dict_entry_last_write_wins_witness :
  exists s1 s2,
    set_dict_entry 2 (VInt 5) (VRef 2) (VRef 0) "moderate" (State round_trip_heap [])
    = Done (VRef 0) s1 /\
    set_dict_entry 2 (VInt 7) (VRef 2) (VRef 0) "strict" s1 = Done (VRef 0) s2 /\
    set_dict_entry 2 (VInt 7) (VRef 2) (VRef 0) "strict" (State round_trip_heap [])
    = Done (VRef 0) s2.
Proof.
  apply (set_dict_entry_last_write_wins round_trip_rank 2 (VInt 5) (VInt 7) (VRef 2) (VRef 0)
           "moderate" "strict" (State round_trip_heap []) 1 [("b", VInt 0)] "b"
           round_trip_heap_nested eq_refl eq_refl eq_refl eq_refl eq_refl).
Defined.

(** ** Where [dict_transfer] writes *)

Lemma walk_reach fuel h key_list sub idxs l :
  foldM_o (walk_step fuel h key_list) sub idxs = Ok (VRef l) -> reach h sub l.
Proof.
  revert sub. induction idxs as [|i idxs IH]; intros sub.
  - intros [= ->]. constructor.
  - rewrite foldM_o_cons. intros (sub1 & Hstep & Hrest)%obind_ok.
    rewrite walk_step_eq in Hstep. apply obind_ok in Hstep as (k & Hk & Hs).
    specialize (IH _ Hrest).
    destruct sub1 as [| | |l1]; try (by inversion IH).
    destruct (py_getitem_child _ _ _ _ _ Hs) as (l0 & o & -> & Hl0 & Hin).
    by eapply reach_step.
Qed.

Lemma walk_prefix_reach fuel h key_list root l :
  walk_prefix fuel h key_list root = Ok (VRef l) -> reach h root l.
Proof.
  rewrite walk_prefix_unfold. intros (n & _ & H)%obind_ok. by eapply walk_reach.
Qed.

Lemma reach_owned h0 W h v l :
  inv h0 W h -> vowned h0 W v -> reach h v l -> owned h0 W l.
Proof.
  intros Hinv Hv Hr. induction Hr as [l|l o v l' Hl Hin _ IH]; [done|].
  apply IH. exact (inv_children h0 W h l o v Hinv Hv Hl Hin).
Qed.

(** The deep copy leaves the objects it finds as they are, and from what it
    returns only new objects can be reached. *)
Lemma deepcopy_new fuel x s :
  match deepcopy fuel x s with
  | Done c s1 =>
      (forall l o, st_heap s !! l = Some o -> st_heap s1 !! l = Some o) /\
      (forall l, reach (st_heap s1) c l -> length (st_heap s) <= l)
  | Failed _ s1 => forall l o, st_heap s !! l = Some o -> st_heap s1 !! l = Some o
  | Aborted => True
  end.
Proof.
  pose proof (deepcopy_keeps_objects fuel x s) as Hkeep.
  pose proof (safe_deepcopy (st_heap s) (fun _ => False) fuel x s
                (inv_start (st_heap s) (fun _ => False) (fun _ _ _ H _ _ => H))) as H.
  destruct (deepcopy fuel x s) as [c s1|e s1|]; [|done..].
  split; [done|]. intros l Hr. destruct H as [Hinv Hc].
  by destruct (reach_owned _ _ _ _ _ Hinv Hc Hr).
Qed.

Lemma keeps_for_fold_inv R `{!Reflexive R} `{!Transitive R} {S A}
      (P : S -> Prop) (body : S -> A -> M S) a xs :
  P a -> (forall a x, P a -> keeps R (body a x)) ->
  (forall a x s a' s', P a -> body a x s = Done a' s' -> P a') ->
  keeps R (for_fold body a xs).
Proof.
  intros Ha Hk Hp. revert a Ha. induction xs as [|x xs IH]; intros a Ha; simpl.
  - by apply keeps_ret.
  - intros s. unfold mbind, M_bind. pose proof (Hk a x Ha s) as H1.
    destruct (body a x s) as [a1 s1|e s1|] eqn:E; [|done..].
    pose proof (IH a1 (Hp _ _ _ _ _ Ha E) s1) as H2.
    destruct (for_fold body a1 xs s1); [by etrans..|done].
Qed.

(** The loop variable [sub_dict] stays what it is: [set_dict_entry] returns
    the dictionary it was given. *)
Lemma transfer_path_sub fuel sim_names gui_values multi_variable a i s a' s' :
  transfer_path fuel sim_names gui_values multi_variable a i s = Done a' s' ->
  sub_dict a' = sub_dict a.
Proof.
  unfold transfer_path. intros H.
  apply bind_done_inv in H as (snl & s1 & _ & H).
  apply bind_done_inv in H as (last & s2 & _ & H).
  apply bind_done_inv in H as ([|] & s3 & _ & H).
  - apply bind_done_inv in H as (pnl & s4 & _ & H).
    apply bind_done_inv in H as (vs & s5 & _ & H).
    apply bind_done_inv in H as (vl & s6 & _ & H).
    apply bind_done_inv in H as (sub & s7 & Hset & H).
    unfold mret, M_ret in H. injection H as <- _. simpl.
    pose proof (set_dict_entry_effect fuel vl pnl (sub_dict a) "moderate" s6) as He.
    rewrite Hset in He. by destruct He as [-> _].
  - apply bind_done_inv in H as (v & s4 & _ & H).
    apply bind_done_inv in H as (sub & s5 & Hset & H).
    unfold mret, M_ret in H. injection H as <- _. simpl.
    pose proof (set_dict_entry_effect fuel v snl (sub_dict a) "moderate" s4) as He.
    rewrite Hset in He. by destruct He as [-> _].
Qed.

Section transfer_steps.
Variable c : val.

#[local] Abbreviation steps := (rtc (transfer_step c)).

Lemma steps_alloc h o : steps h (h ++ [o]).
Proof. apply rtc_once. constructor. Qed.

Lemma steps_set_dict_entry fuel value key_list mode :
  keeps steps (set_dict_entry fuel value key_list c mode).
Proof.
  intros s. pose proof (set_dict_entry_write fuel value key_list c mode s) as H.
  destruct (set_dict_entry fuel value key_list c mode s) as [r s'|e s'|]; [| |done].
  - destruct H as [_ [[-> _]|[_ (l & Hw & Hcase)]]]; [done|].
    apply walk_prefix_reach in Hw.
    destruct Hcase as [(k & items & _ & Hl & Hm & ->)|(i & j & xs & _ & Hl & _ & _ & ->)].
    + apply rtc_once. eapply transfer_write; [done..|].
      simpl. symmetry. by apply dict_set_keys.
    + apply rtc_once. eapply transfer_write; [done..|].
      simpl. by rewrite length_insert.
  - by subst s'.
Qed.

Lemma steps_ensure_list v n : keeps steps (ensure_list v n).
Proof.
  unfold ensure_list. apply keeps_bind; [apply _|apply keeps_query; apply _|].
  intros [|]; [apply keeps_ret; apply _|]. apply keeps_new; try apply _.
  intros h. apply steps_alloc.
Qed.

Lemma steps_slice_init x : keeps steps (slice_init x).
Proof.
  unfold slice_init. destruct x as [| |str|l]; try (apply keeps_ret; apply _).
  all: apply keeps_bind; [apply _|apply keeps_query; apply _|].
  all: intros [[items|xs|xs|w]|]; try (apply keeps_raise; apply _).
  all: apply keeps_new; try apply _; intros h; apply steps_alloc.
Qed.

Lemma steps_transfer_path fuel sim_names gui_values multi_variable a i :
  sub_dict a = c ->
  keeps steps (transfer_path fuel sim_names gui_values multi_variable a i).
Proof.
  intros Ha. unfold transfer_path. rewrite Ha.
  apply keeps_bind; [apply _|apply keeps_query; apply _|]. intros sim_name_list.
  apply keeps_bind; [apply _|apply keeps_query; apply _|]. intros last.
  apply keeps_bind; [apply _|apply keeps_query; apply _|]. intros [|].
  - apply keeps_bind; [apply _|apply steps_slice_init|]. intros pure_name_list.
    apply keeps_bind; [apply _|apply keeps_query; apply _|]. intros value_list.
    apply keeps_bind; [apply _| |].
    { apply keeps_new; try apply _. intros h. apply steps_alloc. }
    intros vl. apply keeps_bind; [apply _|apply steps_set_dict_entry|].
    intros sub. apply keeps_ret; apply _.
  - apply keeps_bind; [apply _| |].
    { destruct multi_variable; apply keeps_query; apply _. }
    intros gui_value. apply keeps_bind; [apply _|apply steps_set_dict_entry|].
    intros sub. apply keeps_ret; apply _.
Qed.

Lemma steps_transfer_entry fuel target_name_key value_key names gui_entry :
  keeps steps (transfer_entry fuel target_name_key value_key c names gui_entry).
Proof.
  unfold transfer_entry.
  apply keeps_bind; [apply _|apply keeps_query; apply _|]. intros sim_names0.
  apply keeps_bind; [apply _|apply steps_ensure_list|]. intros sim_names.
  apply keeps_bind; [apply _|apply keeps_query; apply _|]. intros first.
  apply keeps_bind; [apply _|apply keeps_query; apply _|]. intros [|].
  - apply keeps_bind; [apply _|apply keeps_query; apply _|]. intros raw.
    apply keeps_bind; [apply _|apply steps_ensure_list|]. intros gui_values.
    apply keeps_bind; [apply _|apply keeps_query; apply _|]. intros n1.
    apply keeps_bind; [apply _|apply keeps_query; apply _|]. intros n2.
    apply keeps_bind; [apply _| |].
    { apply (keeps_for_fold_inv _ (fun a => sub_dict a = c)); [done| |].
      - intros a i Ha. by apply steps_transfer_path.
      - intros a i s a' s' Ha Hrun. apply transfer_path_sub in Hrun. congruence. }
    intros a. apply keeps_ret; apply _.
  - apply keeps_bind; [apply _|apply keeps_query; apply _|]. intros [|].
    + apply keeps_bind; [apply _|apply keeps_query; apply _|]. intros value.
      apply keeps_bind; [apply _|apply steps_set_dict_entry|]. intros _.
      apply keeps_ret; apply _.
    + apply keeps_ret; apply _.
Qed.

Lemma steps_transfer fuel target_name_key value_key source :
  keeps steps
        (extracted ← query (fun h => gen_dict_extract fuel target_name_key h source);
         names ← for_fold (transfer_entry fuel target_name_key value_key c) [] extracted;
         mret (c, names)).
Proof.
  apply keeps_bind; [apply _|apply keeps_query; apply _|]. intros extracted.
  apply keeps_bind; [apply _| |].
  { apply keeps_for_fold; try apply _. intros a e. apply steps_transfer_entry. }
  intros names. apply keeps_ret; apply _.
Qed.
End transfer_steps.


(** On the heap of the counterexample to C1 the dictionary [t['a']] of the
    target is written, and the theorem says how: it is not reachable from the
    copy made at the start, the first element stores it there, and the second
    writes through it. *)
Example shared_value_reached_through_copy :
  exists copy names s',
    dict_transfer 10 (VRef 6) (VRef 1) "sim_name" "value" (State shared_heap [])
    = Done (copy, names) s' /\
    shared_heap !! 0 = Some (ODict [("b", VInt 0)]) /\
    st_heap s' !! 0 = Some (ODict [("b", VInt 5)]) /\
    reach (st_heap s') copy 0.
Proof.
  eexists _, _, _. split; [vm_compute; reflexivity|]. split_and!; [done..|].
  refine (reach_step _ _ _ (VRef 0) 0 _ _ (reach_here _ 0)); [reflexivity|].
  simpl. right. left.
Qed.
